(** * Synthesis pipeline of the debate back end

  A shallow embedding of the synthesis service (pair resolution, the four
  one-shot Python workers, result assembly and persistence), of the
  synthesis controller and of the response service that creates the
  response pairs, followed by the properties proved about them.

  Conventions.
  - A JavaScript value is a [value]; a number is the exact rational value
    of the double it denotes (only comparisons and truthiness are taken of
    numbers here, never arithmetic).
  - A rejected promise or a thrown exception is [Throw]; an [await]ed value
    is [Ok].
  - Wall-clock measurements ([processingMetrics], [processingTime]) and
    console output are left out.
  - A string is a sequence of characters with codes below 256.
  - A result document in memory and what the store keeps of it are told
    apart: [save] answers with the first and a later read finds the
    second.

  Around the synthesis run the file also embeds what reads the two
  collections back (the queries of the response service, the listings and
  statistics of the synthesis service, the view of one result), the
  citation scanner of the response service, the payload handed to the
  synthesizer, and of the document service the chunking loop and the
  summary. *)

From Stdlib Require Import String Ascii List ZArith NArith QArith Bool Lia.
From Stdlib Require Import DecimalString Sorting.Permutation Sorting.Sorted.
Import ListNotations.
Local Close Scope Q_scope.
Local Open Scope string_scope.
Local Open Scope list_scope.

Set Implicit Arguments.
Set Warnings "-register-all".

(* ===================================================================== *)
(** ** JavaScript values *)
(* ===================================================================== *)

Module JS.

(** An array is an object too: besides its elements it can be given named
    properties, which is what an assignment [a.reasoning = ...] does. *)
Inductive value : Type :=
| VUndef
| VNull
| VBool (b : bool)
| VNum (q : Q)
| VStr (s : string)
| VArr (elems : list value) (props : list (string * value))
| VObj (props : list (string * value)).

Inductive exn : Type :=
| TypeError
| CastError
| ValidationError
| DuplicateKey
| ServerError
| Error (msg : string).

Inductive res (A : Type) : Type :=
| Ok (a : A)
| Throw (e : exn).
Arguments Ok {A} a.
Arguments Throw {A} e.

Definition res_bind {A B} (r : res A) (k : A -> res B) : res B :=
  match r with
  | Ok a => k a
  | Throw e => Throw e
  end.

(** [x || d], [!x], [x ? a : b] all go through ToBoolean. *)
Definition truthy (v : value) : bool :=
  match v with
  | VUndef | VNull => false
  | VBool b => b
  | VNum q => negb (Qnum q =? 0)%Z
  | VStr s => negb (s =? "")
  | VArr _ _ | VObj _ => true
  end.

Definition or_else (v d : value) : value := if truthy v then v else d.

Fixpoint assoc {A} (k : string) (l : list (string * A)) : option A :=
  match l with
  | [] => None
  | (k', v) :: rest => if k' =? k then Some v else assoc k rest
  end.

Fixpoint assoc_set {A} (k : string) (v : A) (l : list (string * A))
  : list (string * A) :=
  match l with
  | [] => [(k, v)]
  | (k', v') :: rest =>
      if k' =? k then (k', v) :: rest else (k', v') :: assoc_set k v rest
  end.

Definition own (props : list (string * value)) (k : string) : value :=
  match assoc k props with
  | Some v => v
  | None => VUndef
  end.

(** [v.k] for the property names this service reads (none of them is an
    inherited property of a primitive wrapper, an array or an object). *)
Definition getp (v : value) (k : string) : res value :=
  match v with
  | VUndef | VNull => Throw TypeError
  | VBool _ | VNum _ | VStr _ => Ok VUndef
  | VArr _ props => Ok (own props k)
  | VObj props => Ok (own props k)
  end.

(** [v?.k] *)
Definition optp (v : value) (k : string) : value :=
  match getp v k with
  | Ok x => x
  | Throw _ => VUndef
  end.

(** [v.k = x] in strict-mode code (an ES module): creating a property on a
    primitive, on [null] or on [undefined] is a TypeError. *)
Definition setp (v : value) (k : string) (x : value) : res value :=
  match v with
  | VObj props => Ok (VObj (assoc_set k x props))
  | VArr elems props => Ok (VArr elems (assoc_set k x props))
  | _ => Throw TypeError
  end.


(** Template-literal rendering of a process exit code: an integer, or
    [null] when the process was ended by a signal. *)
Definition show_code (code : option Z) : string :=
  match code with
  | Some z => NilZero.string_of_int (Z.to_int z)
  | None => "null"
  end.

End JS.
Import JS.

Notation "x <- r ;; k" := (res_bind r (fun x => k))
(at level 61, r at next level, right associativity).

(* ===================================================================== *)
(** ** The four workers *)
(* ===================================================================== *)

Module Worker.

Inductive Stage : Type := Judge | Detector | Synthesizer | Explainer.

(** What settles the promise wrapped around one spawned process: the first
    of these to happen calls [resolve]; later calls have no effect.
    [Closed code body] is the 'close' event, [body] being what
    [JSON.parse] makes of the accumulated standard output ([None] when it
    throws). *)
Inductive outcome : Type :=
| WriteThrew (msg : string)
| ErrorEvent (msg : string)
| Closed (code : option Z) (body : option value)
| TimedOut.

Definition exited_zero (code : option Z) : bool :=
  match code with
  | Some z => (z =? 0)%Z
  | None => false
  end.

Definition failure (err : string) : value :=
  VObj [("success", VBool false); ("error", VStr err)].

Definition _runEvidenceJudge (o : outcome) : value :=
  match o with
  | Closed code body =>
      if exited_zero code then
        match body with
        | Some result => result
        | None => failure "Parse error"
        end
      else failure ("Exit code " ++ show_code code)
  | ErrorEvent msg => failure msg
  | WriteThrew msg => failure msg
  | TimedOut => failure "Timeout"
  end.

Definition _runContradictionDetector (o : outcome) : value :=
  match o with
  | Closed code body =>
      if exited_zero code then
        match body with
        | Some result => result
        | None => failure "Parse error"
        end
      else failure ("Exit code " ++ show_code code)
  | ErrorEvent msg => failure msg
  | WriteThrew msg => failure msg
  | TimedOut => failure "Timeout"
  end.

Definition half : value := VNum (1 # 2).

Definition fallback_scores : value :=
  VObj [("support", VObj [("strength", half); ("coverage", half);
                          ("consistency", half)]);
        ("oppose", VObj [("strength", half); ("coverage", half);
                         ("consistency", half)]);
        ("evidence", VObj [("quality_score", half)]);
        ("contradictions", VObj [("contradiction_score", half)])].

Definition fallback_reasoning (error : string) : string :=
  "ML synthesis encountered an issue: " ++ error ++
  ". Both arguments have merit but a definitive verdict cannot be determined at this time.".

Definition _getFallbackResult (error : string) : value :=
  VObj [("success", VBool false);
        ("error", VStr error);
        ("final_verdict", VStr "inconclusive");
        ("confidence", half);
        ("reasoning", VStr (fallback_reasoning error));
        ("scores", fallback_scores);
        ("key_evidence", VArr [] []);
        ("fallback_used", VBool true)].

Definition _runMLSynthesisPipeline (o : outcome) : value :=
  match o with
  | Closed code body =>
      if exited_zero code then
        match body with
        | Some result => result
        | None => _getFallbackResult "Parse error"
        end
      else
        match body with
        | Some errorResult => errorResult
        | None => _getFallbackResult ("Python exit code " ++ show_code code)
        end
  | ErrorEvent msg => _getFallbackResult ("Process error: " ++ msg)
  | WriteThrew msg =>
      _getFallbackResult ("Failed to write to Python: " ++ msg)
  | TimedOut => _getFallbackResult "ML pipeline timeout (60s)"
  end.

Definition no_success : value := VObj [("success", VBool false)].

Definition _generateGrokExplanation (o : outcome) : value :=
  match o with
  | Closed code body =>
      if exited_zero code then
        match body with
        | Some result => result
        | None => no_success
        end
      else no_success
  | ErrorEvent _ => no_success
  | WriteThrew _ => no_success
  | TimedOut => no_success
  end.

(** The fixed payloads injected into the synthesizer's input when the
    judge or the detector did not report success. *)
Definition fallback_judgment : value :=
  VObj [("overall", VObj [("support", half); ("oppose", half)]);
        ("dimension_scores",
          VObj [("factual_grounding", half);
                ("logical_coherence", half);
                ("evidence_integration", half);
                ("argument_strength", half);
                ("objectivity", half)]);
        ("winner", VStr "neutral");
        ("confidence", half)].

Definition fallback_contradiction : value :=
  VObj [("contradiction_score", VNum (3 # 10));
        ("similarity_score", half);
        ("entailment_score", VNum (3 # 10));
        ("neutral_score", VNum (2 # 5));
        ("strong_contradictions", VArr [] []);
        ("is_contradictory", VBool false);
        ("fallback_used", VBool true)].

(** [r.success ? r.field : fallback] *)
Definition inject (r : value) (field : string) (fallback : value)
  : res value :=
  s <- getp r "success" ;;
  if truthy s then getp r field else Ok fallback.

(** Step 4.5 of [synthesizePair]: the explanation, when it reports success,
    is written over the synthesizer's reasoning. *)
Definition overlay (mlResult grokExplanation : value) : res value :=
  if truthy grokExplanation && truthy (optp grokExplanation "success") then
    let e := optp grokExplanation "explanation" in
    m1 <- setp mlResult "grok_explanation" e ;;
    setp m1 "reasoning" e
  else Ok mlResult.

(** What the outside answers one pipeline run with: the outcomes of its
    four processes (the synthesizer is started on the injected judge and
    detector payloads and the explainer on the synthesizer's result), and
    that of the status update which ends the run: [None] when it is
    fulfilled, else the error it rejects with and the ids it had reached by
    then. *)
Record Workers : Type := {
  judge_proc : outcome;
  detector_proc : outcome;
  synth_proc : value -> value -> outcome;
  grok_proc : value -> outcome;
  status_update : option (exn * list N)
}.

(** A stage has failed when its promise was not settled by a clean exit
    with a parseable body. *)
Definition clean (o : outcome) : bool :=
  match o with
  | Closed code (Some _) => exited_zero code
  | _ => false
  end.

End Worker.
Import Worker.

(* ===================================================================== *)
(** ** Strings as the resolver uses them *)
(* ===================================================================== *)

Module Str.

(** [s.includes(c)] for a one-character needle *)
Fixpoint includes (c : ascii) (s : string) : bool :=
  match s with
  | EmptyString => false
  | String a rest => Ascii.eqb a c || includes c rest
  end.

Definition startsWith (p s : string) : bool := String.prefix p s.

(** [s.split(c)]: never empty; the empty string gives one empty part. *)
Fixpoint split (c : ascii) (s : string) : list string :=
  match s with
  | EmptyString => [EmptyString]
  | String a rest =>
      if Ascii.eqb a c then EmptyString :: split c rest
      else match split c rest with
           | [] => [String a EmptyString]
           | part :: parts => String a part :: parts
           end
  end.

Definition digit (c : ascii) : option N :=
  let n := N_of_ascii c in
  if (48 <=? n)%N && (n <=? 57)%N then Some (n - 48)%N else None.

Definition hex_digit (c : ascii) : option N :=
  let n := N_of_ascii c in
  if (48 <=? n)%N && (n <=? 57)%N then Some (n - 48)%N
  else if (97 <=? n)%N && (n <=? 102)%N then Some (n - 87)%N
  else if (65 <=? n)%N && (n <=? 70)%N then Some (n - 55)%N
  else None.

Fixpoint numeral (base : N) (dig : ascii -> option N) (acc : N) (s : string)
  : option N :=
  match s with
  | EmptyString => Some acc
  | String c rest =>
      match dig c with
      | Some d => numeral base dig (base * acc + d)%N rest
      | None => None
      end
  end.

(** A property key that is an array index: the canonical decimal numeral of
    an integer below 2^32 - 1.  Such keys are enumerated first, in numeric
    order, by [for ... in]. *)
Definition array_index (s : string) : option N :=
  match s with
  | EmptyString => None
  | String c rest =>
      if Ascii.eqb c "0" && negb (rest =? "") then None
      else match numeral 10 digit 0 s with
           | Some n => if (n <? 4294967295)%N then Some n else None
           | None => None
           end
  end.

End Str.

(* ===================================================================== *)
(** ** Grouping in arrival order *)
(* ===================================================================== *)

Module Grouping.
Section Keyed.
Variables (K A : Type) (eqb : K -> K -> bool).

(** Append [a] to the group of key [k], opening that group after the
    existing ones when there is none yet. *)
Fixpoint push (k : K) (a : A) (gs : list (K * list A)) : list (K * list A) :=
  match gs with
  | [] => [(k, [a])]
  | (k', members) :: rest =>
      if eqb k' k then (k', members ++ [a]) :: rest
      else (k', members) :: push k a rest
  end.

Fixpoint lookup (k : K) (gs : list (K * list A)) : option (list A) :=
  match gs with
  | [] => None
  | (k', members) :: rest => if eqb k' k then Some members else lookup k rest
  end.

End Keyed.

(** Sorting by a key, greatest first.  The database leaves the order of
    equal keys open; this one keeps them in the order they came in. *)
Section Sorting.
Variables (A : Type) (key : A -> Z).

Fixpoint insert_desc (x : A) (l : list A) : list A :=
  match l with
  | [] => [x]
  | h :: rest =>
      if (key h <=? key x)%Z then x :: h :: rest
      else h :: insert_desc x rest
  end.

Definition sort_desc (l : list A) : list A := fold_right insert_desc [] l.

End Sorting.
End Grouping.

(* ===================================================================== *)
(** ** The AgentResponse collection *)
(* ===================================================================== *)

(** An ObjectId is a 96-bit number; its string form has 24 hexadecimal
    digits, and a string of any other shape does not cast to one. *)
Definition oid : Type := N.

Definition castObjectId (s : string) : option oid :=
  if (String.length s =? 24)%nat then Str.numeral 16 Str.hex_digit 0 s
  else None.

Module AgentResponse.

(** [updatedAt] holds the default read off the clock when the document was
    constructed (a reading of its own, next to that of [createdAt]) until an
    update writes a time over it. *)
Inductive stamp : Type :=
| Initial
| Written (time : Z).

(** The fields of a stored response that synthesis reads or writes.  The
    stamps [created_at] and [updated_at] that the schema's [timestamps]
    option maintains next to [createdAt] and [updatedAt] are read by
    nothing and are left out. *)
Record doc : Type := {
  _id : oid;
  sessionId : string;
  evidenceId : string;
  agentType : string;
  reasoning : string;
  subject : string;
  synthesisStatus : string;
  synthesisPairId : option oid;
  createdAt : Z;
  updatedAt : stamp
}.

Definition is_support (r : doc) : bool := agentType r =? "support".
Definition is_oppose (r : doc) : bool := agentType r =? "oppose".

Inductive idArg : Type :=
| IdStr (s : string)
| IdObj (o : oid).

(** The queries the resolver sends to the model; each may reject. *)
Class Model : Type := {
  (** [findById(id).lean()] *)
  findById : idArg -> res (option doc);
  (** [find({}).sort({createdAt: -1}).limit(n).lean()] *)
  findRecent : nat -> res (list doc);
  (** [find({synthesisPairId: token}).lean()] *)
  findByPairId : string -> res (list doc)
}.

End AgentResponse.
Import AgentResponse.

(* ===================================================================== *)
(** ** Pair resolution *)
(* ===================================================================== *)

Module Resolver.

Record Pair : Type := { support : doc; oppose : doc }.

Definition groups : Type := list (string * list doc).

(** Names every object inherits; [bySession[name]] is then truthy without
    having been assigned, and calling [push] on it is a TypeError. *)
Definition inherited_names : list string :=
  ["constructor"; "__proto__"; "hasOwnProperty"; "isPrototypeOf";
   "propertyIsEnumerable"; "toLocaleString"; "toString"; "valueOf";
   "__defineGetter__"; "__defineSetter__"; "__lookupGetter__";
   "__lookupSetter__"].

Definition inherited (k : string) : bool :=
  existsb (String.eqb k) inherited_names.

(** [if (!bySession[k]) bySession[k] = []; bySession[k].push(r)], the
    groups kept in the order their keys were created. *)
Definition push_group (k : string) (r : doc) (bySession : groups) : groups :=
  Grouping.push String.eqb k r bySession.

Fixpoint group_loop (recentResponses : list doc) (bySession : groups)
  : res groups :=
  match recentResponses with
  | [] => Ok bySession
  | response :: rest =>
      if inherited (sessionId response) then Throw TypeError
      else group_loop rest (push_group (sessionId response) response bySession)
  end.

Definition groupBySession (recentResponses : list doc) : res groups :=
  group_loop recentResponses [].

Definition index_key (g : string * list doc) : bool :=
  match Str.array_index (fst g) with
  | Some _ => true
  | None => false
  end.

Definition index_of (g : string * list doc) : N :=
  match Str.array_index (fst g) with
  | Some n => n
  | None => 0%N
  end.

Fixpoint insert_by_index (g : string * list doc) (gs : groups) : groups :=
  match gs with
  | [] => [g]
  | h :: rest =>
      if (index_of g <=? index_of h)%N then g :: h :: rest
      else h :: insert_by_index g rest
  end.

Definition sort_by_index (gs : groups) : groups :=
  fold_right insert_by_index [] gs.

(** The order in which [for (const sessionId in bySession)] visits the keys:
    array-index keys ascending, then the other keys in creation order. *)
Definition for_in (bySession : groups) : groups :=
  sort_by_index (filter index_key bySession)
  ++ filter (fun g => negb (index_key g)) bySession.

Fixpoint first_complete (gs : groups) : option Pair :=
  match gs with
  | [] => None
  | (_, responses) :: rest =>
      match find is_support responses, find is_oppose responses with
      | Some s, Some o => Some {| support := s; oppose := o |}
      | _, _ => first_complete rest
      end
  end.

(** The responses of one session, and a group that lacks one of the two
    agent types. *)
Definition in_session (sid : string) (r : doc) : bool := sessionId r =? sid.

Definition incomplete (g : string * list doc) : Prop :=
  find is_support (snd g) = None \/ find is_oppose (snd g) = None.

Definition not_found (pairIdInput : string) : exn :=
  Error ("Could not find synthesis pair for: " ++ pairIdInput).

Section WithModel.
Context {M : Model}.

(** The resolver as the service writes it: four blocks in sequence, each one
    returning early on success and falling through otherwise, the last three
    inside a try/catch of their own (the first one around its two lookups). *)
Definition _findPairedResponses (pairIdInput : string) : res Pair :=
  match
    (if Str.includes "_" pairIdInput
        && negb (Str.startsWith "pair_" pairIdInput)
     then
       match Str.split "_" pairIdInput with
       | [supportId; opposeId] =>
           match findById (IdStr supportId), findById (IdStr opposeId) with
           | Ok (Some s), Ok (Some o) => Some {| support := s; oppose := o |}
           | _, _ => None
           end
       | _ => None
       end
     else None)
  with
  | Some found => Ok found
  | None =>
  match
    (if Str.startsWith "pair_" pairIdInput then
       match findRecent 10 with
       | Ok recentResponses =>
           match groupBySession recentResponses with
           | Ok bySession => first_complete (for_in bySession)
           | Throw _ => None
           end
       | Throw _ => None
       end
     else None)
  with
  | Some found => Ok found
  | None =>
  match
    (match findByPairId pairIdInput with
     | Ok responses =>
         if (List.length responses =? 2)%nat then
           match find is_support responses, find is_oppose responses with
           | Some s, Some o => Some {| support := s; oppose := o |}
           | _, _ => None
           end
         else None
     | Throw _ => None
     end)
  with
  | Some found => Ok found
  | None =>
  match
    (match findById (IdStr pairIdInput) with
     | Ok (Some mainResponse) =>
         match synthesisPairId mainResponse with
         | Some counterpartId =>
             match findById (IdObj counterpartId) with
             | Ok (Some counterpart) =>
                 if agentType mainResponse =? "support"
                 then Some {| support := mainResponse; oppose := counterpart |}
                 else Some {| support := counterpart; oppose := mainResponse |}
             | _ => None
             end
         | None => None
         end
     | _ => None
     end)
  with
  | Some found => Ok found
  | None => Throw (not_found pairIdInput)
  end end end end.

(** The same resolver as the design describes it: four strategies, each free
    to raise, tried in priority order by one loop that swallows what a
    strategy raises. *)
Definition strategy : Type := string -> res (option Pair).

Definition split_form : strategy := fun token =>
  if Str.includes "_" token && negb (Str.startsWith "pair_" token) then
    match Str.split "_" token with
    | [a; b] =>
        s <- findById (IdStr a) ;;
        o <- findById (IdStr b) ;;
        match s, o with
        | Some s, Some o => Ok (Some {| support := s; oppose := o |})
        | _, _ => Ok None
        end
    | _ => Ok None
    end
  else Ok None.

Definition legacy_form : strategy := fun token =>
  if Str.startsWith "pair_" token then
    recent <- findRecent 10 ;;
    bySession <- groupBySession recent ;;
    Ok (first_complete (for_in bySession))
  else Ok None.

Definition cross_reference_form : strategy := fun token =>
  responses <- findByPairId token ;;
  if (List.length responses =? 2)%nat then
    match find is_support responses, find is_oppose responses with
    | Some s, Some o => Ok (Some {| support := s; oppose := o |})
    | _, _ => Ok None
    end
  else Ok None.

Definition single_id_form : strategy := fun token =>
  main <- findById (IdStr token) ;;
  match main with
  | Some m =>
      match synthesisPairId m with
      | Some cid =>
          c <- findById (IdObj cid) ;;
          match c with
          | Some c =>
              Ok (Some (if agentType m =? "support"
                        then {| support := m; oppose := c |}
                        else {| support := c; oppose := m |}))
          | None => Ok None
          end
      | None => Ok None
      end
  | None => Ok None
  end.

Definition strategies : list strategy :=
  [split_form; legacy_form; cross_reference_form; single_id_form].

Definition succeeds (s : strategy) (token : string) : option Pair :=
  match s token with
  | Ok (Some found) => Some found
  | _ => None
  end.

Fixpoint first_success (ss : list strategy) (token : string) : option Pair :=
  match ss with
  | [] => None
  | s :: rest =>
      match succeeds s token with
      | Some found => Some found
      | None => first_success rest token
      end
  end.

Definition resolve (token : string) : res Pair :=
  match first_success strategies token with
  | Some found => Ok found
  | None => Throw (not_found token)
  end.

End WithModel.

End Resolver.

(* ===================================================================== *)
(** ** The SynthesisResult collection *)
(* ===================================================================== *)

Module SynthesisResult.

(** What the driver does beyond the validators written in the schema: how it
    coerces a value of another type to a Number or a String path ([None]: a
    cast error), what it makes of the two sub-documents when it casts them
    against [mlScoreSchema] and [keyEvidenceSchema], and what a later read
    finds in the store of each cast sub-document. *)
Class Driver : Type := {
  coerceNumber : value -> option Q;
  coerceString : value -> option string;
  castMlScores : value -> option value;
  castKeyEvidence : value -> option value;
  storedMlScores : value -> value;
  storedKeyEvidence : value -> value
}.

(** The top-level paths [mlScoreSchema] declares. *)
Definition declared_scores : list string :=
  ["evidenceStrength"; "citationQuality"; "coverage"; "contradictionScore";
   "argumentConsistency"; "evidenceDiversity"].

(** The schemas are strict: a property they do not declare is dropped
    before anything is cast. *)
Definition declared (paths : list string) (props : list (string * value))
  : list (string * value) :=
  filter (fun kv => existsb (String.eqb (fst kv)) paths) props.

(** A driver that handles what the two sub-schemas declare as [B] does, and
    the rest as every driver does: of a scores object it keeps the declared
    paths only, and one left without any is an empty sub-document, which is
    answered as an empty object and not stored; an empty key-evidence list
    is cast to, and stored as, an empty list. *)
Definition strict (B : Driver) : Driver :=
  {| coerceNumber := @coerceNumber B;
     coerceString := @coerceString B;
     castMlScores := fun v =>
       match v with
       | VObj props =>
           match declared declared_scores props with
           | [] => Some (VObj [])
           | kept => @castMlScores B (VObj kept)
           end
       | _ => @castMlScores B v
       end;
     castKeyEvidence := fun v =>
       match v with
       | VArr [] _ => Some (VArr [] [])
       | _ => @castKeyEvidence B v
       end;
     storedMlScores := fun v =>
       match v with
       | VObj [] => VUndef
       | _ => @storedMlScores B v
       end;
     storedKeyEvidence := fun v =>
       match v with
       | VArr [] [] => VArr [] []
       | _ => @storedKeyEvidence B v
       end |}.

(** The object literal handed to [new SynthesisResult({...})]. *)
Record init : Type := {
  i_synthesisPairId : string;
  i_sessionId : string;
  i_evidenceId : string;
  i_supportResponseId : oid;
  i_opposeResponseId : oid;
  i_verdict : value;
  i_confidence : value;
  i_reasoning : value;
  i_mlScores : value;
  i_keyEvidence : value;
  i_evidenceJudge : value;
  i_contradictionDetector : value;
  i_confidenceScorer : value;
  i_status : option string
}.

(** A stored result. *)
Record doc : Type := {
  _id : oid;
  synthesisPairId : string;
  sessionId : string;
  evidenceId : string;
  supportResponseId : oid;
  opposeResponseId : oid;
  verdict : string;
  confidence : Q;
  reasoning : string;
  mlScores : value;
  keyEvidence : value;
  evidenceJudge : Q;
  contradictionDetector : Q;
  confidenceScorer : Q;
  status : string;
  createdAt : Z
}.

Section Schema.
Context {D : Driver}.

Definition castNumber (v : value) : option Q :=
  match v with
  | VNum q => Some q
  | _ => coerceNumber v
  end.

Definition castString (v : value) : option string :=
  match v with
  | VStr s => Some s
  | _ => coerceString v
  end.

Definition verdict_enum : list string :=
  ["support"; "oppose"; "inconclusive"; "mixed"].

Definition status_enum : list string := ["processing"; "completed"; "failed"].

Definition in_enum (s : string) (enum : list string) : bool :=
  existsb (String.eqb s) enum.

(** [required: true] on a String path rejects the empty string. *)
Definition required (s : string) : bool := negb (s =? "").

Definition in_range (lo hi q : Q) : bool := Qle_bool lo q && Qle_bool q hi.

(** Casting and validation as [synthesisResultSchema] declares them; a path
    that does not cast makes validation fail. *)
Definition validate (i : init) (id : oid) (now : Z) : res doc :=
  match castString (i_verdict i), castNumber (i_confidence i),
        castString (i_reasoning i),
        castMlScores (i_mlScores i), castKeyEvidence (i_keyEvidence i),
        castNumber (i_evidenceJudge i),
        castNumber (i_contradictionDetector i),
        castNumber (i_confidenceScorer i) with
  | Some v, Some c, Some r, Some scores, Some evidence,
    Some cj, Some cd, Some cs =>
      let st := match i_status i with
                | Some s => s
                | None => "processing"
                end in
      if required (i_synthesisPairId i)
         && required (i_sessionId i)
         && required (i_evidenceId i)
         && in_enum v verdict_enum
         && in_range 0 1 c
         && required r
         && in_enum st status_enum
      then Ok {| _id := id;
                 synthesisPairId := i_synthesisPairId i;
                 sessionId := i_sessionId i;
                 evidenceId := i_evidenceId i;
                 supportResponseId := i_supportResponseId i;
                 opposeResponseId := i_opposeResponseId i;
                 verdict := v;
                 confidence := c;
                 reasoning := r;
                 mlScores := scores;
                 keyEvidence := evidence;
                 evidenceJudge := cj;
                 contradictionDetector := cd;
                 confidenceScorer := cs;
                 status := st;
                 createdAt := now |}
      else Throw ValidationError
  | _, _, _, _, _, _, _, _ => Throw ValidationError
  end.

(** The document a later read finds in the store. *)
Definition stored (d : doc) : doc :=
  {| _id := _id d;
     synthesisPairId := synthesisPairId d;
     sessionId := sessionId d;
     evidenceId := evidenceId d;
     supportResponseId := supportResponseId d;
     opposeResponseId := opposeResponseId d;
     verdict := verdict d;
     confidence := confidence d;
     reasoning := reasoning d;
     mlScores := storedMlScores (mlScores d);
     keyEvidence := storedKeyEvidence (keyEvidence d);
     evidenceJudge := evidenceJudge d;
     contradictionDetector := contradictionDetector d;
     confidenceScorer := confidenceScorer d;
     status := status d;
     createdAt := createdAt d |}.

(** [findOne({synthesisPairId})] *)
Definition findOne (pairId : string) (coll : list doc) : option doc :=
  find (fun d => synthesisPairId d =? pairId) coll.

Definition getVerdictColor (d : doc) : string :=
  if verdict d =? "support" then "#10b981"
  else if verdict d =? "oppose" then "#ef4444"
  else if verdict d =? "inconclusive" then "#6b7280"
  else if verdict d =? "mixed" then "#f59e0b"
  else "#6b7280".

(** [formatForFrontend], without the two fields that round
    [confidence * 100] in floating point. *)
Record formatted : Type := {
  f_id : oid;
  f_synthesisPairId : string;
  f_verdict : string;
  f_confidence : Q;
  f_reasoning : string;
  f_verdictColor : string;
  f_scores : value;
  f_keyEvidence : value;
  f_createdAt : Z;
  f_models : Q * Q * Q
}.

Definition formatForFrontend (d : doc) : formatted :=
  {| f_id := _id d;
     f_synthesisPairId := synthesisPairId d;
     f_verdict := verdict d;
     f_confidence := confidence d;
     f_reasoning := reasoning d;
     f_verdictColor := getVerdictColor d;
     f_scores := mlScores d;
     f_keyEvidence := keyEvidence d;
     f_createdAt := createdAt d;
     f_models := (evidenceJudge d, contradictionDetector d, confidenceScorer d) |}.

End Schema.
End SynthesisResult.

(* ===================================================================== *)
(** ** The world the service runs in *)
(* ===================================================================== *)

Record World : Type := {
  responses : list AgentResponse.doc;
  results : list SynthesisResult.doc;
  next_oid : oid;
  spawned : list Stage
}.

Module Store.

Definition by_id (id : oid) (coll : list AgentResponse.doc)
  : option AgentResponse.doc :=
  find (fun d => (_id d =? id)%N) coll.

Definition pair_key_is (id : oid) (d : AgentResponse.doc) : bool :=
  match synthesisPairId d with
  | Some k => (k =? id)%N
  | None => false
  end.

(** The model backed by the stored collection; a string that is not an
    ObjectId makes the query reject with a cast error. *)
Definition model (coll : list AgentResponse.doc) : AgentResponse.Model :=
  {| findById := fun a =>
       match a with
       | IdStr s =>
           match castObjectId s with
           | Some id => Ok (by_id id coll)
           | None => Throw CastError
           end
       | IdObj id => Ok (by_id id coll)
       end;
     findRecent := fun n =>
       Ok (firstn n (Grouping.sort_desc AgentResponse.createdAt coll));
     findByPairId := fun token =>
       match castObjectId token with
       | Some id => Ok (filter (pair_key_is id) coll)
       | None => Throw CastError
       end |}.

Definition with_status (st : string) (d : AgentResponse.doc)
  : AgentResponse.doc :=
  {| _id := _id d; sessionId := sessionId d; evidenceId := evidenceId d;
     agentType := agentType d; reasoning := reasoning d;
     subject := subject d; synthesisStatus := st;
     synthesisPairId := synthesisPairId d; createdAt := createdAt d;
     updatedAt := updatedAt d |}.

(** [{synthesisStatus: st, updatedAt: new Date()}] written over a
    response. *)
Definition with_update (st : string) (now : Z) (d : AgentResponse.doc)
  : AgentResponse.doc :=
  {| _id := _id d; sessionId := sessionId d; evidenceId := evidenceId d;
     agentType := agentType d; reasoning := reasoning d;
     subject := subject d; synthesisStatus := st;
     synthesisPairId := synthesisPairId d; createdAt := createdAt d;
     updatedAt := Written now |}.

Definition with_pair (k : oid) (d : AgentResponse.doc) : AgentResponse.doc :=
  {| _id := _id d; sessionId := sessionId d; evidenceId := evidenceId d;
     agentType := agentType d; reasoning := reasoning d;
     subject := subject d; synthesisStatus := synthesisStatus d;
     synthesisPairId := Some k; createdAt := createdAt d;
     updatedAt := updatedAt d |}.

(** [updateMany({_id: {$in: ids}}, {$set: {synthesisStatus: st}})] *)
Definition updateMany (ids : list oid) (st : string)
  (coll : list AgentResponse.doc) : list AgentResponse.doc :=
  map (fun d => if existsb (N.eqb (_id d)) ids then with_status st d else d)
      coll.

(** [findByIdAndUpdate(id, {synthesisStatus: st, updatedAt: new Date()})]
    on the collection. *)
Definition updateById (id : oid) (st : string) (now : Z)
  (coll : list AgentResponse.doc) : list AgentResponse.doc :=
  map (fun d => if (_id d =? id)%N then with_update st now d else d) coll.

(** Saving a loaded response whose [synthesisPairId] was assigned. *)
Definition save_pair_link (d : AgentResponse.doc)
  (coll : list AgentResponse.doc) : list AgentResponse.doc :=
  map (fun x => if (_id x =? _id d)%N
                then match synthesisPairId d with
                     | Some k => with_pair k x
                     | None => x
                     end
                else x) coll.

End Store.

(* ===================================================================== *)
(** ** The synthesis service *)
(* ===================================================================== *)

Module Service.

(** A computation that reads and writes the world and may throw; what it
    did to the world before throwing stays done. *)
Definition M (A : Type) : Type := World -> res A * World.

Definition ret {A} (a : A) : M A := fun w => (Ok a, w).

Definition bind {A B} (c : M A) (k : A -> M B) : M B :=
  fun w =>
    match c w with
    | (Ok a, w') => k a w'
    | (Throw e, w') => (Throw e, w')
    end.

Definition lift {A} (r : res A) : M A := fun w => (r, w).

Notation "x <~ c ;; k" := (bind c (fun x => k))
  (at level 61, c at next level, right associativity).

(** [spawn('python3', [script], ...)]: one more process started. *)
Definition spawn (s : Stage) : M unit :=
  fun w => (Ok tt, {| responses := responses w; results := results w;
                      next_oid := next_oid w;
                      spawned := spawned w ++ [s] |}).

Definition resolve_pair (token : string) : M Resolver.Pair :=
  fun w => (@Resolver._findPairedResponses (Store.model (responses w)) token, w).

(** [await AgentResponse.updateMany(...)]: fulfilled, or rejected after it
    reached some of the two responses. *)
Definition mark_synthesized (outcome : option (exn * list oid))
  (ids : list oid) : M unit :=
  fun w =>
    match outcome with
    | None =>
        (Ok tt, {| responses :=
                     Store.updateMany ids "synthesized" (responses w);
                   results := results w;
                   next_oid := next_oid w;
                   spawned := spawned w |})
    | Some (e, reached) =>
        (Throw e,
         {| responses :=
              Store.updateMany
                (filter (fun id => existsb (N.eqb id) reached) ids)
                "synthesized" (responses w);
            results := results w;
            next_oid := next_oid w;
            spawned := spawned w |})
    end.

Section WithDriver.
Context {D : SynthesisResult.Driver}.

(** [synthesisResult.save()]: validation, then the insert, which the unique
    index on [synthesisPairId] can refuse.  The answer is the document in
    memory; the store holds what it keeps of it. *)
Definition save (i : SynthesisResult.init) (now : Z) : M SynthesisResult.doc :=
  fun w =>
    match SynthesisResult.validate i (next_oid w) now with
    | Throw e => (Throw e, w)
    | Ok d =>
        if existsb (fun d' => SynthesisResult.synthesisPairId d'
                              =? SynthesisResult.synthesisPairId d)
                   (results w)
        then (Throw DuplicateKey, w)
        else (Ok d, {| responses := responses w;
                       results := results w ++ [SynthesisResult.stored d];
                       next_oid := N.succ (next_oid w);
                       spawned := spawned w |})
    end.

(** The document [_saveSynthesisResult] builds from the synthesizer's
    result. *)
Definition result_content (synthesisPairId sessionId evidenceId : string)
  (supportResponseId opposeResponseId : oid) (mlResult : value)
  : res SynthesisResult.init :=
  final_verdict <- getp mlResult "final_verdict" ;;
  confidence <- getp mlResult "confidence" ;;
  reasoning <- getp mlResult "reasoning" ;;
  scores <- getp mlResult "scores" ;;
  key_evidence <- getp mlResult "key_evidence" ;;
  Ok {| SynthesisResult.i_synthesisPairId := synthesisPairId;
        SynthesisResult.i_sessionId := sessionId;
        SynthesisResult.i_evidenceId := evidenceId;
        SynthesisResult.i_supportResponseId := supportResponseId;
        SynthesisResult.i_opposeResponseId := opposeResponseId;
        SynthesisResult.i_verdict := or_else final_verdict (VStr "inconclusive");
        SynthesisResult.i_confidence := or_else confidence half;
        SynthesisResult.i_reasoning :=
          or_else reasoning (VStr "No reasoning provided");
        SynthesisResult.i_mlScores := or_else scores (VObj []);
        SynthesisResult.i_keyEvidence := or_else key_evidence (VArr [] []);
        SynthesisResult.i_evidenceJudge :=
          or_else (optp (optp scores "evidence") "quality_score") half;
        SynthesisResult.i_contradictionDetector :=
          or_else (optp (optp scores "contradictions") "contradiction_score")
                  half;
        SynthesisResult.i_confidenceScorer := or_else confidence half;
        SynthesisResult.i_status := Some "completed" |}.

Definition _saveSynthesisResult (synthesisPairId sessionId evidenceId : string)
  (supportResponseId opposeResponseId : oid) (mlResult : value) (now : Z)
  : M SynthesisResult.doc :=
  content <~ lift (result_content synthesisPairId sessionId evidenceId
                     supportResponseId opposeResponseId mlResult) ;;
  save content now.

(** [synthesizePair].  The guard [if (!support || !oppose) throw] after the
    resolver is not reproduced: a resolved pair always holds two
    documents. *)
Definition synthesizePair (wk : Workers) (now : Z)
  (synthesisPairIdInput : string) : M SynthesisResult.formatted :=
  found <~ resolve_pair synthesisPairIdInput ;;
  let support := Resolver.support found in
  let oppose := Resolver.oppose found in
  _ <~ spawn Judge ;;
  let evidenceJudgment := _runEvidenceJudge (judge_proc wk) in
  _ <~ spawn Detector ;;
  let contradictionAnalysis := _runContradictionDetector (detector_proc wk) in
  evidence_judgment <~
    lift (inject evidenceJudgment "evidence_judgment" fallback_judgment) ;;
  contradiction_analysis <~
    lift (inject contradictionAnalysis "contradiction_analysis"
            fallback_contradiction) ;;
  _ <~ spawn Synthesizer ;;
  let mlResult :=
    _runMLSynthesisPipeline
      (synth_proc wk evidence_judgment contradiction_analysis) in
  _ <~ lift (getp mlResult "success") ;;
  _ <~ spawn Explainer ;;
  let grokExplanation := _generateGrokExplanation (grok_proc wk mlResult) in
  mlResult' <~ lift (overlay mlResult grokExplanation) ;;
  synthesisResult <~
    _saveSynthesisResult synthesisPairIdInput
      (AgentResponse.sessionId support) (AgentResponse.evidenceId support)
      (AgentResponse._id support) (AgentResponse._id oppose) mlResult' now ;;
  _ <~ mark_synthesized (status_update wk)
         [AgentResponse._id support; AgentResponse._id oppose] ;;
  ret (SynthesisResult.formatForFrontend synthesisResult).

(** [getSynthesisResult], without the two populated references. *)
Definition getSynthesisResult (synthesisPairId : string) (w : World)
  : option SynthesisResult.doc :=
  SynthesisResult.findOne synthesisPairId (results w).

End WithDriver.
End Service.

(* ===================================================================== *)
(** ** The synthesis controller *)
(* ===================================================================== *)

Module Controller.
Import Service.

Record RunBody : Type := {
  message : string;
  result : SynthesisResult.formatted;
  cached : bool
}.

Inductive reply (A : Type) : Type :=
| Json (body : A)
| Status400 (error : string)
| Status500 (error : exn).
Arguments Json {A} body.
Arguments Status400 {A} error.
Arguments Status500 {A} error.

Section WithDriver.
Context {D : SynthesisResult.Driver}.

Definition runSynthesis (wk : Workers) (now : Z) (pairId : string) (w : World)
  : reply RunBody * World :=
  if pairId =? "" then (Status400 "pairId parameter is required", w)
  else
    match SynthesisResult.findOne pairId (results w) with
    | Some existingResult =>
        (Json {| message := "Synthesis already exists";
                 result := SynthesisResult.formatForFrontend existingResult;
                 cached := true |}, w)
    | None =>
        match synthesizePair wk now pairId w with
        | (Ok r, w') =>
            (Json {| message := "Synthesis completed successfully";
                     result := r;
                     cached := false |}, w')
        | (Throw error, w') => (Status500 error, w')
        end
    end.

End WithDriver.

(** One line of the list [findPairsForSynthesis] answers with. *)
Record PairEntry : Type := {
  pairId : oid;
  p_sessionId : string;
  p_subject : string;
  p_createdAt : Z;
  readyForSynthesis : bool
}.

(** [parseInt(req.query.limit) || 20]; [None] is NaN. *)
Definition limit_of (parsed : option Z) : Z :=
  match parsed with
  | Some n => if (n =? 0)%Z then 20%Z else n
  | None => 20%Z
  end.

(** First [$match]: a pairing key is present and the response is pending. *)
Definition awaiting (d : AgentResponse.doc) : bool :=
  match synthesisPairId d with
  | Some _ => synthesisStatus d =? "pending"
  | None => false
  end.

(** [$group] by [synthesisPairId], in order of first appearance. *)
Fixpoint group_stage (docs : list AgentResponse.doc)
  (acc : list (oid * list AgentResponse.doc))
  : list (oid * list AgentResponse.doc) :=
  match docs with
  | [] => acc
  | d :: rest =>
      match synthesisPairId d with
      | Some k => group_stage rest (Grouping.push N.eqb k d acc)
      | None => group_stage rest acc
      end
  end.

Definition max_createdAt (members : list AgentResponse.doc) : Z :=
  match members with
  | [] => 0%Z
  | d :: rest =>
      fold_left (fun m x => Z.max m (AgentResponse.createdAt x)) rest
                (AgentResponse.createdAt d)
  end.

(** [$project]; the two response fields it also computes are dropped by the
    handler before it answers. *)
Definition project (g : oid * list AgentResponse.doc) : PairEntry :=
  {| pairId := fst g;
     p_sessionId := match snd g with
                    | d :: _ => AgentResponse.sessionId d
                    | [] => ""
                    end;
     p_subject := match snd g with
                  | d :: _ => AgentResponse.subject d
                  | [] => ""
                  end;
     p_createdAt := max_createdAt (snd g);
     readyForSynthesis := true |}.

Definition size_two (g : oid * list AgentResponse.doc) : bool :=
  (List.length (snd g) =? 2)%nat.

(** The pending responses that carry the pairing key [k]. *)
Definition pending_group (k : oid) (coll : list AgentResponse.doc)
  : list AgentResponse.doc :=
  filter (fun d => awaiting d && Store.pair_key_is k d) coll.

Definition aggregate (limit : nat) (coll : list AgentResponse.doc)
  : list PairEntry :=
  firstn limit
    (Grouping.sort_desc p_createdAt
       (map project
          (filter size_two (group_stage (filter awaiting coll) [])))).

(** [findPairsForSynthesis]: a [$limit] that is not positive makes the
    aggregation reject. *)
Definition findPairsForSynthesis (parsedLimit : option Z) (w : World)
  : reply (list PairEntry) :=
  let limit := limit_of parsedLimit in
  if (limit <=? 0)%Z then Status500 ServerError
  else Json (aggregate (Z.to_nat limit) (responses w)).

End Controller.

(* ===================================================================== *)
(** ** The response service *)
(* ===================================================================== *)

Module ResponseService.
Import Service.

Definition agent_enum : list string := ["support"; "oppose"].

(** [saveGeminiResponse], restricted to the fields synthesis uses (the
    citations, the evidence context and the statistics it also stores are
    never read back by synthesis): the new document is validated against
    [agentResponseSchema] and inserted with the schema defaults; [now] is
    the clock while the document is built. *)
Definition saveGeminiResponse (sessionId evidenceId agentType : string)
  (reasoning subject : string) (now : Z) : M AgentResponse.doc :=
  fun w =>
    if SynthesisResult.required sessionId
       && SynthesisResult.required evidenceId
       && SynthesisResult.in_enum agentType agent_enum
       && SynthesisResult.required reasoning
       && SynthesisResult.required subject
    then
      let d := {| _id := next_oid w;
                  sessionId := sessionId;
                  evidenceId := evidenceId;
                  agentType := agentType;
                  reasoning := reasoning;
                  subject := subject;
                  synthesisStatus := "pending";
                  synthesisPairId := None;
                  createdAt := now;
                  updatedAt := Initial |} in
      (Ok d, {| responses := responses w ++ [d];
                results := results w;
                next_oid := N.succ (next_oid w);
                spawned := spawned w |})
    else (Throw ValidationError, w).

(** [markAsSynthesized] at the time [now]: [findByIdAndUpdate] with the new
    status and the time of the update; the answer is the updated document,
    or [null] when there is none. *)
Definition markAsSynthesized (responseId : string) (now : Z)
  : M (option AgentResponse.doc) :=
  fun w =>
    match castObjectId responseId with
    | None => (Throw CastError, w)
    | Some id =>
        (Ok (option_map (Store.with_update "synthesized" now)
               (Store.by_id id (responses w))),
         {| responses := Store.updateById id "synthesized" now (responses w);
            results := results w;
            next_oid := next_oid w;
            spawned := spawned w |})
    end.

Definition save_link (d : AgentResponse.doc) : M unit :=
  fun w => (Ok tt, {| responses := Store.save_pair_link d (responses w);
                      results := results w;
                      next_oid := next_oid w;
                      spawned := spawned w |}).

Definition saveBothGeminiResponses (sessionId evidenceId : string)
  (supportReasoning opposeReasoning subject : string) (now1 now2 : Z)
  : M (AgentResponse.doc * AgentResponse.doc) :=
  supportResponse <~
    saveGeminiResponse sessionId evidenceId "support" supportReasoning
      subject now1 ;;
  opposeResponse <~
    saveGeminiResponse sessionId evidenceId "oppose" opposeReasoning
      subject now2 ;;
  let supportResponse' := Store.with_pair (_id opposeResponse) supportResponse in
  let opposeResponse' := Store.with_pair (_id supportResponse) opposeResponse in
  _ <~ save_link supportResponse' ;;
  _ <~ save_link opposeResponse' ;;
  ret (supportResponse', opposeResponse').

End ResponseService.

(* ===================================================================== *)
(** ** Sample data *)
(* ===================================================================== *)

Module Sample.
Import Service.

Definition empty_world : World :=
  {| responses := []; results := []; next_oid := 0%N; spawned := [] |}.

(** A driver that coerces nothing and keeps, and stores, what the
    sub-schemas declare as it is given. *)
Definition literal_driver : SynthesisResult.Driver :=
  {| SynthesisResult.coerceNumber := fun _ => None;
     SynthesisResult.coerceString := fun _ => None;
     SynthesisResult.castMlScores := fun v => Some v;
     SynthesisResult.castKeyEvidence := fun v => Some v;
     SynthesisResult.storedMlScores := fun v => v;
     SynthesisResult.storedKeyEvidence := fun v => v |}.

Definition schema_driver : SynthesisResult.Driver :=
  SynthesisResult.strict literal_driver.

(** One pair as the response service creates it. *)
Definition paired_world : World :=
  snd (ResponseService.saveBothGeminiResponses "s1" "e1"
         "The evidence supports the claim. [Chunk 1]"
         "The evidence does not support the claim. [Chunk 2]"
         "Remote work" 100%Z 101%Z empty_world).

Definition support_doc : doc :=
  {| _id := 0%N; sessionId := "s1"; evidenceId := "e1";
     agentType := "support";
     reasoning := "The evidence supports the claim. [Chunk 1]";
     subject := "Remote work"; synthesisStatus := "pending";
     synthesisPairId := Some 1%N; createdAt := 100%Z; updatedAt := Initial |}.

Definition oppose_doc : doc :=
  {| _id := 1%N; sessionId := "s1"; evidenceId := "e1";
     agentType := "oppose";
     reasoning := "The evidence does not support the claim. [Chunk 2]";
     subject := "Remote work"; synthesisStatus := "pending";
     synthesisPairId := Some 0%N; createdAt := 101%Z; updatedAt := Initial |}.

Definition support_id : string := "000000000000000000000000".
Definition oppose_id : string := "000000000000000000000001".

Definition split_token : string := support_id ++ "_" ++ oppose_id.
Definition reversed_token : string := oppose_id ++ "_" ++ support_id.

Definition response (id : N) (sid type : string) (at_ : Z) : doc :=
  {| _id := id; sessionId := sid; evidenceId := "e1"; agentType := type;
     reasoning := "reasoning"; subject := "Remote work";
     synthesisStatus := "pending"; synthesisPairId := None;
     createdAt := at_; updatedAt := Initial |}.

(** A session that was asked twice for its support argument. *)
Definition crowded_session : list doc :=
  [response 0 "s1" "support" 100; response 1 "s1" "oppose" 101;
   response 2 "s1" "support" 102].

(** Two pending responses that share the pairing key 7 and a third one
    alone with the key 9. *)
Definition pending_world : World :=
  {| responses := [Store.with_pair 7%N (response 0 "s1" "support" 100);
                   Store.with_pair 7%N (response 1 "s1" "oppose" 101);
                   Store.with_pair 9%N (response 2 "s2" "support" 102)];
     results := []; next_oid := 3%N; spawned := [] |}.

Definition ready_entry : Controller.PairEntry :=
  {| Controller.pairId := 7%N; Controller.p_sessionId := "s1";
     Controller.p_subject := "Remote work";
     Controller.p_createdAt := 101%Z;
     Controller.readyForSynthesis := true |}.

(** The body a synthesizer script that traps its own exception prints
    before it exits with status 1. *)
Definition trapped_error_body : value :=
  VObj [("success", VBool false); ("error", VStr "model file missing")].



(** Workers that all fail: a timeout, a spawn error, a non-zero exit with
    unparseable output, a timeout. *)
Definition failing_workers : Workers :=
  {| judge_proc := TimedOut;
     detector_proc := ErrorEvent "spawn python3 ENOENT";
     synth_proc := fun _ _ => Closed (Some 1%Z) None;
     grok_proc := fun _ => TimedOut;
     status_update := None |}.


Definition null_workers : Workers :=
  {| judge_proc := TimedOut;
     detector_proc := ErrorEvent "spawn python3 ENOENT";
     synth_proc := fun _ _ => Closed (Some 1%Z) (Some VNull);
     grok_proc := fun _ => TimedOut;
     status_update := None |}.

(** The document in memory when the pair is synthesized with every worker
    failing: the scores of the fallback are gone. *)
Definition fallback_doc : SynthesisResult.doc :=
  {| SynthesisResult._id := 2%N;
     SynthesisResult.synthesisPairId := split_token;
     SynthesisResult.sessionId := "s1";
     SynthesisResult.evidenceId := "e1";
     SynthesisResult.supportResponseId := 0%N;
     SynthesisResult.opposeResponseId := 1%N;
     SynthesisResult.verdict := "inconclusive";
     SynthesisResult.confidence := (1 # 2)%Q;
     SynthesisResult.reasoning := fallback_reasoning "Python exit code 1";
     SynthesisResult.mlScores := VObj [];
     SynthesisResult.keyEvidence := VArr [] [];
     SynthesisResult.evidenceJudge := (1 # 2)%Q;
     SynthesisResult.contradictionDetector := (1 # 2)%Q;
     SynthesisResult.confidenceScorer := (1 # 2)%Q;
     SynthesisResult.status := "completed";
     SynthesisResult.createdAt := 200%Z |}.

(** What the store holds of it. *)
Definition stored_fallback_doc : SynthesisResult.doc :=
  @SynthesisResult.stored schema_driver fallback_doc.


(** Three responses carry the pairing key 7; two of them are pending and
    the third one is synthesized. *)
Definition shared_key_world : World :=
  {| responses := [Store.with_pair 7%N (response 0 "s1" "support" 100);
                   Store.with_pair 7%N (response 1 "s1" "oppose" 101);
                   Store.with_status "synthesized"
                     (Store.with_pair 7%N (response 2 "s1" "support" 102))];
     results := []; next_oid := 3%N; spawned := [] |}.

(** A session id that every object inherits as a property name. *)
Definition inherited_session : list doc :=
  [response 1 "constructor" "oppose" 101;
   response 0 "constructor" "support" 100].

Definition fresh_body : Controller.RunBody :=
  {| Controller.message := "Synthesis completed successfully";
     Controller.result := SynthesisResult.formatForFrontend fallback_doc;
     Controller.cached := false |}.

(** The world after the pair was synthesized with every worker failing. *)
Definition synthesized_world : World :=
  snd (@Controller.runSynthesis schema_driver failing_workers 200%Z split_token
         paired_world).

End Sample.
Import Sample.

(* ===================================================================== *)
(** ** Histories *)
(* ===================================================================== *)

Module System.
Section WithDriver.
Context {D : SynthesisResult.Driver}.

(** One request served to completion: a synthesis run with whatever its
    workers do, or the creation of responses by the response service. *)
Inductive step : World -> World -> Prop :=
| step_run (wk : Workers) (now : Z) (pairId : string) (w : World) :
    step w (snd (Controller.runSynthesis wk now pairId w))
| step_pair (sid eid supportReasoning opposeReasoning subj : string)
    (now1 now2 : Z) (w : World) :
    step w (snd (ResponseService.saveBothGeminiResponses sid eid
                   supportReasoning opposeReasoning subj now1 now2 w))
| step_response (sid eid type reasoning subj : string) (now : Z) (w : World) :
    step w (snd (ResponseService.saveGeminiResponse sid eid type reasoning
                   subj now w))
| step_mark (responseId : string) (now : Z) (w : World) :
    step w (snd (ResponseService.markAsSynthesized responseId now w)).

(** The worlds the service can be in, starting with empty collections. *)
Inductive reachable : World -> Prop :=
| reach_empty : reachable empty_world
| reach_step (w w' : World) : reachable w -> step w w' -> reachable w'.

(** What the schema promises of a stored result. *)
Definition well_formed (d : SynthesisResult.doc) : Prop :=
  (0 <= SynthesisResult.confidence d)%Q
  /\ (SynthesisResult.confidence d <= 1)%Q
  /\ In (SynthesisResult.verdict d) SynthesisResult.verdict_enum.

End WithDriver.
End System.

(* ===================================================================== *)
(** ** Pair tokens as the front end builds them *)
(* ===================================================================== *)

Module ObjectId.

Definition hex_char (d : N) : ascii :=
  ascii_of_N (if (d <? 10)%N then 48 + d else 87 + d).

(** The [k] lowest hexadecimal digits of [n], most significant first. *)
Fixpoint hex_digits (k : nat) (n : N) : string :=
  match k with
  | O => EmptyString
  | S k' =>
      String (hex_char ((n / 16 ^ N.of_nat k') mod 16)) (hex_digits k' n)
  end.

(** [id.toString()]: 24 lowercase hexadecimal digits. *)
Definition toString (id : oid) : string := hex_digits 24 id.

(** The largest ObjectId: 96 bits. *)
Definition bound : N := (16 ^ 24)%N.

End ObjectId.

(** [`${data.support.responseId}_${data.oppose.responseId}`], the token the
    reasoning view builds and hands to the synthesis panel. *)
Definition pairToken (supportId opposeId : oid) : string :=
  ObjectId.toString supportId ++ "_" ++ ObjectId.toString opposeId.

(** The order in which one run starts its workers. *)
Definition pipeline_order : list Stage :=
  [Judge; Detector; Synthesizer; Explainer].

(* ===================================================================== *)
(** ** What the collections look like after any history *)
(* ===================================================================== *)

Module Consistency.

Definition known_type (d : AgentResponse.doc) : Prop :=
  agentType d = "support" \/ agentType d = "oppose".

Definition known_status (d : AgentResponse.doc) : Prop :=
  synthesisStatus d = "pending" \/ synthesisStatus d = "synthesized".

(** A response that carries a pairing key is pointed back at by the
    response of that id, which is of the other agent type. *)
Definition linked (coll : list AgentResponse.doc) (d : AgentResponse.doc)
  : Prop :=
  forall k, synthesisPairId d = Some k ->
    exists d', In d' coll /\ _id d' = k
               /\ synthesisPairId d' = Some (_id d)
               /\ agentType d' <> agentType d.

(** A stored result refers to two stored responses. *)
Definition refers (coll : list AgentResponse.doc) (r : SynthesisResult.doc)
  : Prop :=
  (exists s, In s coll /\ _id s = SynthesisResult.supportResponseId r)
  /\ (exists o, In o coll /\ _id o = SynthesisResult.opposeResponseId r).

(** The document [saveGeminiResponse] inserts. *)
Definition new_response (id : oid) (sid eid type text subj : string) (now : Z)
  : AgentResponse.doc :=
  {| _id := id; sessionId := sid; evidenceId := eid; agentType := type;
     reasoning := text; subject := subj; synthesisStatus := "pending";
     synthesisPairId := None; createdAt := now; updatedAt := Initial |}.

Record consistent (w : World) : Prop := {
  ids_unique : NoDup (map _id (responses w));
  ids_issued : forall d, In d (responses w) -> (_id d < next_oid w)%N;
  types_known : forall d, In d (responses w) -> known_type d;
  statuses_known : forall d, In d (responses w) -> known_status d;
  required_present : forall d, In d (responses w) ->
                       sessionId d <> "" /\ evidenceId d <> ""
                       /\ reasoning d <> "" /\ subject d <> "";
  links_mutual : forall d, In d (responses w) -> linked (responses w) d;
  keys_unique : NoDup (map SynthesisResult.synthesisPairId (results w));
  results_refer : forall r, In r (results w) -> refers (responses w) r
}.

End Consistency.

(* ===================================================================== *)
(** ** Orderings and limits of queries *)
(* ===================================================================== *)

Module Ordering.
Section By.
Variables (A : Type) (leb : A -> A -> bool).



End By.

(** What the driver makes of [.limit(n)] on a query when [n] is zero or
    negative. *)
Class Cursor : Type := {
  other_limit : forall A : Type, Z -> list A -> list A
}.

(** [.limit(n)] on a query. *)
Definition limited {C : Cursor} {A : Type} (n : Z) (l : list A) : list A :=
  if (0 <? n)%Z then firstn (Z.to_nat n) l else other_limit n l.

(** The first [n] characters of a string: [s.substring(0, n)]. *)
Fixpoint take (n : nat) (s : string) : string :=
  match n, s with
  | O, _ => EmptyString
  | S n', EmptyString => EmptyString
  | S n', String c rest => String c (take n' rest)
  end.

End Ordering.

(* ===================================================================== *)
(** ** Reading responses *)
(* ===================================================================== *)

Module Reading.
Import Ordering.








Section WithCursor.
Context {C : Cursor}.



End WithCursor.

(** [getCounterpart]: a response of the same session and evidence and of
    the other agent type. *)
Definition getCounterpart (this : AgentResponse.doc)
  (coll : list AgentResponse.doc) : option AgentResponse.doc :=
  let counterpartType :=
    if agentType this =? "support" then "oppose" else "support" in
  find (fun d => (sessionId d =? sessionId this)
                 && (evidenceId d =? evidenceId this)
                 && (agentType d =? counterpartType)) coll.

End Reading.

(* ===================================================================== *)
(** ** Reading results *)
(* ===================================================================== *)

Module Results.
Import Ordering.

(** One line of [getRecentSyntheses], without the processing time. *)
Record Summary : Type := {
  s_id : oid;
  s_synthesisPairId : string;
  s_verdict : string;
  s_confidence : Q;
  s_createdAt : Z;
  s_subject : string
}.

(** [result.supportResponseId?.subject || 'Unknown'], the reference having
    been populated. *)
Definition subject_of (coll : list AgentResponse.doc) (id : oid) : string :=
  match Store.by_id id coll with
  | Some d => if subject d =? "" then "Unknown" else subject d
  | None => "Unknown"
  end.

Definition summarize (coll : list AgentResponse.doc)
  (r : SynthesisResult.doc) : Summary :=
  {| s_id := SynthesisResult._id r;
     s_synthesisPairId := SynthesisResult.synthesisPairId r;
     s_verdict := SynthesisResult.verdict r;
     s_confidence := SynthesisResult.confidence r;
     s_createdAt := SynthesisResult.createdAt r;
     s_subject := subject_of coll (SynthesisResult.supportResponseId r) |}.

Section WithCursor.
Context {C : Cursor}.

(** [getRecentSyntheses] of the service. *)
Definition getRecentSyntheses (limit : Z) (w : World) : list Summary :=
  map (summarize (responses w))
    (limited limit
       (Grouping.sort_desc SynthesisResult.createdAt (results w))).

(** [getRecentSyntheses] of the controller: [parseInt(limit) || 10]. *)
Definition recent (parsedLimit : option Z) (w : World)
  : list Summary * nat :=
  let limit := match parsedLimit with
               | Some n => if (n =? 0)%Z then 10%Z else n
               | None => 10%Z
               end in
  let syntheses := getRecentSyntheses limit w in
  (syntheses, List.length syntheses).

End WithCursor.






(** The two populated references in the answer of the controller's
    [getSynthesisResult]. *)
Record Excerpt : Type := {
  e_id : oid;
  e_agentType : string;
  e_reasoning : string
}.

Definition excerpt (coll : list AgentResponse.doc) (id : oid)
  : option Excerpt :=
  match Store.by_id id coll with
  | Some d => Some {| e_id := _id d;
                      e_agentType := agentType d;
                      e_reasoning :=
                        take 500 (AgentResponse.reasoning d) ++ "..." |}
  | None => None
  end.

(** The answer, without [confidencePercent] (a floating-point rounding) and
    the processing time. *)
Record View : Type := {
  v_id : oid;
  v_synthesisPairId : string;
  v_verdict : string;
  v_confidence : Q;
  v_reasoning : string;
  v_scores : value;
  v_keyEvidence : value;
  v_createdAt : Z;
  v_supportResponse : option Excerpt;
  v_opposeResponse : option Excerpt
}.

Inductive answer : Type :=
| Found (result : View)
| NotFound (error : string).

(** [getSynthesisResult] of the controller. *)
Definition getSynthesisResult (pairId : string) (w : World) : answer :=
  match SynthesisResult.findOne pairId (results w) with
  | None => NotFound "Synthesis result not found"
  | Some result =>
      Found {| v_id := SynthesisResult._id result;
               v_synthesisPairId := SynthesisResult.synthesisPairId result;
               v_verdict := SynthesisResult.verdict result;
               v_confidence := SynthesisResult.confidence result;
               v_reasoning := SynthesisResult.reasoning result;
               v_scores := SynthesisResult.mlScores result;
               v_keyEvidence := SynthesisResult.keyEvidence result;
               v_createdAt := SynthesisResult.createdAt result;
               v_supportResponse :=
                 excerpt (responses w)
                   (SynthesisResult.supportResponseId result);
               v_opposeResponse :=
                 excerpt (responses w)
                   (SynthesisResult.opposeResponseId result) |}
  end.

End Results.

(* ===================================================================== *)
(** ** Citations in a reasoning text *)
(* ===================================================================== *)

Module Citations.

(** What [parseInt] makes of a string of decimal digits, and [===] on such
    numbers. *)
Class Numerals : Type := {
  number : Type;
  parseInt : string -> number;
  same : number -> number -> bool
}.

(** [\s] on characters with codes below 256. *)
Definition is_space (c : ascii) : bool :=
  let n := N_of_ascii c in
  ((9 <=? n)%N && (n <=? 13)%N) || (n =? 32)%N || (n =? 160)%N.

(** [\d] *)
Definition is_digit (c : ascii) : bool :=
  let n := N_of_ascii c in (48 <=? n)%N && (n <=? 57)%N.

Fixpoint drop (n : nat) (s : string) : string :=
  match n, s with
  | O, _ => s
  | S n', EmptyString => EmptyString
  | S n', String _ rest => drop n' rest
  end.

(** The longest prefix of characters of one class, and what follows it. *)
Fixpoint span (p : ascii -> bool) (s : string) : string * string :=
  match s with
  | EmptyString => (EmptyString, EmptyString)
  | String c rest =>
      if p c then let (run, after) := span p rest in (String c run, after)
      else (EmptyString, s)
  end.

(** A match of [/\[Chunk\s*(\d+)\]/] at the start of [s]: its length and
    its group.  The two greedy runs are of classes that exclude what must
    follow them, so giving characters back never produces a match. *)
Definition match_at (s : string) : option (nat * string) :=
  if String.prefix "[Chunk" s then
    let (spaces, s1) := span is_space (drop 6 s) in
    let (digits, s2) := span is_digit s1 in
    match digits, s2 with
    | String _ _, String c _ =>
        if Ascii.eqb c "]"
        then Some ((6 + String.length spaces + String.length digits + 1)%nat,
                   digits)
        else None
    | _, _ => None
    end
  else None.

(** One match of the loop: [match.index], [match[1]] and [match[0].length]. *)
Record Match : Type := {
  index : nat;
  group : string;
  width : nat
}.

(** The successive results of [citationRegex.exec(reasoning)]: [s] is the
    text from the index [at_] on and [skip] what is left of the last match,
    before the regex's [lastIndex]. *)
Fixpoint exec_all (at_ skip : nat) (s : string) : list Match :=
  match s with
  | EmptyString => []
  | String _ rest =>
      match skip with
      | S k => exec_all (S at_) k rest
      | O =>
          match match_at s with
          | Some (w, g) =>
              {| index := at_; group := g; width := w |}
              :: exec_all (S at_) (w - 1) rest
          | None => exec_all (S at_) 0 rest
          end
      end
  end.

(** [s.substring(a, b)] for [a <= b] *)
Definition substring (a b : nat) (s : string) : string :=
  Ordering.take (b - a) (drop a s).

(** [.replace(/\n/g, ' ')] *)
Fixpoint replace_newlines (s : string) : string :=
  match s with
  | EmptyString => EmptyString
  | String c rest =>
      String (if (N_of_ascii c =? 10)%N then " "%char else c)
             (replace_newlines rest)
  end.

(** [.replace(/\s+/g, ' ')]; [in_run] tells that the previous character was
    white space. *)
Fixpoint collapse (in_run : bool) (s : string) : string :=
  match s with
  | EmptyString => EmptyString
  | String c rest =>
      if is_space c
      then if in_run then collapse true rest
           else String " " (collapse true rest)
      else String c (collapse false rest)
  end.

Fixpoint trim_end (s : string) : string :=
  match s with
  | EmptyString => EmptyString
  | String c rest =>
      let r := trim_end rest in
      if is_space c && (r =? "") then EmptyString else String c r
  end.

(** [.trim()] *)
Definition trim (s : string) : string := trim_end (snd (span is_space s)).

Section WithNumerals.
Context {Num : Numerals}.

Record Citation : Type := {
  chunkNumber : number;
  context : string;
  timestampInReasoning : nat
}.

(** The context around one match. *)
Definition context_of (reasoning : string) (m : Match) : string :=
  let start := Nat.max 0 (index m - 100) in
  let end_ := Nat.min (String.length reasoning) (index m + width m + 100) in
  trim (collapse false (replace_newlines (substring start end_ reasoning))).

(** The body of the loop for one match. *)
Definition add_citation (reasoning : string) (citations : list Citation)
  (m : Match) : list Citation :=
  let n := parseInt (group m) in
  if existsb (fun c => same (chunkNumber c) n) citations then citations
  else citations ++ [{| chunkNumber := n;
                        context := context_of reasoning m;
                        timestampInReasoning := index m |}].

(** [extractCitations] *)
Definition extractCitations (reasoning : string) : list Citation :=
  fold_left (add_citation reasoning) (exec_all 0 0 reasoning) [].

End WithNumerals.

(** Numerals short enough to be read exactly. *)
Definition exact_numerals : Numerals :=
  {| number := option N;
     parseInt := Str.numeral 10 Str.digit 0;
     same := fun a b =>
       match a, b with
       | Some x, Some y => (x =? y)%N
       | _, _ => false
       end |}.

End Citations.

(* ===================================================================== *)
(** ** Cutting a document into chunks *)
(* ===================================================================== *)

Module Documents.

(** The [switch] of [processText]: the strategy, the chunk size and the
    overlap for a document type and a number of words. *)
Definition chunk_parameters (docType : string) (words : nat)
  : string * nat * nat :=
  if docType =? "resume/cv" then ("key_sections", 300, 30)%nat
  else if (docType =? "academic paper")
          || (docType =? "technical documentation")
  then ("conceptual", 500, 100)%nat
  else if docType =? "short document"
  then let chunkSize := Nat.min 800 words in
       ("whole_document", chunkSize, chunkSize / 4)%nat
  else if (docType =? "email/letter") || (docType =? "article/blog")
  then ("paragraph_based", 600, 50)%nat
  else ("balanced", 400, 40)%nat.

(** A chunk, without its position label and its relevance score, which are
    floating-point computations. *)
Record Chunk : Type := {
  id : nat;
  text : string;
  length : nat;
  startWord : nat;
  endWord : nat
}.

(** [words.slice(a, b)] for [a <= b] *)
Definition slice (a b : nat) (words : list string) : list string :=
  firstn (b - a) (skipn a words).

(** The [for] loop of [processText] from the index [i] on; [fuel] bounds
    the number of rounds, and running out of it gives [None]. *)
Fixpoint chunk_loop (fuel : nat) (chunkSize overlap : nat)
  (words : list string) (i : nat) (chunks : list Chunk)
  : option (list Chunk) :=
  if (List.length words <=? i)%nat then Some chunks
  else match fuel with
       | O => None
       | S fuel' =>
           let chunkWords := slice i (i + chunkSize) words in
           if (List.length chunkWords =? 0)%nat then Some chunks
           else
             chunk_loop fuel' chunkSize overlap words
               (i + (chunkSize - overlap))
               (chunks ++ [{| id := List.length chunks;
                              text := String.concat " " chunkWords;
                              length := List.length chunkWords;
                              startWord := i;
                              endWord := i + List.length chunkWords |}])
       end.

(** The chunks [processText] cuts the words of a document into. *)
Definition chunks_of (docType : string) (words : list string)
  : option (list Chunk) :=
  let '(_, chunkSize, overlap) :=
    chunk_parameters docType (List.length words) in
  chunk_loop (List.length words) chunkSize overlap words 0 [].

(** The chunk the round [k] of the loop adds. *)
Definition chunk_at (chunkSize step : nat) (words : list string) (k : nat)
  : Chunk :=
  let chunkWords := slice (k * step) (k * step + chunkSize) words in
  {| id := k;
     text := String.concat " " chunkWords;
     length := List.length chunkWords;
     startWord := k * step;
     endWord := k * step + List.length chunkWords |}.

(** The number of rounds of the loop. *)
Definition rounds (words step : nat) : nat :=
  match words with
  | O => O
  | S w => S (w / step)
  end.

End Documents.

(* ===================================================================== *)
(** ** The summary of a document *)
(* ===================================================================== *)

Module Summaries.

(** [[.!?]] *)
Definition ends_sentence (c : ascii) : bool :=
  Ascii.eqb c "." || Ascii.eqb c "!" || Ascii.eqb c "?".

(** [text.split(/[.!?]+/)]: the pieces between the runs of sentence marks;
    [in_run] tells that the previous character was one. *)
Fixpoint split_sentences (in_run : bool) (s : string) : list string :=
  match s with
  | EmptyString => [EmptyString]
  | String c rest =>
      if ends_sentence c
      then if in_run then split_sentences true rest
           else EmptyString :: split_sentences true rest
      else match split_sentences false rest with
           | [] => [String c EmptyString]
           | piece :: pieces => String c piece :: pieces
           end
  end.

(** [s => s.trim()] as a condition *)
Definition not_blank (s : string) : bool := negb (Citations.trim s =? "").

(** [generateDocumentSummary]; the document type is not looked at. *)
Definition generateDocumentSummary (text docType : string) : string :=
  let sentences := filter not_blank (split_sentences false text) in
  if (List.length sentences =? 0)%nat then "No summary available"
  else
    let summarySentences :=
      firstn (Nat.min 3 (List.length sentences)) sentences in
    let summary := (String.concat ". " summarySentences ++ ".")%string in
    if (300 <? String.length summary)%nat
    then (Ordering.take 297 summary ++ "...")%string
    else summary.

End Summaries.

(* ===================================================================== *)
(** ** What the synthesizer is given *)
(* ===================================================================== *)

Module Payload.

(** An evidence chunk as stored: the fields the payload reads. *)
Record EvidenceChunk : Type := {
  chunkId : Q;
  text : string;
  relevanceScore : Q
}.

Record Item : Type := {
  id : Q;
  i_text : string;
  relevance : Q
}.

Record Side : Type := {
  s_reasoning : string;
  responseId : string;
  s_subject : string
}.

(** The payload, without the citations and the raw model response of each
    side, which the store model does not keep. *)
Record Data : Type := {
  synthesisPairId : string;
  sessionId : string;
  support : Side;
  oppose : Side;
  evidence : list Item
}.

(** [evidence.map((chunk, index) => ...)] from the index [index] on *)
Fixpoint items (index : nat) (chunks : list EvidenceChunk) : list Item :=
  match chunks with
  | [] => []
  | chunk :: rest =>
      {| id := if Qeq_bool (chunkId chunk) 0
               then inject_Z (Z.of_nat index) else chunkId chunk;
         i_text := text chunk;
         relevance := if Qeq_bool (relevanceScore chunk) 0
                      then (1 # 2)%Q else relevanceScore chunk |}
      :: items (S index) rest
  end.

Definition side (r : AgentResponse.doc) : Side :=
  {| s_reasoning := AgentResponse.reasoning r;
     responseId := ObjectId.toString (AgentResponse._id r);
     s_subject := AgentResponse.subject r |}.

(** [_prepareMLPipelineData] *)
Definition _prepareMLPipelineData (supportResponse opposeResponse
  : AgentResponse.doc) (evidence : list EvidenceChunk) : Data :=
  {| synthesisPairId :=
       match AgentResponse.synthesisPairId supportResponse with
       | Some k => ObjectId.toString k
       | None => "unknown"
       end;
     sessionId := AgentResponse.sessionId supportResponse;
     support := side supportResponse;
     oppose := side opposeResponse;
     evidence := items 0 evidence |}.

End Payload.

(* ===================================================================== *)
(** ** Measures used in the statements *)
(* ===================================================================== *)





(* ===================================================================== *)
(** ** More sample data *)
(* ===================================================================== *)

Module Cases.



End Cases.
Import Cases.

(* ===================================================================== *)
(** * Properties *)
(* ===================================================================== *)

(** ** Objects *)






(** ** Workers *)

Lemma judge_failure o :
  clean o = false -> exists e, _runEvidenceJudge o = failure e.
Proof.
  intros H. destruct o as [msg|msg|code [body|]|]; simpl in *; eauto.
  - rewrite H. eauto.
  - destruct (exited_zero code); eauto.
Qed.

Lemma detector_failure o :
  clean o = false -> exists e, _runContradictionDetector o = failure e.
Proof.
  intros H. destruct o as [msg|msg|code [body|]|]; simpl in *; eauto.
  - rewrite H. eauto.
  - destruct (exited_zero code); eauto.
Qed.

Lemma grok_failure o :
  clean o = false -> _generateGrokExplanation o = no_success.
Proof.
  intros H. destruct o as [msg|msg|code [body|]|]; simpl in *; auto.
  - now rewrite H.
  - now destruct (exited_zero code).
Qed.

Lemma synth_fallback o :
  clean o = false -> (forall code body, o <> Closed code (Some body)) ->
  exists cause, _runMLSynthesisPipeline o = _getFallbackResult cause.
Proof.
  intros H Hne. destruct o as [msg|msg|code [body|]|]; simpl in *; eauto.
  - exfalso. eapply Hne. reflexivity.
  - destruct (exited_zero code); eauto.
Qed.



(** C5, as stated, fails: the synthesizer stage, on a non-zero exit whose
    standard output parses, resolves with that output and not with its
    fallback. *)
Lemma nonzero_exit_synthesizer_output_is_kept :
  clean (Closed (Some 1%Z) (Some trapped_error_body)) = false
  /\ _runMLSynthesisPipeline (Closed (Some 1%Z) (Some trapped_error_body))
     = trapped_error_body
  /\ ~ (exists cause,
          _runMLSynthesisPipeline (Closed (Some 1%Z) (Some trapped_error_body))
          = _getFallbackResult cause).
Proof.
  repeat split. intros [cause H]. discriminate H.
Qed.

(** C5 (amended): a clean exit with a parseable body makes every stage
    resolve with that body; any other outcome makes the judge, the detector
    and the explainer resolve with a failure object, for which the pipeline
    injects the fixed fallback payload (and, for the explainer, leaves the
    result as it is); the synthesizer resolves with its fallback result on
    every other outcome except a non-zero exit with a parseable body, which
    it resolves with as it is. *)
Theorem worker_outcome_classification (o : outcome) (code : option Z)
  (body : value) :
  (exited_zero code = true ->
     _runEvidenceJudge (Closed code (Some body)) = body
     /\ _runContradictionDetector (Closed code (Some body)) = body
     /\ _runMLSynthesisPipeline (Closed code (Some body)) = body
     /\ _generateGrokExplanation (Closed code (Some body)) = body)
  /\ (clean o = false ->
      (exists e, _runEvidenceJudge o = failure e
         /\ inject (_runEvidenceJudge o) "evidence_judgment" fallback_judgment
            = Ok fallback_judgment)
      /\ (exists e, _runContradictionDetector o = failure e
         /\ inject (_runContradictionDetector o) "contradiction_analysis"
              fallback_contradiction = Ok fallback_contradiction)
      /\ _generateGrokExplanation o = no_success
      /\ (forall m, overlay m (_generateGrokExplanation o) = Ok m)
      /\ ((forall c b, o <> Closed c (Some b)) ->
          exists cause, _runMLSynthesisPipeline o = _getFallbackResult cause))
  /\ (exited_zero code = false ->
      _runMLSynthesisPipeline (Closed code (Some body)) = body).
Proof.
  split; [|split].
  - intros H. simpl. rewrite H. auto.
  - intros H. split; [|split; [|split; [|split]]].
    + destruct (judge_failure o H) as [e He]. exists e. now rewrite He.
    + destruct (detector_failure o H) as [e He]. exists e. now rewrite He.
    + now apply grok_failure.
    + intros m. now rewrite grok_failure.
    + now apply synth_fallback.
  - intros H. simpl. now rewrite H.
Qed.

Lemma worker_outcome_classification_witness :
  exited_zero (Some 0%Z) = true
  /\ clean TimedOut = false
  /\ _runEvidenceJudge (Closed (Some 0%Z) (Some trapped_error_body))
     = trapped_error_body
  /\ _generateGrokExplanation TimedOut = no_success.
Proof.
  pose proof (worker_outcome_classification TimedOut (Some 0%Z)
                trapped_error_body) as [H0 [H1 _]].
  split; [reflexivity|]. split; [reflexivity|].
  split.
  - exact (proj1 (H0 eq_refl)).
  - exact (proj1 (proj2 (proj2 (H1 eq_refl)))).
Defined.



(** ** Grouping *)

Section GroupingFacts.
Variables (K A : Type) (eqb : K -> K -> bool).
Hypothesis eqb_spec : forall x y, eqb x y = true <-> x = y.

Lemma eqb_same x : eqb x x = true.
Proof. now apply eqb_spec. Qed.

Lemma eqb_diff x y : x <> y -> eqb x y = false.
Proof.
  intros H. destruct (eqb x y) eqn:E; auto. apply eqb_spec in E. contradiction.
Qed.

Lemma lookup_push (k k' : K) (a : A) gs :
  Grouping.lookup eqb k (Grouping.push eqb k' a gs)
  = if eqb k' k
    then Some (match Grouping.lookup eqb k gs with
               | Some members => members ++ [a]
               | None => [a]
               end)
    else Grouping.lookup eqb k gs.
Proof.
  induction gs as [|[k0 m] gs IH]; simpl.
  - reflexivity.
  - destruct (eqb k0 k') eqn:E0; simpl.
    + apply eqb_spec in E0. subst k0.
      destruct (eqb k' k) eqn:E1; reflexivity.
    + destruct (eqb k0 k) eqn:E1.
      * apply eqb_spec in E1. subst k0.
        destruct (eqb k' k) eqn:E2; auto.
        apply eqb_spec in E2. subst k'. rewrite eqb_same in E0. discriminate.
      * exact IH.
Qed.

Lemma keys_push (k : K) (a : A) gs k0 :
  In k0 (map fst (Grouping.push eqb k a gs)) <-> k0 = k \/ In k0 (map fst gs).
Proof.
  induction gs as [|[k1 m] gs IH]; simpl.
  - intuition.
  - destruct (eqb k1 k) eqn:E; simpl.
    + apply eqb_spec in E. subst k1. intuition.
    + rewrite IH. intuition.
Qed.

Lemma nodup_push (k : K) (a : A) gs :
  NoDup (map fst gs) -> NoDup (map fst (Grouping.push eqb k a gs)).
Proof.
  induction gs as [|[k1 m] gs IH]; simpl; intros H.
  - constructor; [intros []|constructor].
  - inversion H as [|? ? Hnin Hnd]; subst.
    destruct (eqb k1 k) eqn:E; simpl.
    + constructor; auto.
    + constructor; auto.
      rewrite keys_push. intros [->|Hin]; auto.
      rewrite eqb_same in E. discriminate.
Qed.

Lemma lookup_in (k : K) (m : list A) gs :
  NoDup (map fst gs) -> In (k, m) gs -> Grouping.lookup eqb k gs = Some m.
Proof.
  induction gs as [|[k1 m1] gs IH]; simpl; intros Hnd Hin; [contradiction|].
  inversion Hnd as [|? ? Hnin Hnd']; subst.
  destruct Hin as [Heq|Hin].
  - inversion Heq; subst. now rewrite eqb_same.
  - destruct (eqb k1 k) eqn:E.
    + apply eqb_spec in E. subst k1. exfalso. apply Hnin.
      change k with (fst (k, m)). now apply in_map.
    + auto.
Qed.

End GroupingFacts.

Section SortingFacts.
Variables (A : Type) (key : A -> Z).

Lemma insert_desc_perm (x : A) l :
  Permutation (Grouping.insert_desc key x l) (x :: l).
Proof.
  induction l as [|h l IH]; simpl; auto.
  destruct (key h <=? key x)%Z; auto.
  rewrite IH. apply perm_swap.
Qed.

Lemma sort_desc_perm (l : list A) : Permutation (Grouping.sort_desc key l) l.
Proof.
  induction l as [|h l IH]; simpl; auto.
  rewrite insert_desc_perm. now constructor.
Qed.

End SortingFacts.

(** ** The resolver *)

Section ResolverFacts.
Import Resolver.
Context {M : Model}.

Lemma group_loop_lookup recent : forall acc bySession sid,
  group_loop recent acc = Ok bySession ->
  Grouping.lookup String.eqb sid bySession
  = match Grouping.lookup String.eqb sid acc with
    | Some members => Some (members ++ filter (in_session sid) recent)
    | None => match filter (in_session sid) recent with
              | [] => None
              | found => Some found
              end
    end.
Proof.
  induction recent as [|r recent IH]; simpl; intros acc bySession sid H.
  - inversion H; subst. destruct (Grouping.lookup _ sid bySession); auto.
    now rewrite app_nil_r.
  - destruct (inherited (sessionId r)); [discriminate|].
    rewrite (IH _ _ sid H). unfold push_group.
    rewrite (lookup_push String.eqb String.eqb_eq).
    change (in_session sid r) with (sessionId r =? sid).
    destruct (sessionId r =? sid) eqn:E.
    + destruct (Grouping.lookup _ sid acc); simpl.
      * now rewrite <- app_assoc.
      * reflexivity.
    + reflexivity.
Qed.

Lemma group_loop_nodup recent : forall acc bySession,
  group_loop recent acc = Ok bySession ->
  NoDup (map fst acc) -> NoDup (map fst bySession).
Proof.
  induction recent as [|r recent IH]; simpl; intros acc bySession H Hnd.
  - now inversion H; subst.
  - destruct (inherited (sessionId r)); [discriminate|].
    eapply IH; eauto. apply (nodup_push String.eqb String.eqb_eq); auto.
Qed.

Lemma groupBySession_members recent bySession sid members :
  groupBySession recent = Ok bySession ->
  In (sid, members) bySession ->
  members = filter (in_session sid) recent /\ members <> [].
Proof.
  unfold groupBySession. intros H Hin.
  assert (Hnd : NoDup (map fst bySession)).
  { eapply group_loop_nodup; eauto. constructor. }
  pose proof (lookup_in String.eqb String.eqb_eq _ _ _ Hnd Hin) as Hl.
  rewrite (group_loop_lookup _ _ sid H) in Hl. simpl in Hl.
  destruct (filter (in_session sid) recent) eqn:E; [discriminate|].
  inversion Hl; subst. split; [reflexivity|discriminate].
Qed.

Lemma in_insert_by_index g gs x :
  In x (insert_by_index g gs) <-> x = g \/ In x gs.
Proof.
  induction gs as [|h gs IH]; simpl.
  - intuition.
  - destruct (index_of g <=? index_of h)%N; simpl.
    + intuition.
    + rewrite IH. intuition.
Qed.

Lemma in_sort_by_index gs x : In x (sort_by_index gs) <-> In x gs.
Proof.
  induction gs as [|h gs IH]; simpl; [tauto|].
  rewrite in_insert_by_index, IH. intuition.
Qed.

Lemma in_for_in gs x : In x (for_in gs) <-> In x gs.
Proof.
  unfold for_in. rewrite in_app_iff, in_sort_by_index, !filter_In.
  destruct (index_key x); simpl; intuition discriminate.
Qed.

Lemma first_complete_split gs found :
  first_complete gs = Some found ->
  exists before sid members after,
    gs = before ++ (sid, members) :: after
    /\ Forall incomplete before
    /\ find is_support members = Some (support found)
    /\ find is_oppose members = Some (oppose found).
Proof.
  induction gs as [|[sid members] gs IH]; simpl; [discriminate|].
  destruct (find is_support members) as [s|] eqn:Es.
  - destruct (find is_oppose members) as [o|] eqn:Eo.
    + intros H. inversion H; subst. exists [], sid, members, gs. simpl. auto.
    + intros H. destruct (IH H) as (before & sid' & m' & after & -> & Hb & Hs & Ho).
      exists ((sid, members) :: before), sid', m', after.
      repeat split; auto. constructor; auto. right. exact Eo.
  - intros H. destruct (IH H) as (before & sid' & m' & after & -> & Hb & Hs & Ho).
    exists ((sid, members) :: before), sid', m', after.
    repeat split; auto. constructor; auto. left. exact Es.
Qed.

Lemma first_complete_none gs :
  first_complete gs = None -> Forall incomplete gs.
Proof.
  induction gs as [|[sid members] gs IH]; simpl; intros H; constructor.
  - unfold incomplete. simpl.
    destruct (find is_support members); [|now left].
    destruct (find is_oppose members); [discriminate|now right].
  - apply IH.
    destruct (find is_support members); auto.
    destruct (find is_oppose members); [discriminate|auto].
Qed.

Lemma find_some_type (f : doc -> bool) l x : find f l = Some x -> f x = true.
Proof. intros H. now apply find_some in H. Qed.

(** Each block of the resolver is its strategy with what it raises
    swallowed. *)
Lemma split_block token :
  succeeds split_form token
  = (if Str.includes "_" token && negb (Str.startsWith "pair_" token)
     then
       match Str.split "_" token with
       | [supportId; opposeId] =>
           match findById (IdStr supportId), findById (IdStr opposeId) with
           | Ok (Some s), Ok (Some o) => Some {| support := s; oppose := o |}
           | _, _ => None
           end
       | _ => None
       end
     else None).
Proof.
  unfold succeeds, split_form.
  destruct (Str.includes "_" token && negb (Str.startsWith "pair_" token));
    [|reflexivity].
  destruct (Str.split "_" token) as [|a [|b [|c rest]]]; try reflexivity.
  destruct (findById (IdStr a)) as [[s|]|]; simpl;
    destruct (findById (IdStr b)) as [[o|]|]; reflexivity.
Qed.

Lemma legacy_block token :
  succeeds legacy_form token
  = (if Str.startsWith "pair_" token then
       match findRecent 10 with
       | Ok recentResponses =>
           match groupBySession recentResponses with
           | Ok bySession => first_complete (for_in bySession)
           | Throw _ => None
           end
       | Throw _ => None
       end
     else None).
Proof.
  unfold succeeds, legacy_form.
  destruct (Str.startsWith "pair_" token); [|reflexivity].
  destruct (findRecent 10) as [recent|]; simpl; [|reflexivity].
  destruct (groupBySession recent) as [bySession|]; simpl; [|reflexivity].
  now destruct (first_complete (for_in bySession)).
Qed.

Lemma cross_reference_block token :
  succeeds cross_reference_form token
  = match findByPairId token with
    | Ok responses =>
        if (List.length responses =? 2)%nat then
          match find is_support responses, find is_oppose responses with
          | Some s, Some o => Some {| support := s; oppose := o |}
          | _, _ => None
          end
        else None
    | Throw _ => None
    end.
Proof.
  unfold succeeds, cross_reference_form.
  destruct (findByPairId token) as [responses|]; simpl; [|reflexivity].
  destruct (List.length responses =? 2)%nat; [|reflexivity].
  destruct (find is_support responses); [|reflexivity].
  now destruct (find is_oppose responses).
Qed.

Lemma single_id_block token :
  succeeds single_id_form token
  = match findById (IdStr token) with
    | Ok (Some mainResponse) =>
        match synthesisPairId mainResponse with
        | Some counterpartId =>
            match findById (IdObj counterpartId) with
            | Ok (Some counterpart) =>
                if agentType mainResponse =? "support"
                then Some {| support := mainResponse; oppose := counterpart |}
                else Some {| support := counterpart; oppose := mainResponse |}
            | _ => None
            end
        | None => None
        end
    | _ => None
    end.
Proof.
  unfold succeeds, single_id_form.
  destruct (findById (IdStr token)) as [[m|]|]; simpl; try reflexivity.
  destruct (synthesisPairId m) as [cid|]; [|reflexivity].
  destruct (findById (IdObj cid)) as [[c|]|]; simpl; try reflexivity.
  now destruct (agentType m =? "support").
Qed.

Lemma resolver_refines_chain token :
  _findPairedResponses token = resolve token.
Proof.
  unfold resolve, strategies, first_success.
  rewrite split_block, legacy_block, cross_reference_block, single_id_block.
  unfold _findPairedResponses.
  repeat match goal with
         | |- context [match ?x with Some _ => _ | None => _ end] =>
             destruct x eqn:?; try reflexivity
         end.
Qed.

Lemma legacy_types token found :
  succeeds legacy_form token = Some found ->
  agentType (support found) = "support" /\ agentType (oppose found) = "oppose".
Proof.
  rewrite legacy_block.
  destruct (Str.startsWith "pair_" token); [|discriminate].
  destruct (findRecent 10) as [recent|]; [|discriminate].
  destruct (groupBySession recent) as [bySession|]; [|discriminate].
  intros H. apply first_complete_split in H.
  destruct H as (_ & _ & members & _ & _ & _ & Hs & Ho).
  apply find_some_type in Hs, Ho. unfold is_support, is_oppose in *.
  now apply String.eqb_eq in Hs, Ho.
Qed.

Lemma cross_reference_types token found :
  succeeds cross_reference_form token = Some found ->
  agentType (support found) = "support" /\ agentType (oppose found) = "oppose".
Proof.
  rewrite cross_reference_block.
  destruct (findByPairId token) as [responses|]; [|discriminate].
  destruct (List.length responses =? 2)%nat; [|discriminate].
  destruct (find is_support responses) as [s|] eqn:Hs; [|discriminate].
  destruct (find is_oppose responses) as [o|] eqn:Ho; [|discriminate].
  intros H. inversion H; subst. simpl.
  apply find_some_type in Hs, Ho. unfold is_support, is_oppose in *.
  now apply String.eqb_eq in Hs, Ho.
Qed.

End ResolverFacts.

Section ResolverTheorems.
Import Resolver.
Context {M : Model}.

Lemma first_success_none ss token :
  first_success ss token = None <->
  forall s, In s ss -> succeeds s token = None.
Proof.
  induction ss as [|s ss IH]; simpl.
  - split; [intros _ s []|reflexivity].
  - destruct (succeeds s token) eqn:E.
    + split; [discriminate|]. intros H. rewrite <- E. apply H. now left.
    + rewrite IH. split.
      * intros H s' [<-|Hin]; auto.
      * intros H s' Hin. apply H. now right.
Qed.

Lemma first_success_priority before s after token found :
  (forall s', In s' before -> succeeds s' token = None) ->
  succeeds s token = Some found ->
  first_success (before ++ s :: after) token = Some found.
Proof.
  induction before as [|b before IH]; simpl; intros Hb Hs.
  - now rewrite Hs.
  - rewrite (Hb b) by now left. apply IH; auto.
Qed.

Lemma group_loop_total recent : forall acc,
  (forall r, In r recent -> inherited (sessionId r) = false) ->
  exists bySession, group_loop recent acc = Ok bySession.
Proof.
  induction recent as [|r recent IH]; simpl; intros acc H.
  - eauto.
  - rewrite (H r) by now left. apply IH. intros r' Hin. apply H. now right.
Qed.

Lemma group_loop_inherited recent : forall acc,
  (exists r, In r recent /\ inherited (sessionId r) = true) ->
  group_loop recent acc = Throw TypeError.
Proof.
  induction recent as [|r recent IH]; simpl; intros acc [x [Hin Hx]].
  - destruct Hin.
  - destruct (inherited (sessionId r)) eqn:E; [reflexivity|].
    apply IH. exists x. destruct Hin as [<-|Hin]; [congruence|auto].
Qed.

Lemma lookup_some_in (sid : string) members (gs : groups) :
  Grouping.lookup String.eqb sid gs = Some members -> In (sid, members) gs.
Proof.
  induction gs as [|[k m] gs IH]; simpl; [discriminate|].
  destruct (k =? sid) eqn:E.
  - apply String.eqb_eq in E. subst k. intros H. inversion H; subst. now left.
  - intros H. right. auto.
Qed.

End ResolverTheorems.

(** C4, as stated, fails: the split form hands back the two records in the
    order of the two ids in the token, whatever their agent types are. *)
Lemma split_form_keeps_token_order :
  exists found,
    @Resolver._findPairedResponses (Store.model (responses paired_world))
      reversed_token = Ok found
    /\ agentType (Resolver.support found) = "oppose"
    /\ agentType (Resolver.oppose found) = "support".
Proof.
  eexists. vm_compute. repeat split.
Qed.

(** C4 (amended): the resolver is the priority chain of its four strategies
    (split, legacy, cross-reference, single id) with whatever a strategy
    raises swallowed: the first strategy that yields a pair decides, the
    pair-not-found error is raised exactly when none of the four yields a
    pair, and a pair from the legacy or the cross-reference form holds one
    support and one oppose response. *)
Theorem resolver_priority_chain {M : Model} (token : string) :
  Resolver._findPairedResponses token = Resolver.resolve token
  /\ (forall before s after found,
        Resolver.strategies = before ++ s :: after ->
        (forall s', In s' before -> Resolver.succeeds s' token = None) ->
        Resolver.succeeds s token = Some found ->
        Resolver._findPairedResponses token = Ok found)
  /\ (forall e, Resolver._findPairedResponses token = Throw e ->
        e = Resolver.not_found token
        /\ forall s, In s Resolver.strategies ->
             Resolver.succeeds s token = None)
  /\ ((forall s, In s Resolver.strategies -> Resolver.succeeds s token = None)
      -> Resolver._findPairedResponses token
         = Throw (Resolver.not_found token))
  /\ (forall found,
        Resolver.succeeds Resolver.legacy_form token = Some found
        \/ Resolver.succeeds Resolver.cross_reference_form token = Some found ->
        agentType (Resolver.support found) = "support"
        /\ agentType (Resolver.oppose found) = "oppose").
Proof.
  split; [apply resolver_refines_chain|].
  split; [|split; [|split]].
  - intros before s after found Heq Hb Hs.
    rewrite resolver_refines_chain. unfold Resolver.resolve.
    rewrite Heq. now rewrite (first_success_priority _ _ _ _ Hb Hs).
  - intros e. rewrite resolver_refines_chain. unfold Resolver.resolve.
    destruct (Resolver.first_success Resolver.strategies token) eqn:E;
      [discriminate|].
    intros H. inversion H; subst. split; auto.
    now apply first_success_none.
  - intros H. rewrite resolver_refines_chain. unfold Resolver.resolve.
    apply first_success_none in H. now rewrite H.
  - intros found [H|H].
    + eapply legacy_types; eauto.
    + eapply cross_reference_types; eauto.
Qed.

Lemma resolver_priority_chain_witness :
  exists found,
    @Resolver._findPairedResponses (Store.model (responses paired_world))
      oppose_id = Ok found
    /\ agentType (Resolver.support found) = "support".
Proof.
  pose proof (@resolver_priority_chain (Store.model (responses paired_world))
                oppose_id) as [_ [Hprio _]].
  eexists. split.
  - apply (Hprio [@Resolver.split_form (Store.model (responses paired_world));
                  @Resolver.legacy_form (Store.model (responses paired_world));
                  @Resolver.cross_reference_form
                    (Store.model (responses paired_world))]
                 (@Resolver.single_id_form
                    (Store.model (responses paired_world))) []).
    + reflexivity.
    + intros s' [<-|[<-|[<-|[]]]]; vm_compute; reflexivity.
    + vm_compute. reflexivity.
  - reflexivity.
Defined.

(** C7, as stated, fails: a session holding two support responses and one
    oppose response does satisfy the legacy form, which pairs the most
    recent support with the oppose. *)
Lemma legacy_form_accepts_crowded_session :
  List.length (filter is_support crowded_session) = 2%nat
  /\ @Resolver._findPairedResponses (Store.model crowded_session)
       "pair_1700000000000_x7k2"
     = Ok {| Resolver.support := response 2 "s1" "support" 102;
             Resolver.oppose := response 1 "s1" "oppose" 101 |}.
Proof.
  split; vm_compute; reflexivity.
Qed.

(** C7 (amended): for a token with the legacy prefix the resolver scans the
    ten most recently created responses.  When the scan is rejected, or when
    one of the scanned responses has a session id that every object inherits
    as a property name (grouping then raises a type error), the legacy form
    yields nothing.  Otherwise those responses are grouped by session (each
    group being the scanned responses of that session, most recent first),
    the groups are visited in the enumeration order of the session keys, and
    the resolver returns, from the first group that holds at least one
    response of each agent type, its first support and its first oppose
    response; when no group holds both types the legacy form yields
    nothing. *)
Theorem legacy_form_first_complete_session {M : Model} (token : string) :
  Str.startsWith "pair_" token = true ->
  (forall e, findRecent 10 = Throw e ->
     Resolver.succeeds Resolver.legacy_form token = None)
  /\ (forall recent, findRecent 10 = Ok recent ->
        (exists r, In r recent /\ Resolver.inherited (sessionId r) = true) ->
        Resolver.groupBySession recent = Throw TypeError
        /\ Resolver.succeeds Resolver.legacy_form token = None)
  /\ (forall recent, findRecent 10 = Ok recent ->
        (forall r, In r recent -> Resolver.inherited (sessionId r) = false) ->
        exists bySession,
          Resolver.groupBySession recent = Ok bySession
          /\ (forall sid members,
                In (sid, members) (Resolver.for_in bySession) <->
                members = filter (Resolver.in_session sid) recent
                /\ members <> [])
          /\ (forall found,
                Resolver.first_complete (Resolver.for_in bySession)
                = Some found ->
                Resolver._findPairedResponses token = Ok found
                /\ exists before sid after,
                     Resolver.for_in bySession
                     = before
                       ++ (sid, filter (Resolver.in_session sid) recent)
                       :: after
                     /\ Forall Resolver.incomplete before
                     /\ find is_support
                          (filter (Resolver.in_session sid) recent)
                        = Some (Resolver.support found)
                     /\ find is_oppose
                          (filter (Resolver.in_session sid) recent)
                        = Some (Resolver.oppose found))
          /\ (Resolver.first_complete (Resolver.for_in bySession) = None ->
              Forall Resolver.incomplete (Resolver.for_in bySession)
              /\ Resolver.succeeds Resolver.legacy_form token = None)).
Proof.
  intros Hprefix. split; [|split].
  - intros e He. rewrite legacy_block, Hprefix, He. reflexivity.
  - intros recent Hrecent Hin.
    pose proof (group_loop_inherited recent [] Hin) as Hthrow.
    fold (Resolver.groupBySession recent) in Hthrow.
    split; [exact Hthrow|].
    rewrite legacy_block, Hprefix, Hrecent. now rewrite Hthrow.
  - intros recent Hrecent Hown.
    destruct (group_loop_total recent [] Hown) as [bySession Hgroup].
    exists bySession. split; [exact Hgroup|]. split; [|split].
    + intros sid members. rewrite in_for_in. split.
      * now apply groupBySession_members.
      * intros [-> Hne]. apply lookup_some_in.
        rewrite (group_loop_lookup _ _ sid Hgroup). simpl.
        destruct (filter (Resolver.in_session sid) recent); congruence.
    + intros found Hfound. split.
      * unfold Resolver._findPairedResponses.
        rewrite Hprefix. simpl negb. rewrite andb_false_r.
        rewrite Hrecent. fold (Resolver.groupBySession recent) in Hgroup.
        rewrite Hgroup, Hfound. reflexivity.
      * destruct (first_complete_split _ Hfound)
          as (before & sid & members & after & Heq & Hb & Hs & Ho).
        assert (Hin : In (sid, members) bySession).
        { apply in_for_in. rewrite Heq. apply in_or_app. right. now left. }
        destruct (@groupBySession_members recent bySession sid members
                    Hgroup Hin) as [-> _].
        exists before, sid, after. auto.
    + intros Hnone. split; [now apply first_complete_none|].
      rewrite legacy_block, Hprefix, Hrecent.
      fold (Resolver.groupBySession recent) in Hgroup.
      now rewrite Hgroup.
Qed.

Lemma legacy_form_first_complete_session_witness :
  @Resolver._findPairedResponses (Store.model crowded_session)
    "pair_1700000000000_x7k2"
  = Ok {| Resolver.support := response 2 "s1" "support" 102;
          Resolver.oppose := response 1 "s1" "oppose" 101 |}
  /\ Resolver.succeeds
       (@Resolver.legacy_form (Store.model inherited_session))
       "pair_1700000000000_x7k2" = None.
Proof.
  split.
  - destruct (proj2 (proj2
               (@legacy_form_first_complete_session
                  (Store.model crowded_session) "pair_1700000000000_x7k2"
                  eq_refl))
               [response 2 "s1" "support" 102; response 1 "s1" "oppose" 101;
                response 0 "s1" "support" 100])
      as [bySession [Hgroup [_ [Hfound _]]]].
    + reflexivity.
    + intros r [<-|[<-|[<-|[]]]]; reflexivity.
    + injection Hgroup as <-.
      exact (proj1 (Hfound _ eq_refl)).
  - refine (proj2 (proj1 (proj2
              (@legacy_form_first_complete_session
                 (Store.model inherited_session) "pair_1700000000000_x7k2"
                 eq_refl))
              inherited_session eq_refl _)).
    exists (response 1 "constructor" "oppose" 101).
    split; [left; reflexivity|reflexivity].
Defined.

(** ** Pairs awaiting synthesis *)

Section PendingPairs.
Import Controller.

Lemma lookup_found (k : oid) members (gs : list (oid * list doc)) :
  Grouping.lookup N.eqb k gs = Some members -> In (k, members) gs.
Proof.
  induction gs as [|[k0 m] gs IH]; simpl; [discriminate|].
  destruct (k0 =? k)%N eqn:E.
  - apply N.eqb_eq in E. subst k0. intros H. inversion H; subst. now left.
  - intros H. right. auto.
Qed.

Lemma group_stage_lookup docs : forall acc k,
  Grouping.lookup N.eqb k (group_stage docs acc)
  = match Grouping.lookup N.eqb k acc with
    | Some members => Some (members ++ filter (Store.pair_key_is k) docs)
    | None => match filter (Store.pair_key_is k) docs with
              | [] => None
              | found => Some found
              end
    end.
Proof.
  induction docs as [|d docs IH]; simpl; intros acc k.
  - destruct (Grouping.lookup N.eqb k acc); auto. now rewrite app_nil_r.
  - destruct (synthesisPairId d) as [k'|] eqn:Ek.
    + assert (Hk : Store.pair_key_is k d = (k' =? k)%N)
        by (unfold Store.pair_key_is; now rewrite Ek).
      rewrite Hk, IH, (lookup_push N.eqb N.eqb_eq).
      destruct (k' =? k)%N.
      * destruct (Grouping.lookup N.eqb k acc); simpl; auto.
        now rewrite <- app_assoc.
      * reflexivity.
    + assert (Hk : Store.pair_key_is k d = false)
        by (unfold Store.pair_key_is; now rewrite Ek).
      rewrite Hk. apply IH.
Qed.

Lemma group_stage_nodup docs : forall acc,
  NoDup (map fst acc) -> NoDup (map fst (group_stage docs acc)).
Proof.
  induction docs as [|d docs IH]; simpl; intros acc H; auto.
  destruct (synthesisPairId d); auto.
  apply IH. now apply (nodup_push N.eqb N.eqb_eq).
Qed.

Lemma filter_filter (A : Type) (f g : A -> bool) l :
  filter f (filter g l) = filter (fun x => g x && f x) l.
Proof.
  induction l as [|x l IH]; simpl; auto.
  destruct (g x); simpl; [destruct (f x)|]; now rewrite IH.
Qed.

Lemma group_stage_members coll k members :
  In (k, members) (group_stage (filter awaiting coll) []) <->
  members = pending_group k coll /\ members <> [].
Proof.
  pose proof (group_stage_lookup (filter awaiting coll) [] k) as Hl.
  simpl in Hl. rewrite filter_filter in Hl. fold (pending_group k coll) in Hl.
  split.
  - intros Hin.
    assert (Hnd : NoDup (map fst (group_stage (filter awaiting coll) []))).
    { apply group_stage_nodup. constructor. }
    rewrite (lookup_in N.eqb N.eqb_eq _ _ _ Hnd Hin) in Hl.
    destruct (pending_group k coll); [discriminate|].
    inversion Hl; subst. split; [reflexivity|discriminate].
  - intros [-> Hne]. apply lookup_found. rewrite Hl.
    destruct (pending_group k coll); congruence.
Qed.

Lemma pending_group_members k coll d :
  In d (pending_group k coll) ->
  synthesisStatus d = "pending" /\ synthesisPairId d = Some k.
Proof.
  unfold pending_group. rewrite filter_In. intros [_ H].
  apply andb_true_iff in H. destruct H as [Ha Hk].
  unfold awaiting, Store.pair_key_is in *.
  destruct (synthesisPairId d) as [k'|]; [|discriminate].
  apply String.eqb_eq in Ha. apply N.eqb_eq in Hk. now subst.
Qed.

Lemma in_unlimited coll e :
  In e (Grouping.sort_desc p_createdAt
          (map project
             (filter size_two (group_stage (filter awaiting coll) [])))) <->
  exists members,
    members = pending_group (pairId e) coll
    /\ List.length members = 2%nat
    /\ e = project (pairId e, members).
Proof.
  split.
  - intros H.
    apply (Permutation_in _ (sort_desc_perm p_createdAt _)) in H.
    apply in_map_iff in H. destruct H as [[k members] [<- Hin]].
    apply filter_In in Hin. destruct Hin as [Hin Hsz].
    apply group_stage_members in Hin. destruct Hin as [-> _].
    exists (pending_group k coll). simpl.
    unfold size_two in Hsz. simpl in Hsz. apply Nat.eqb_eq in Hsz. auto.
  - intros [members [-> [Hlen He]]].
    apply (Permutation_in _ (Permutation_sym (sort_desc_perm p_createdAt _))).
    rewrite He. apply in_map. apply filter_In. split.
    + apply group_stage_members. split; auto.
      destruct (pending_group (pairId e) coll); [discriminate|discriminate].
    + unfold size_two. simpl. now apply Nat.eqb_eq.
Qed.

Lemma firstn_in (A : Type) n (l : list A) x : In x (firstn n l) -> In x l.
Proof.
  intros H. rewrite <- (firstn_skipn n l). apply in_or_app. now left.
Qed.

Lemma firstn_short (A : Type) n (l : list A) :
  (List.length (firstn n l) < n)%nat -> firstn n l = l.
Proof.
  intros H. apply firstn_all2. rewrite length_firstn in H. lia.
Qed.

End PendingPairs.

(** C8, as stated, fails: the groups are formed among the pending responses
    only, so a pairing key that three responses share is listed when two of
    them are pending and the third one is synthesized. *)
Lemma shared_key_with_two_pending_is_listed :
  List.length (filter (Store.pair_key_is 7%N) (responses shared_key_world))
  = 3%nat
  /\ List.length (Controller.pending_group 7%N (responses shared_key_world))
     = 2%nat
  /\ Controller.findPairsForSynthesis (Some 10%Z) shared_key_world
     = Controller.Json [ready_entry].
Proof.
  split; [reflexivity|]. split; reflexivity.
Qed.

(** C8 (amended): every entry [findPairsForSynthesis] lists stands for a
    pairing key carried by exactly two pending responses, whatever other
    responses carry that key; a key whose pending responses number one, or
    three or more, is never listed; and when the list came out shorter than
    the limit, every key with exactly two pending responses is on it. *)
Theorem findPairsForSynthesis_exact_pairs (parsedLimit : option Z) (w : World)
  (pairs : list Controller.PairEntry) :
  Controller.findPairsForSynthesis parsedLimit w = Controller.Json pairs ->
  (forall e, In e pairs ->
     List.length (Controller.pending_group (Controller.pairId e) (responses w))
     = 2%nat
     /\ forall d,
          In d (Controller.pending_group (Controller.pairId e) (responses w)) ->
          synthesisStatus d = "pending"
          /\ synthesisPairId d = Some (Controller.pairId e))
  /\ (forall k,
        List.length (Controller.pending_group k (responses w)) <> 2%nat ->
        ~ In k (map Controller.pairId pairs))
  /\ ((Z.of_nat (List.length pairs) < Controller.limit_of parsedLimit)%Z ->
      forall k,
        List.length (Controller.pending_group k (responses w)) = 2%nat ->
        In k (map Controller.pairId pairs)).
Proof.
  unfold Controller.findPairsForSynthesis.
  destruct (Controller.limit_of parsedLimit <=? 0)%Z eqn:Hlim; [discriminate|].
  intros H. injection H as Hpairs. subst pairs.
  set (limit := Z.to_nat (Controller.limit_of parsedLimit)) in *.
  assert (Hsound : forall e, In e (Controller.aggregate limit (responses w)) ->
            List.length (Controller.pending_group (Controller.pairId e)
                           (responses w)) = 2%nat).
  { intros e Hin. unfold Controller.aggregate in Hin.
    apply firstn_in in Hin. apply in_unlimited in Hin.
    destruct Hin as [members [-> [Hlen _]]]. exact Hlen. }
  split; [|split].
  - intros e Hin. split; [now apply Hsound|].
    intros d. apply pending_group_members.
  - intros k Hne Hin. apply in_map_iff in Hin.
    destruct Hin as [e [<- Hin]]. apply Hne. now apply Hsound.
  - intros Hshort k Hk. unfold Controller.aggregate in *.
    rewrite firstn_short by (subst limit; lia).
    apply in_map_iff.
    exists (Controller.project
              (k, Controller.pending_group k (responses w))).
    split; [reflexivity|].
    apply in_unlimited. simpl. eauto.
Qed.

Lemma findPairsForSynthesis_exact_pairs_witness :
  Controller.findPairsForSynthesis (Some 10%Z) pending_world
  = Controller.Json [ready_entry]
  /\ ~ In 9%N (map Controller.pairId [ready_entry]).
Proof.
  split; [reflexivity|].
  refine (proj1 (proj2 (@findPairsForSynthesis_exact_pairs (Some 10%Z)
                          pending_world [ready_entry] _)) 9%N _).
  - reflexivity.
  - simpl. discriminate.
Defined.

(** ** Creating a pair *)

Section PairCreation.

Lemma by_id_map (f : doc -> doc) id coll :
  (forall x, _id (f x) = _id x) ->
  Store.by_id id (map f coll) = option_map f (Store.by_id id coll).
Proof.
  intros Hf. unfold Store.by_id.
  induction coll as [|x coll IH]; simpl; auto.
  rewrite Hf. destruct (_id x =? id)%N; auto.
Qed.

Lemma by_id_app_fresh id coll tail :
  (forall d, In d coll -> _id d <> id) ->
  Store.by_id id (coll ++ tail) = Store.by_id id tail.
Proof.
  unfold Store.by_id. induction coll as [|x coll IH]; simpl; intros H; auto.
  destruct (_id x =? id)%N eqn:E.
  - apply N.eqb_eq in E. exfalso. apply (H x); auto.
  - apply IH. intros d Hd. apply H. now right.
Qed.

Lemma link_keeps_id d x :
  _id (if (_id x =? _id d)%N
       then match synthesisPairId d with
            | Some k => Store.with_pair k x
            | None => x
            end
       else x) = _id x.
Proof.
  destruct (_id x =? _id d)%N; auto. now destruct (synthesisPairId d).
Qed.

End PairCreation.

(** C10: the two responses [saveBothGeminiResponses] creates are a support
    and an oppose response that point at each other: each one's
    [synthesisPairId] is the other one's id, the two ids differ, and so no
    pairing-key value is carried by both; the collection holds them in that
    state when the ids it already held are older than the next id. *)
Theorem saveBoth_links_crosswise (sid eid supportReasoning opposeReasoning
  subj : string) (now1 now2 : Z) (w w' : World) (s o : doc) :
  ResponseService.saveBothGeminiResponses sid eid supportReasoning
    opposeReasoning subj now1 now2 w = (Ok (s, o), w') ->
  agentType s = "support" /\ agentType o = "oppose"
  /\ synthesisPairId s = Some (_id o)
  /\ synthesisPairId o = Some (_id s)
  /\ _id s <> _id o
  /\ synthesisPairId s <> synthesisPairId o
  /\ (forall k, ~ (synthesisPairId s = Some k /\ synthesisPairId o = Some k))
  /\ ((forall d, In d (responses w) -> (_id d < next_oid w)%N) ->
      Store.by_id (_id s) (responses w') = Some s
      /\ Store.by_id (_id o) (responses w') = Some o).
Proof.
  unfold ResponseService.saveBothGeminiResponses, Service.bind,
    ResponseService.saveGeminiResponse, ResponseService.save_link,
    Service.ret.
  destruct (SynthesisResult.required sid && SynthesisResult.required eid
            && SynthesisResult.in_enum "support" ResponseService.agent_enum
            && SynthesisResult.required supportReasoning
            && SynthesisResult.required subj); [|discriminate].
  cbn [responses results next_oid spawned].
  destruct (SynthesisResult.required sid && SynthesisResult.required eid
            && SynthesisResult.in_enum "oppose" ResponseService.agent_enum
            && SynthesisResult.required opposeReasoning
            && SynthesisResult.required subj); [|discriminate].
  cbn [responses results next_oid spawned].
  intros H. inversion H; subst; clear H. cbn.
  assert (Hne : next_oid w <> N.succ (next_oid w)) by lia.
  assert (E1 : (next_oid w =? N.succ (next_oid w))%N = false)
    by (apply N.eqb_neq; lia).
  assert (E2 : (N.succ (next_oid w) =? next_oid w)%N = false)
    by (apply N.eqb_neq; lia).
  repeat split; auto.
  - intros Heq. inversion Heq. lia.
  - intros k [H1 H2]. inversion H1. inversion H2. lia.
  - match goal with
    | |- find (fun d => (_id d =? ?i)%N) ?l = ?r =>
        change (Store.by_id i l = r)
    end.
    unfold Store.save_pair_link.
    rewrite !by_id_map by (intros x; apply link_keeps_id).
    rewrite <- app_assoc, by_id_app_fresh.
    + repeat (cbn; rewrite ?N.eqb_refl, ?E1, ?E2). reflexivity.
    + intros d Hd Heq. apply H in Hd. lia.
  - match goal with
    | |- find (fun d => (_id d =? ?i)%N) ?l = ?r =>
        change (Store.by_id i l = r)
    end.
    unfold Store.save_pair_link.
    rewrite !by_id_map by (intros x; apply link_keeps_id).
    rewrite <- app_assoc, by_id_app_fresh.
    + repeat (cbn; rewrite ?N.eqb_refl, ?E1, ?E2). reflexivity.
    + intros d Hd Heq. apply H in Hd. lia.
Qed.

Lemma saveBoth_links_crosswise_witness :
  ResponseService.saveBothGeminiResponses "s1" "e1"
    "The evidence supports the claim. [Chunk 1]"
    "The evidence does not support the claim. [Chunk 2]"
    "Remote work" 100%Z 101%Z empty_world
  = (Ok (support_doc, oppose_doc), paired_world)
  /\ synthesisPairId support_doc = Some (_id oppose_doc)
  /\ synthesisPairId oppose_doc = Some (_id support_doc)
  /\ Store.by_id (_id support_doc) (responses paired_world) = Some support_doc.
Proof.
  split; [reflexivity|].
  destruct (@saveBoth_links_crosswise "s1" "e1"
              "The evidence supports the claim. [Chunk 1]"
              "The evidence does not support the claim. [Chunk 2]"
              "Remote work" 100%Z 101%Z empty_world paired_world
              support_doc oppose_doc eq_refl)
    as (_ & _ & Hs & Ho & _ & _ & _ & Hstore).
  split; [exact Hs|]. split; [exact Ho|].
  apply Hstore. intros d [].
Defined.

(** ** The pipeline and the store *)

Section PipelineFacts.
Import Service.
Context {D : SynthesisResult.Driver}.


Lemma in_enum_In s enum : SynthesisResult.in_enum s enum = true -> In s enum.
Proof.
  unfold SynthesisResult.in_enum. rewrite existsb_exists.
  intros [x [Hin Heq]]. apply String.eqb_eq in Heq. now subst.
Qed.

Lemma validate_ok i id now d :
  SynthesisResult.validate i id now = Ok d ->
  System.well_formed d
  /\ SynthesisResult.synthesisPairId d = SynthesisResult.i_synthesisPairId i
  /\ SynthesisResult.status d
     = match SynthesisResult.i_status i with
       | Some st => st
       | None => "processing"
       end.
Proof.
  unfold SynthesisResult.validate.
  destruct (SynthesisResult.castString (SynthesisResult.i_verdict i)) as [v|];
    [|discriminate].
  destruct (SynthesisResult.castNumber (SynthesisResult.i_confidence i)) as [c|];
    [|discriminate].
  destruct (SynthesisResult.castString (SynthesisResult.i_reasoning i)) as [r|];
    [|discriminate].
  destruct (SynthesisResult.castMlScores (SynthesisResult.i_mlScores i));
    [|discriminate].
  destruct (SynthesisResult.castKeyEvidence (SynthesisResult.i_keyEvidence i));
    [|discriminate].
  destruct (SynthesisResult.castNumber (SynthesisResult.i_evidenceJudge i));
    [|discriminate].
  destruct (SynthesisResult.castNumber
              (SynthesisResult.i_contradictionDetector i)); [|discriminate].
  destruct (SynthesisResult.castNumber (SynthesisResult.i_confidenceScorer i));
    [|discriminate].
  match goal with
  | |- (if ?c then _ else _) = _ -> _ => destruct c eqn:Hc; [|discriminate]
  end.
  intros H. inversion H; subst; clear H.
  repeat (apply andb_true_iff in Hc; destruct Hc as [Hc ?]).
  unfold System.well_formed, SynthesisResult.in_range in *. simpl.
  match goal with
  | Hr : (Qle_bool 0 c && Qle_bool c 1)%bool = true |- _ =>
      apply andb_true_iff in Hr; destruct Hr as [Hlo Hhi]
  end.
  apply Qle_bool_iff in Hlo, Hhi.
  split; [|split; reflexivity].
  split; [exact Hlo|]. split; [exact Hhi|].
  match goal with
  | Hv : SynthesisResult.in_enum v _ = true |- _ => exact (in_enum_In _ _ Hv)
  end.
Qed.

Lemma result_content_ok pid sid eid a b m c :
  result_content pid sid eid a b m = Ok c ->
  SynthesisResult.i_status c = Some "completed"
  /\ SynthesisResult.i_synthesisPairId c = pid.
Proof.
  unfold result_content.
  destruct (getp m "final_verdict"); simpl; [|discriminate].
  destruct (getp m "confidence"); simpl; [|discriminate].
  destruct (getp m "reasoning"); simpl; [|discriminate].
  destruct (getp m "scores"); simpl; [|discriminate].
  destruct (getp m "key_evidence"); simpl; [|discriminate].
  intros H. inversion H; subst. auto.
Qed.

(** What one call of [save] does to the world. *)
Lemma save_cases i now w r w' :
  save i now w = (r, w') ->
  (w' = w /\ exists e, r = Throw e)
  \/ (exists d, r = Ok d
        /\ SynthesisResult.validate i (next_oid w) now = Ok d
        /\ SynthesisResult.findOne (SynthesisResult.synthesisPairId d)
             (results w) = None
        /\ responses w' = responses w
        /\ spawned w' = spawned w
        /\ results w' = results w ++ [SynthesisResult.stored d]).
Proof.
  unfold save.
  destruct (SynthesisResult.validate i (next_oid w) now) as [d|e] eqn:Hv.
  - destruct (existsb _ (results w)) eqn:Hdup; intros H; inversion H; subst.
    + left. eauto.
    + right. exists d.
      split; [reflexivity|]. split; [reflexivity|].
      split; [|repeat split; reflexivity].
      unfold SynthesisResult.findOne.
      destruct (find _ (results w)) as [x|] eqn:Hf; auto.
      apply find_some in Hf.
      assert (existsb (fun d' => SynthesisResult.synthesisPairId d'
                                 =? SynthesisResult.synthesisPairId d)
                (results w) = true)
        by (apply existsb_exists; eauto).
      congruence.
  - intros H. inversion H; subst. left. eauto.
Qed.

(** The run ended by throwing before anything was stored. *)
Ltac thrown :=
  let H := fresh "H" in intros H; inversion H; subst; left; eauto.

(** What the store keeps of a result, the two sub-documents apart. *)
Lemma stored_well_formed d :
  System.well_formed (SynthesisResult.stored d) <-> System.well_formed d.
Proof. reflexivity. Qed.

(** What one run of [synthesizePair] does to the stored results: nothing
    when it throws before the save; else it appends what the store keeps of
    one valid, completed result, and then throws only if the status update
    is rejected. *)
Lemma synthesizePair_results wk now token w r w' :
  synthesizePair wk now token w = (r, w') ->
  (results w' = results w /\ exists e, r = Throw e)
  \/ (exists d,
        results w' = results w ++ [SynthesisResult.stored d]
        /\ System.well_formed d
        /\ SynthesisResult.synthesisPairId d = token
        /\ SynthesisResult.status d = "completed"
        /\ ((r = Ok (SynthesisResult.formatForFrontend d)
             /\ status_update wk = None)
            \/ exists e reached,
                 r = Throw e /\ status_update wk = Some (e, reached))).
Proof.
  unfold synthesizePair.
  cbv beta iota delta [bind lift spawn resolve_pair ret
                         _saveSynthesisResult].
  destruct (Resolver._findPairedResponses token) as [found|e];
    [|thrown].
  cbn [responses results next_oid spawned].
  destruct (inject _ "evidence_judgment" _) as [ej|e];
    [|thrown].
  destruct (inject _ "contradiction_analysis" _) as [ca|e];
    [|thrown].
  destruct (getp _ "success") as [ok|e];
    [|thrown].
  destruct (overlay _ _) as [m'|e];
    [|thrown].
  destruct (result_content _ _ _ _ _ _) as [content|e] eqn:Hc;
    [|thrown].
  match goal with
  | |- context [save content now ?w0] =>
      destruct (save content now w0) as [saved w1] eqn:Hsave
  end.
  apply save_cases in Hsave. cbn [responses results next_oid spawned] in Hsave.
  destruct Hsave as [[-> [e ->]]|(d & -> & Hv & _ & _ & _ & Hres)].
  - intros H. inversion H; subst. left. eauto.
  - apply validate_ok in Hv. destruct Hv as (Hwf & Hid & Hst).
    apply result_content_ok in Hc. destruct Hc as [Hs Hp].
    rewrite Hs in Hst. rewrite Hp in Hid.
    unfold mark_synthesized.
    destruct (status_update wk) as [[e reached]|];
      intros H; inversion H; subst; right; exists d;
      cbn [results]; eauto 12.
Qed.

Lemma runSynthesis_results wk now token w reply w' :
  Controller.runSynthesis wk now token w = (reply, w') ->
  (results w' = results w
   /\ ((exists e, reply = Controller.Status500 e)
       \/ (exists msg, reply = Controller.Status400 msg)
       \/ (w' = w /\ exists d,
             SynthesisResult.findOne token (results w) = Some d
             /\ reply = Controller.Json
                  {| Controller.message := "Synthesis already exists";
                     Controller.result := SynthesisResult.formatForFrontend d;
                     Controller.cached := true |})))
  \/ (exists d,
        SynthesisResult.findOne token (results w) = None
        /\ results w' = results w ++ [SynthesisResult.stored d]
        /\ System.well_formed d
        /\ SynthesisResult.synthesisPairId d = token
        /\ SynthesisResult.status d = "completed"
        /\ ((reply = Controller.Json
               {| Controller.message := "Synthesis completed successfully";
                  Controller.result := SynthesisResult.formatForFrontend d;
                  Controller.cached := false |}
             /\ status_update wk = None)
            \/ exists e reached,
                 reply = Controller.Status500 e
                 /\ status_update wk = Some (e, reached))).
Proof.
  unfold Controller.runSynthesis.
  destruct (token =? "").
  { intros H. inversion H; subst. left. split; eauto. }
  destruct (SynthesisResult.findOne token (results w)) as [d|] eqn:Hf.
  { intros H. inversion H; subst. left. split; auto.
    right. right. eauto. }
  destruct (synthesizePair wk now token w) as [r w1] eqn:Hs.
  apply synthesizePair_results in Hs.
  destruct Hs as [[Hres [e ->]]
                 |(d & Hres & Hwf & Hid & Hst
                   & [[-> Hup]|(e & reached & -> & Hup)])].
  - intros H. inversion H; subst. left. split; eauto.
  - intros H. inversion H; subst. right. exists d. auto 10.
  - intros H. inversion H; subst. right. exists d.
    repeat (split; [assumption || reflexivity|]). right. eauto.
Qed.

Lemma saveGeminiResponse_results sid eid type reasoning subj now w :
  results (snd (ResponseService.saveGeminiResponse sid eid type reasoning subj
                  now w)) = results w.
Proof.
  unfold ResponseService.saveGeminiResponse.
  now destruct (_ && _).
Qed.

Lemma saveBoth_results sid eid sr or subj n1 n2 w :
  results (snd (ResponseService.saveBothGeminiResponses sid eid sr or subj
                  n1 n2 w)) = results w.
Proof.
  unfold ResponseService.saveBothGeminiResponses, bind,
    ResponseService.save_link, ret.
  destruct (ResponseService.saveGeminiResponse sid eid "support" sr subj n1 w)
    as [[s|e] w1] eqn:H1.
  - pose proof (saveGeminiResponse_results sid eid "support" sr subj n1 w) as R1.
    rewrite H1 in R1. simpl in R1.
    destruct (ResponseService.saveGeminiResponse sid eid "oppose" or subj n2 w1)
      as [[o|e] w2] eqn:H2.
    + pose proof (saveGeminiResponse_results sid eid "oppose" or subj n2 w1)
        as R2.
      rewrite H2 in R2. simpl in R2. simpl. congruence.
    + pose proof (saveGeminiResponse_results sid eid "oppose" or subj n2 w1)
        as R2.
      rewrite H2 in R2. simpl in *. congruence.
  - pose proof (saveGeminiResponse_results sid eid "support" sr subj n1 w) as R1.
    rewrite H1 in R1. simpl in *. congruence.
Qed.

(** Every step keeps the stored results or appends one valid, completed
    result. *)
Lemma step_results w w' :
  System.step w w' ->
  results w' = results w
  \/ exists d, results w' = results w ++ [d]
               /\ System.well_formed d
               /\ SynthesisResult.status d = "completed".
Proof.
  intros H. destruct H.
  - destruct (Controller.runSynthesis wk now pairId w) as [reply w'] eqn:Hr.
    apply runSynthesis_results in Hr. simpl.
    destruct Hr as [[Hres _]|(d & _ & Hres & Hwf & _ & Hst & _)]; eauto.
  - left. apply saveBoth_results.
  - left. apply saveGeminiResponse_results.
  - left. unfold ResponseService.markAsSynthesized.
    now destruct (castObjectId responseId).
Qed.

Lemma reachable_results w :
  System.reachable w ->
  Forall (fun d => System.well_formed d
                   /\ SynthesisResult.status d = "completed") (results w).
Proof.
  induction 1 as [|w w' Hreach IH Hstep].
  - constructor.
  - destruct (step_results Hstep) as [->|(d & -> & Hwf & Hst)]; auto.
    apply Forall_app. split; auto.
Qed.

End PipelineFacts.

(** C3: in every world the service can reach, a result read back from the
    store has its confidence between 0 and 1 and its verdict among support,
    oppose, inconclusive and mixed, whatever content it was built from. *)
Theorem stored_results_well_formed {D : SynthesisResult.Driver} (w : World)
  (token : string) (d : SynthesisResult.doc) :
  System.reachable w ->
  Service.getSynthesisResult token w = Some d ->
  (0 <= SynthesisResult.confidence d)%Q
  /\ (SynthesisResult.confidence d <= 1)%Q
  /\ In (SynthesisResult.verdict d)
        ["support"; "oppose"; "inconclusive"; "mixed"].
Proof.
  intros Hreach Hget.
  unfold Service.getSynthesisResult, SynthesisResult.findOne in Hget.
  apply find_some in Hget. destruct Hget as [Hin _].
  pose proof (reachable_results Hreach) as Hall.
  rewrite Forall_forall in Hall.
  destruct (Hall d Hin) as [Hwf _]. exact Hwf.
Qed.

Lemma synthesized_world_reachable :
  @System.reachable schema_driver synthesized_world.
Proof.
  unfold synthesized_world.
  eapply System.reach_step; [|apply System.step_run].
  unfold paired_world.
  eapply System.reach_step; [|apply System.step_pair].
  apply System.reach_empty.
Qed.

Lemma stored_results_well_formed_witness :
  exists d,
    Service.getSynthesisResult split_token synthesized_world = Some d
    /\ (0 <= SynthesisResult.confidence d)%Q
    /\ (SynthesisResult.confidence d <= 1)%Q
    /\ In (SynthesisResult.verdict d)
          ["support"; "oppose"; "inconclusive"; "mixed"].
Proof.
  eexists. split.
  - vm_compute. reflexivity.
  - eapply (@stored_results_well_formed schema_driver synthesized_world
              split_token).
    + exact synthesized_world_reachable.
    + vm_compute. reflexivity.
Defined.

(** C9: a run of [runSynthesis] leaves the stored results as they were or
    appends one result whose status is completed; a [save] that raises
    leaves the world as it was, and a run that answers with an error has
    stored nothing, unless the error is that of the status update which
    follows the save; so every result stored in a reachable world is
    completed, none is failed or processing. *)
Theorem persisted_results_are_completed {D : SynthesisResult.Driver}
  (wk : Workers) (now : Z) (token : string) (w w' : World)
  (reply : Controller.reply Controller.RunBody) :
  Controller.runSynthesis wk now token w = (reply, w') ->
  (results w' = results w
   \/ exists d, results w' = results w ++ [d]
                /\ SynthesisResult.status d = "completed")
  /\ (forall e, reply = Controller.Status500 e ->
        results w' = results w
        \/ exists reached d,
             status_update wk = Some (e, reached)
             /\ results w' = results w ++ [d]
             /\ SynthesisResult.status d = "completed")
  /\ (forall i e w1, Service.save i now w = (Throw e, w1) -> w1 = w)
  /\ (System.reachable w ->
      forall d, In d (results w') ->
        SynthesisResult.status d = "completed"
        /\ SynthesisResult.status d <> "failed"
        /\ SynthesisResult.status d <> "processing").
Proof.
  intros Hrun. pose proof (runSynthesis_results _ _ _ _ Hrun) as Hcases.
  split; [|split; [|split]].
  - destruct Hcases as [[Hres _]|(d & _ & Hres & _ & _ & Hst & _)]; eauto.
  - intros e ->.
    destruct Hcases
      as [[Hres _]
         |(d & _ & Hres & _ & _ & Hst
           & [[Habs _]|(e' & reached & He & Hup)])]; auto.
    + discriminate.
    + injection He as <-. right. exists reached. eauto.
  - intros i e w1 Hsave. apply save_cases in Hsave.
    destruct Hsave as [[-> _]|(d & Habs & _)]; [reflexivity|discriminate].
  - intros Hreach d Hin.
    assert (Hreach' : System.reachable w').
    { apply System.reach_step with w; auto.
      replace w' with (snd (Controller.runSynthesis wk now token w))
        by now rewrite Hrun.
      apply System.step_run. }
    pose proof (reachable_results Hreach') as Hall.
    rewrite Forall_forall in Hall. destruct (Hall d Hin) as [_ Hst].
    rewrite Hst. repeat split; discriminate.
Qed.

Lemma persisted_results_are_completed_witness :
  @Controller.runSynthesis schema_driver failing_workers 200%Z split_token
    paired_world = (Controller.Json fresh_body, synthesized_world)
  /\ In stored_fallback_doc (results synthesized_world)
  /\ SynthesisResult.status stored_fallback_doc = "completed".
Proof.
  assert (Hrun : @Controller.runSynthesis schema_driver failing_workers 200%Z
                   split_token paired_world
                 = (Controller.Json fresh_body, synthesized_world))
    by (vm_compute; reflexivity).
  assert (Hin : In stored_fallback_doc (results synthesized_world))
    by (vm_compute; left; reflexivity).
  split; [exact Hrun|]. split; [exact Hin|].
  refine (proj1 (proj2 (proj2 (proj2
            (@persisted_results_are_completed schema_driver failing_workers
               200%Z split_token paired_world synthesized_world
               (Controller.Json fresh_body) Hrun))) _ stored_fallback_doc
            Hin)).
  unfold paired_world.
  eapply System.reach_step; [|apply System.step_pair].
  apply System.reach_empty.
Defined.




(** ** Every worker failing *)

Section Degraded.
Import Service.
Context {D : SynthesisResult.Driver}.




End Degraded.




(* ===================================================================== *)
(** * Further properties *)
(* ===================================================================== *)

(** ** What a run does to the world *)

Section RunEffects.
Import Service.
Context {D : SynthesisResult.Driver}.

Lemma by_id_in id coll d : Store.by_id id coll = Some d -> In d coll /\ _id d = id.
Proof.
  unfold Store.by_id. intros H. apply find_some in H.
  destruct H as [Hin Heq]. apply N.eqb_eq in Heq. auto.
Qed.

Lemma sorted_in (A : Type) (key : A -> Z) l x :
  In x (Grouping.sort_desc key l) <-> In x l.
Proof.
  split; apply Permutation_in;
    [apply sort_desc_perm|apply Permutation_sym, sort_desc_perm].
Qed.

Lemma store_findById coll a d :
  @findById (Store.model coll) a = Ok (Some d) -> In d coll.
Proof.
  simpl. destruct a as [s|id].
  - destruct (castObjectId s); [|discriminate].
    intros H. inversion H as [Hd]. now apply by_id_in in Hd.
  - intros H. inversion H as [Hd]. now apply by_id_in in Hd.
Qed.

Lemma store_findRecent coll n l d :
  @findRecent (Store.model coll) n = Ok l -> In d l -> In d coll.
Proof.
  simpl. intros H Hin. inversion H; subst.
  apply firstn_in in Hin. now apply sorted_in in Hin.
Qed.

Lemma store_findByPairId coll token l d :
  @findByPairId (Store.model coll) token = Ok l -> In d l -> In d coll.
Proof.
  simpl. destruct (castObjectId token); [|discriminate].
  intros H Hin. inversion H; subst. now apply filter_In in Hin.
Qed.

Lemma find_in (A : Type) (f : A -> bool) l x : find f l = Some x -> In x l.
Proof. intros H. now apply find_some in H. Qed.

Lemma strategy_returns_stored coll s token found :
  In s (@Resolver.strategies (Store.model coll)) ->
  Resolver.succeeds s token = Some found ->
  In (Resolver.support found) coll /\ In (Resolver.oppose found) coll.
Proof.
  intros [<-|[<-|[<-|[<-|[]]]]].
  - rewrite split_block.
    destruct (_ && _); [|discriminate].
    destruct (Str.split "_" token) as [|a [|b [|c rest]]]; try discriminate.
    destruct (findById (IdStr a)) as [[x|]|] eqn:Ha; try discriminate.
    destruct (findById (IdStr b)) as [[y|]|] eqn:Hb; try discriminate.
    intros H. inversion H; subst. simpl.
    split; eapply store_findById; eauto.
  - rewrite legacy_block.
    destruct (Str.startsWith "pair_" token); [|discriminate].
    destruct (findRecent 10) as [recent|] eqn:Hr; [|discriminate].
    destruct (Resolver.groupBySession recent) as [bySession|] eqn:Hg;
      [|discriminate].
    intros H. apply first_complete_split in H.
    destruct H as (before & sid & members & after & Heq & _ & Hs & Ho).
    assert (Hin : In (sid, members) bySession).
    { apply in_for_in. rewrite Heq. apply in_or_app. right. now left. }
    destruct (@groupBySession_members recent bySession sid members Hg Hin)
      as [-> _].
    apply find_in in Hs, Ho. apply filter_In in Hs, Ho.
    split; eapply store_findRecent; eauto; tauto.
  - rewrite cross_reference_block.
    destruct (findByPairId token) as [l|] eqn:Hl; [|discriminate].
    destruct (List.length l =? 2)%nat; [|discriminate].
    destruct (find is_support l) as [x|] eqn:Hx; [|discriminate].
    destruct (find is_oppose l) as [y|] eqn:Hy; [|discriminate].
    intros H. inversion H; subst. simpl.
    apply find_in in Hx, Hy.
    split; eapply store_findByPairId; eauto.
  - rewrite single_id_block.
    destruct (findById (IdStr token)) as [[m|]|] eqn:Hm; try discriminate.
    destruct (synthesisPairId m) as [cid|]; [|discriminate].
    destruct (findById (IdObj cid)) as [[c|]|] eqn:Hc; try discriminate.
    apply store_findById in Hm, Hc.
    destruct (agentType m =? "support"); intros H; inversion H; subst; auto.
Qed.

Lemma first_success_source ss token found :
  Resolver.first_success ss token = Some found ->
  exists s, In s ss /\ Resolver.succeeds s token = Some found.
Proof.
  induction ss as [|s ss IH]; simpl; [discriminate|].
  destruct (Resolver.succeeds s token) as [p|] eqn:E.
  - intros H. inversion H; subst. eauto.
  - intros H. destruct (IH H) as [s' [Hin Hs]]. eauto.
Qed.

Lemma resolver_outcome (M : Model) token :
  (exists found s, @Resolver._findPairedResponses M token = Ok found
                   /\ In s Resolver.strategies
                   /\ Resolver.succeeds s token = Some found)
  \/ @Resolver._findPairedResponses M token
     = Throw (Resolver.not_found token).
Proof.
  rewrite resolver_refines_chain. unfold Resolver.resolve.
  destruct (Resolver.first_success Resolver.strategies token) as [found|] eqn:E.
  - left. destruct (@first_success_source _ _ _ E) as [s [Hin Hs]]. eauto.
  - now right.
Qed.

Lemma save_effect i now w r w' :
  save i now w = (r, w') ->
  (w' = w /\ exists e, r = Throw e)
  \/ (exists d, r = Ok d
        /\ SynthesisResult.validate i (next_oid w) now = Ok d
        /\ SynthesisResult.findOne (SynthesisResult.synthesisPairId d)
             (results w) = None
        /\ w' = {| responses := responses w;
                   results := results w ++ [SynthesisResult.stored d];
                   next_oid := N.succ (next_oid w);
                   spawned := spawned w |}).
Proof.
  intros H. pose proof (save_cases _ _ _ H) as Hc. unfold save in H.
  destruct Hc as [Hc|(d & -> & Hv & Hnone & _)]; [now left|].
  right. exists d. rewrite Hv in H.
  destruct (existsb _ (results w)); inversion H; subst; auto.
Qed.

Lemma validate_fields i id now d :
  SynthesisResult.validate i id now = Ok d ->
  SynthesisResult._id d = id
  /\ SynthesisResult.supportResponseId d
     = SynthesisResult.i_supportResponseId i
  /\ SynthesisResult.opposeResponseId d
     = SynthesisResult.i_opposeResponseId i
  /\ SynthesisResult.sessionId d = SynthesisResult.i_sessionId i
  /\ SynthesisResult.createdAt d = now.
Proof.
  unfold SynthesisResult.validate.
  destruct (SynthesisResult.castString (SynthesisResult.i_verdict i));
    [|discriminate].
  destruct (SynthesisResult.castNumber (SynthesisResult.i_confidence i));
    [|discriminate].
  destruct (SynthesisResult.castString (SynthesisResult.i_reasoning i));
    [|discriminate].
  destruct (SynthesisResult.castMlScores (SynthesisResult.i_mlScores i));
    [|discriminate].
  destruct (SynthesisResult.castKeyEvidence (SynthesisResult.i_keyEvidence i));
    [|discriminate].
  destruct (SynthesisResult.castNumber (SynthesisResult.i_evidenceJudge i));
    [|discriminate].
  destruct (SynthesisResult.castNumber
              (SynthesisResult.i_contradictionDetector i)); [|discriminate].
  destruct (SynthesisResult.castNumber (SynthesisResult.i_confidenceScorer i));
    [|discriminate].
  match goal with
  | |- (if ?c then _ else _) = _ -> _ => destruct c; [|discriminate]
  end.
  intros H. inversion H; subst. simpl. auto.
Qed.

Lemma result_content_fields pid sid eid a b m c :
  result_content pid sid eid a b m = Ok c ->
  SynthesisResult.i_supportResponseId c = a
  /\ SynthesisResult.i_opposeResponseId c = b
  /\ SynthesisResult.i_sessionId c = sid.
Proof.
  unfold result_content.
  destruct (getp m "final_verdict"); simpl; [|discriminate].
  destruct (getp m "confidence"); simpl; [|discriminate].
  destruct (getp m "reasoning"); simpl; [|discriminate].
  destruct (getp m "scores"); simpl; [|discriminate].
  destruct (getp m "key_evidence"); simpl; [|discriminate].
  intros H. inversion H; subst. auto.
Qed.

(** A run that threw after having started [n] workers. *)
Ltac threw n :=
  let H := fresh "H" in
  intros H; inversion H; subst; left; eexists; exists n; cbn;
  rewrite <- ?app_assoc; cbn;
  repeat split; auto 6; try contradiction; try discriminate.

(** Everything one run of [synthesizePair] does. *)
Lemma synthesizePair_effect wk now token w r w' :
  synthesizePair wk now token w = (r, w') ->
  (exists e n,
     r = Throw e
     /\ responses w' = responses w /\ results w' = results w
     /\ next_oid w' = next_oid w
     /\ In n [0; 2; 3; 4]%nat
     /\ spawned w' = spawned w ++ firstn n pipeline_order
     /\ (n = 0%nat <->
         @Resolver._findPairedResponses (Store.model (responses w)) token
         = Throw e))
  \/ (exists found d,
        @Resolver._findPairedResponses (Store.model (responses w)) token
        = Ok found
        /\ results w' = results w ++ [SynthesisResult.stored d]
        /\ next_oid w' = N.succ (next_oid w)
        /\ spawned w' = spawned w ++ pipeline_order
        /\ SynthesisResult.findOne token (results w) = None
        /\ SynthesisResult._id d = next_oid w
        /\ SynthesisResult.synthesisPairId d = token
        /\ SynthesisResult.supportResponseId d = _id (Resolver.support found)
        /\ SynthesisResult.opposeResponseId d = _id (Resolver.oppose found)
        /\ SynthesisResult.sessionId d = sessionId (Resolver.support found)
        /\ SynthesisResult.createdAt d = now
        /\ SynthesisResult.status d = "completed"
        /\ ((status_update wk = None
             /\ r = Ok (SynthesisResult.formatForFrontend d)
             /\ responses w'
                = Store.updateMany [_id (Resolver.support found);
                                    _id (Resolver.oppose found)]
                    "synthesized" (responses w))
            \/ (exists e reached,
                  status_update wk = Some (e, reached)
                  /\ r = Throw e
                  /\ responses w'
                     = Store.updateMany
                         (filter (fun id => existsb (N.eqb id) reached)
                            [_id (Resolver.support found);
                             _id (Resolver.oppose found)])
                         "synthesized" (responses w)))).
Proof.
  unfold synthesizePair.
  cbv beta iota delta [bind lift spawn resolve_pair ret
                         _saveSynthesisResult].
  destruct (Resolver._findPairedResponses token) as [found|e] eqn:Hres.
  2:{ intros H; inversion H; subst. left. exists e, 0%nat. simpl.
      rewrite app_nil_r. repeat split; auto. }
  cbn [responses results next_oid spawned].
  destruct (inject _ "evidence_judgment" _) as [ej|e]; [|threw 2%nat].
  destruct (inject _ "contradiction_analysis" _) as [ca|e]; [|threw 2%nat].
  destruct (getp _ "success") as [ok|e]; [|threw 3%nat].
  destruct (overlay _ _) as [m'|e]; [|threw 4%nat].
  destruct (result_content _ _ _ _ _ _) as [content|e] eqn:Hc; [|threw 4%nat].
  match goal with
  | |- context [save content now ?w0] =>
      destruct (save content now w0) as [saved w1] eqn:Hsave
  end.
  apply save_effect in Hsave. cbn [responses results next_oid spawned] in Hsave.
  destruct Hsave as [[-> [e ->]]|(d & -> & Hv & Hnone & ->)]; [threw 4%nat|].
  destruct (validate_ok _ _ _ Hv) as (_ & Hid & Hst).
  destruct (validate_fields _ _ _ Hv) as (Hoid & Hs & Ho & Hsess & Hnow).
  destruct (result_content_ok _ _ _ _ _ _ Hc) as [Hcompleted Hp].
  destruct (result_content_fields _ _ _ _ _ _ Hc) as (Hs' & Ho' & Hsess').
  rewrite Hp in Hid. rewrite Hid in Hnone. rewrite Hcompleted in Hst.
  unfold mark_synthesized.
  destruct (status_update wk) as [[e reached]|];
    intros H; injection H as <- <-; right; exists found, d;
    cbn [responses results next_oid spawned];
    rewrite <- !app_assoc; cbn [app];
    (split; [reflexivity|]); (split; [reflexivity|]); (split; [reflexivity|]);
    (split; [reflexivity|]); (split; [exact Hnone|]);
    (split; [exact Hoid|]); (split; [exact Hid|]);
    (split; [congruence|]); (split; [congruence|]); (split; [congruence|]);
    (split; [exact Hnow|]); (split; [exact Hst|]).
  - right. exists e, reached. auto.
  - left. auto.
Qed.

Lemma runSynthesis_effect wk now token w reply w' :
  Controller.runSynthesis wk now token w = (reply, w') ->
  (token = "" /\ w' = w
   /\ reply = Controller.Status400 "pairId parameter is required")
  \/ (exists d, SynthesisResult.findOne token (results w) = Some d
                /\ w' = w
                /\ reply = Controller.Json
                     {| Controller.message := "Synthesis already exists";
                        Controller.result := SynthesisResult.formatForFrontend d;
                        Controller.cached := true |})
  \/ (token <> "" /\ SynthesisResult.findOne token (results w) = None
      /\ exists r, synthesizePair wk now token w = (r, w')
                   /\ match r with
                      | Ok f =>
                          reply = Controller.Json
                            {| Controller.message :=
                                 "Synthesis completed successfully";
                               Controller.result := f;
                               Controller.cached := false |}
                      | Throw e => reply = Controller.Status500 e
                      end).
Proof.
  unfold Controller.runSynthesis.
  destruct (token =? "") eqn:Htok.
  { apply String.eqb_eq in Htok. intros H. inversion H; subst. auto. }
  apply String.eqb_neq in Htok.
  destruct (SynthesisResult.findOne token (results w)) as [d|] eqn:Hf.
  { intros H. inversion H; subst. right. left. eauto. }
  destruct (synthesizePair wk now token w) as [r w1] eqn:Hs.
  intros H. right. right. split; [exact Htok|]. split; [reflexivity|].
  exists r. destruct r; inversion H; subst; auto.
Qed.

Lemma updateMany_ids ids st coll :
  map _id (Store.updateMany ids st coll) = map _id coll.
Proof.
  unfold Store.updateMany. rewrite map_map. apply map_ext.
  intros d. now destruct (existsb (N.eqb (_id d)) ids).
Qed.

Lemma updateMany_in ids st coll d :
  In d (Store.updateMany ids st coll) ->
  exists d0, In d0 coll /\ _id d = _id d0
    /\ ((existsb (N.eqb (_id d0)) ids = true /\ d = Store.with_status st d0)
        \/ (existsb (N.eqb (_id d0)) ids = false /\ d = d0)).
Proof.
  unfold Store.updateMany. rewrite in_map_iff. intros [d0 [Heq Hin]].
  exists d0. split; auto.
  destruct (existsb (N.eqb (_id d0)) ids) eqn:E; subst; auto.
Qed.

Lemma existsb_pair (a b x : N) :
  existsb (N.eqb x) [a; b] = true <-> x = a \/ x = b.
Proof.
  simpl. rewrite !orb_true_iff, !N.eqb_eq. intuition discriminate.
Qed.

End RunEffects.

Lemma resolved_pair_is_stored (coll : list doc) (token : string)
  (found : Resolver.Pair) :
  @Resolver._findPairedResponses (Store.model coll) token = Ok found ->
  In (Resolver.support found) coll /\ In (Resolver.oppose found) coll.
Proof.
  intros H.
  destruct (resolver_outcome (Store.model coll) token)
    as [(p & s & Hp & Hin & Hs)|Habs]; [|congruence].
  rewrite H in Hp. inversion Hp; subst.
  eapply strategy_returns_stored; eauto.
Qed.

(** X1: the resolver, run on the stored collection, returns only stored
    responses: whichever strategy decides, both records of the pair are
    documents of the collection. *)
Theorem resolver_returns_stored_responses (coll : list doc) (token : string)
  (found : Resolver.Pair) :
  @Resolver._findPairedResponses (Store.model coll) token = Ok found ->
  In (Resolver.support found) coll /\ In (Resolver.oppose found) coll.
Proof.
  intros H.
  destruct (resolver_outcome (Store.model coll) token)
    as [(p & s & Hp & Hin & Hs)|Habs]; [|congruence].
  rewrite H in Hp. inversion Hp; subst.
  eapply strategy_returns_stored; eauto.
Qed.

Lemma resolver_returns_stored_responses_witness :
  In support_doc (responses paired_world)
  /\ In oppose_doc (responses paired_world).
Proof.
  apply (@resolver_returns_stored_responses (responses paired_world)
           split_token
           {| Resolver.support := support_doc;
              Resolver.oppose := oppose_doc |}).
  vm_compute. reflexivity.
Defined.

(** X2: when no strategy resolves the token, [runSynthesis] answers with
    the pair-not-found error and leaves the world as it was: no worker was
    started, nothing was stored, no response changed. *)
Theorem unresolved_token_changes_nothing {D : SynthesisResult.Driver}
  (wk : Workers) (now : Z) (token : string) (w : World) :
  token <> "" ->
  SynthesisResult.findOne token (results w) = None ->
  (forall found,
     @Resolver._findPairedResponses (Store.model (responses w)) token
     <> Ok found) ->
  Controller.runSynthesis wk now token w
  = (Controller.Status500 (Resolver.not_found token), w).
Proof.
  intros Htok Hnone Hres.
  destruct (resolver_outcome (Store.model (responses w)) token)
    as [(p & s & Hp & _)|Hthrow]; [now apply Hres in Hp|].
  unfold Controller.runSynthesis.
  replace (token =? "") with false
    by (symmetry; apply String.eqb_neq; exact Htok).
  rewrite Hnone. unfold Service.synthesizePair.
  cbv beta iota delta [Service.bind Service.resolve_pair].
  rewrite Hthrow. reflexivity.
Qed.

Lemma unresolved_token_changes_nothing_witness :
  @Controller.runSynthesis schema_driver failing_workers 200%Z
    "aaaaaaaaaaaaaaaaaaaaaaaa_bbbbbbbbbbbbbbbbbbbbbbbb" paired_world
  = (Controller.Status500
       (Resolver.not_found "aaaaaaaaaaaaaaaaaaaaaaaa_bbbbbbbbbbbbbbbbbbbbbbbb"),
     paired_world).
Proof.
  apply (@unresolved_token_changes_nothing schema_driver).
  - discriminate.
  - reflexivity.
  - intros found. vm_compute. discriminate.
Defined.

(** X3: a run of [runSynthesis] that answers with an error has added and
    removed no response and has at most started workers, with one
    exception: when the error is that of the rejected status update, all
    four workers were started and one completed result for the token is
    stored, and the responses the update reached before it was rejected are
    marked.  In every other case, so whenever the status update is
    fulfilled, no response and no stored result has changed and no id was
    issued. *)
Theorem failed_run_keeps_collections {D : SynthesisResult.Driver}
  (wk : Workers) (now : Z) (token : string) (w w' : World) (e : exn) :
  Controller.runSynthesis wk now token w = (Controller.Status500 e, w') ->
  (exists started, spawned w' = spawned w ++ started)
  /\ map _id (responses w') = map _id (responses w)
  /\ ((responses w' = responses w
       /\ results w' = results w
       /\ next_oid w' = next_oid w)
      \/ (exists reached found d,
            status_update wk = Some (e, reached)
            /\ @Resolver._findPairedResponses (Store.model (responses w)) token
               = Ok found
            /\ results w' = results w ++ [d]
            /\ SynthesisResult.synthesisPairId d = token
            /\ SynthesisResult.status d = "completed"
            /\ next_oid w' = N.succ (next_oid w)
            /\ spawned w' = spawned w ++ pipeline_order
            /\ responses w'
               = Store.updateMany
                   (filter (fun id => existsb (N.eqb id) reached)
                      [_id (Resolver.support found);
                       _id (Resolver.oppose found)])
                   "synthesized" (responses w)))
  /\ (status_update wk = None ->
      responses w' = responses w
      /\ results w' = results w
      /\ next_oid w' = next_oid w).
Proof.
  intros H. apply runSynthesis_effect in H.
  destruct H as [(_ & _ & Habs)|[(d & _ & _ & Habs)|(_ & _ & r & Hs & Hr)]];
    try discriminate.
  apply synthesizePair_effect in Hs.
  destruct Hs as [(e' & n & -> & Hresp & Hres & Hoid & _ & Hsp & _)
                 |(found & d & Hfound & Hres & Hoid & Hsp & _ & _ & Hid & _ & _
                   & _ & _ & Hst
                   & [(_ & -> & _)|(e' & reached & Hup & -> & Hresp)])];
    try discriminate.
  - split; [eauto|]. split; [now rewrite Hresp|]. split; [auto|auto].
  - injection Hr as <-.
    split; [eauto|]. split; [rewrite Hresp; apply updateMany_ids|].
    split.
    + right. exists reached, found, (SynthesisResult.stored d). auto 10.
    + intros Hnone. congruence.
Qed.

Lemma failed_run_keeps_collections_witness :
  responses (snd (@Controller.runSynthesis schema_driver null_workers 200%Z
                    split_token paired_world))
  = responses paired_world.
Proof.
  refine (proj1 (proj2 (proj2 (proj2
            (@failed_run_keeps_collections schema_driver null_workers 200%Z
               split_token paired_world _ TypeError _))) eq_refl)).
  vm_compute. reflexivity.
Defined.

(** X4: the workers of one run are started in the order judge, detector,
    synthesizer, explainer: what a run starts is the first 0, 2, 3 or 4
    stages of that sequence, all four when it answers with a new result and
    none when it answers from the store. *)
Theorem workers_start_in_order {D : SynthesisResult.Driver}
  (wk : Workers) (now : Z) (token : string) (w w' : World)
  (reply : Controller.reply Controller.RunBody) :
  Controller.runSynthesis wk now token w = (reply, w') ->
  exists n,
    In n [0; 2; 3; 4]%nat
    /\ spawned w' = spawned w ++ firstn n pipeline_order
    /\ (forall body, reply = Controller.Json body ->
          n = if Controller.cached body then 0%nat else 4%nat).
Proof.
  intros H. apply runSynthesis_effect in H.
  destruct H as [(_ & -> & ->)|[(d & _ & -> & ->)|(_ & _ & r & Hs & Hr)]].
  - exists 0%nat. simpl. rewrite app_nil_r. repeat split; auto. discriminate.
  - exists 0%nat. simpl. rewrite app_nil_r. repeat split; auto.
    intros body Hb. inversion Hb; subst. reflexivity.
  - apply synthesizePair_effect in Hs.
    destruct Hs as [(e' & n & -> & _ & _ & _ & Hn & Hsp & _)
                   |(found & d & _ & _ & _ & Hsp & _ & _ & _ & _ & _ & _ & _
                     & _ & [(_ & -> & _)|(e' & reached & _ & -> & _)])].
    + exists n. subst reply. repeat split; auto. discriminate.
    + exists 4%nat. subst reply. split; [simpl; auto|]. split; [exact Hsp|].
      intros body Hb. inversion Hb; subst. reflexivity.
    + exists 4%nat. subst reply. split; [simpl; auto|]. split; [exact Hsp|].
      discriminate.
Qed.

Lemma workers_start_in_order_witness :
  spawned (snd (@Controller.runSynthesis schema_driver null_workers 200%Z
                  split_token paired_world))
  = [Judge; Detector; Synthesizer].
Proof.
  destruct (@workers_start_in_order schema_driver null_workers 200%Z split_token
              paired_world
              (snd (@Controller.runSynthesis schema_driver null_workers 200%Z
                      split_token paired_world))
              (Controller.Status500 TypeError))
    as (n & Hn & Hsp & _).
  - vm_compute. reflexivity.
  - rewrite Hsp.
    assert (Hlen : List.length
              (spawned (snd (@Controller.runSynthesis schema_driver
                               null_workers 200%Z split_token paired_world)))
            = 3%nat) by (vm_compute; reflexivity).
    rewrite Hsp in Hlen.
    destruct Hn as [<-|[<-|[<-|[<-|[]]]]]; try discriminate Hlen.
    reflexivity.
Defined.

(** X5: when [runSynthesis] answers with a new (not cached) result, the two
    resolved responses are stored responses and are now marked synthesized,
    every other response is as it was, none was added or removed, and the
    two no longer belong to any group of pending responses. *)
Theorem fresh_run_marks_pair_synthesized {D : SynthesisResult.Driver}
  (wk : Workers) (now : Z) (token : string) (w w' : World)
  (body : Controller.RunBody) :
  Controller.runSynthesis wk now token w = (Controller.Json body, w') ->
  Controller.cached body = false ->
  exists found,
    @Resolver._findPairedResponses (Store.model (responses w)) token = Ok found
    /\ In (Resolver.support found) (responses w)
    /\ In (Resolver.oppose found) (responses w)
    /\ map _id (responses w') = map _id (responses w)
    /\ (forall d, In d (responses w') ->
          _id d = _id (Resolver.support found)
          \/ _id d = _id (Resolver.oppose found) ->
          synthesisStatus d = "synthesized")
    /\ (forall d, In d (responses w') ->
          _id d <> _id (Resolver.support found) ->
          _id d <> _id (Resolver.oppose found) ->
          In d (responses w))
    /\ (forall k d, In d (Controller.pending_group k (responses w')) ->
          _id d <> _id (Resolver.support found)
          /\ _id d <> _id (Resolver.oppose found)).
Proof.
  intros H Hfresh. apply runSynthesis_effect in H.
  destruct H as [(_ & _ & Habs)|[(d & _ & _ & Habs)|(_ & _ & r & Hs & Hr)]];
    try discriminate.
  { inversion Habs; subst. discriminate. }
  apply synthesizePair_effect in Hs.
  destruct Hs as [(e' & n & -> & _)
                 |(found & d & Hres & _ & _ & _ & _ & _ & _ & _ & _ & _ & _ & _
                   & [(_ & -> & Hresp)|(e' & reached & _ & -> & _)])];
    try discriminate.
  exists found. split; [exact Hres|].
  destruct (resolved_pair_is_stored _ _ Hres) as [Hs Ho].
  split; [exact Hs|]. split; [exact Ho|].
  rewrite Hresp. split; [apply updateMany_ids|].
  assert (Hmarked : forall x, In x (Store.updateMany
                       [_id (Resolver.support found);
                        _id (Resolver.oppose found)] "synthesized"
                       (responses w)) ->
            _id x = _id (Resolver.support found)
            \/ _id x = _id (Resolver.oppose found) ->
            synthesisStatus x = "synthesized").
  { intros x Hin Hid. apply updateMany_in in Hin.
    destruct Hin as (d0 & _ & Heq & [[_ ->]|[Hno Hd]]); [reflexivity|].
    subst x. apply existsb_pair in Hid.
    discriminate (eq_trans (eq_sym Hid) Hno). }
  split; [exact Hmarked|]. split.
  - intros x Hin H1 H2. apply updateMany_in in Hin.
    destruct Hin as (d0 & Hin0 & Heq & [[Hyes Hd]|[_ Hd]]);
      [|subst x; exact Hin0].
    apply existsb_pair in Hyes. rewrite Heq in H1, H2. tauto.
  - intros k x Hin.
    pose proof (pending_group_members _ _ _ Hin) as [Hpend _].
    unfold Controller.pending_group in Hin. apply filter_In in Hin.
    destruct Hin as [Hin _].
    split; intros Hid;
      (assert (Hsyn : synthesisStatus x = "synthesized")
         by (apply Hmarked; auto)); congruence.
Qed.

Lemma fresh_run_marks_pair_synthesized_witness :
  @Controller.runSynthesis schema_driver failing_workers 200%Z split_token
    paired_world = (Controller.Json fresh_body, synthesized_world)
  /\ Controller.cached fresh_body = false
  /\ exists s, In s (responses synthesized_world)
               /\ _id s = _id support_doc
               /\ synthesisStatus s = "synthesized".
Proof.
  assert (Hrun : @Controller.runSynthesis schema_driver failing_workers 200%Z
                   split_token paired_world
                 = (Controller.Json fresh_body, synthesized_world))
    by (vm_compute; reflexivity).
  split; [exact Hrun|]. split; [reflexivity|].
  destruct (@fresh_run_marks_pair_synthesized schema_driver failing_workers
              200%Z split_token paired_world synthesized_world fresh_body
              Hrun eq_refl)
    as (found & Hres & _ & _ & _ & Hmarked & _).
  assert (Hc : @Resolver._findPairedResponses
                 (Store.model (responses paired_world)) split_token
               = Ok {| Resolver.support := support_doc;
                       Resolver.oppose := oppose_doc |})
    by (vm_compute; reflexivity).
  rewrite Hc in Hres. inversion Hres; subst found.
  exists (Store.with_status "synthesized" support_doc).
  assert (Hin : In (Store.with_status "synthesized" support_doc)
                  (responses synthesized_world))
    by (vm_compute; left; reflexivity).
  split; [exact Hin|]. split; [reflexivity|].
  apply Hmarked; [exact Hin|left; reflexivity].
Defined.

(** ** Consistency of the collections *)

Section ConsistencyFacts.
Import Service Consistency.
Context {D : SynthesisResult.Driver}.

Lemma consistent_ext w w' :
  consistent w ->
  responses w' = responses w -> results w' = results w ->
  next_oid w' = next_oid w ->
  consistent w'.
Proof.
  intros [H1 H2 H3 H4 H5 H6 H7 H8] Hr Hs Hn.
  constructor; rewrite ?Hr, ?Hs, ?Hn; assumption.
Qed.

Lemma consistent_empty : consistent empty_world.
Proof.
  constructor; simpl; try (intros ? []); constructor.
Qed.

(** How [updateMany] relates the documents before and after. *)
Lemma updateMany_same ids st coll d :
  In d (Store.updateMany ids st coll) ->
  exists d0, In d0 coll
    /\ _id d = _id d0 /\ agentType d = agentType d0
    /\ synthesisPairId d = synthesisPairId d0
    /\ sessionId d = sessionId d0 /\ evidenceId d = evidenceId d0
    /\ reasoning d = reasoning d0 /\ subject d = subject d0
    /\ (synthesisStatus d = st \/ synthesisStatus d = synthesisStatus d0).
Proof.
  intros H. apply updateMany_in in H.
  destruct H as (d0 & Hin & _ & [[_ ->]|[_ ->]]); exists d0; simpl; auto 10.
Qed.

Lemma updateMany_keeps ids st coll d0 :
  In d0 coll ->
  exists d, In d (Store.updateMany ids st coll)
    /\ _id d = _id d0 /\ agentType d = agentType d0
    /\ synthesisPairId d = synthesisPairId d0.
Proof.
  intros H. unfold Store.updateMany.
  exists (if existsb (N.eqb (_id d0)) ids then Store.with_status st d0 else d0).
  split.
  - apply in_map_iff. exists d0. auto.
  - destruct (existsb (N.eqb (_id d0)) ids); simpl; auto.
Qed.

Lemma consistent_updateMany w ids sp :
  consistent w ->
  consistent {| responses := Store.updateMany ids "synthesized" (responses w);
                results := results w;
                next_oid := next_oid w;
                spawned := sp |}.
Proof.
  intros [H1 H2 H3 H4 H5 H6 H7 H8].
  constructor; cbn [responses results next_oid].
  - now rewrite updateMany_ids.
  - intros d Hd. apply updateMany_same in Hd.
    destruct Hd as (d0 & Hin & Hid & _). rewrite Hid. auto.
  - intros d Hd. apply updateMany_same in Hd.
    destruct Hd as (d0 & Hin & _ & Hty & _). unfold known_type.
    rewrite Hty. now apply H3.
  - intros d Hd. apply updateMany_same in Hd.
    destruct Hd as (d0 & Hin & _ & _ & _ & _ & _ & _ & _ & [Hst|Hst]).
    + now right.
    + unfold known_status. rewrite Hst. now apply H4.
  - intros d Hd. apply updateMany_same in Hd.
    destruct Hd as (d0 & Hin & _ & _ & _ & Hs & He & Hr & Hsu & _).
    rewrite Hs, He, Hr, Hsu. now apply H5.
  - intros d Hd k Hk. apply updateMany_same in Hd.
    destruct Hd as (d0 & Hin & Hid & Hty & Hkey & _).
    rewrite Hkey in Hk.
    destruct (H6 d0 Hin k Hk) as (d0' & Hin' & Hid' & Hkey' & Hty').
    destruct (updateMany_keeps ids "synthesized" _ _ Hin')
      as (d' & Hd' & Hi & Ht & Hk').
    exists d'. rewrite Hi, Hk', Ht, Hid, Hty. auto.
  - exact H7.
  - intros r Hr. destruct (H8 r Hr) as [(s & Hs & Hsi) (o & Ho & Hoi)].
    destruct (updateMany_keeps ids "synthesized" _ _ Hs) as (s' & Hs' & Hi & _).
    destruct (updateMany_keeps ids "synthesized" _ _ Ho) as (o' & Ho' & Hj & _).
    split; [exists s'|exists o']; split; auto; congruence.
Qed.

(** Rewriting every response in place, the status and the time of the
    update apart, keeps the collections consistent. *)
Lemma consistent_rewritten w (f : doc -> doc) sp :
  (forall d, _id (f d) = _id d /\ agentType (f d) = agentType d
     /\ synthesisPairId (f d) = synthesisPairId d
     /\ sessionId (f d) = sessionId d /\ evidenceId (f d) = evidenceId d
     /\ reasoning (f d) = reasoning d /\ subject (f d) = subject d
     /\ (synthesisStatus (f d) = "synthesized"
         \/ synthesisStatus (f d) = synthesisStatus d)) ->
  consistent w ->
  consistent {| responses := map f (responses w);
                results := results w;
                next_oid := next_oid w;
                spawned := sp |}.
Proof.
  intros Hf [H1 H2 H3 H4 H5 H6 H7 H8].
  constructor; cbn [responses results next_oid].
  - rewrite map_map. erewrite map_ext; [exact H1|]. intros d. apply Hf.
  - intros d Hd. apply in_map_iff in Hd. destruct Hd as (d0 & <- & Hin).
    destruct (Hf d0) as (-> & _). auto.
  - intros d Hd. apply in_map_iff in Hd. destruct Hd as (d0 & <- & Hin).
    destruct (Hf d0) as (_ & Hty & _). unfold known_type. rewrite Hty.
    now apply H3.
  - intros d Hd. apply in_map_iff in Hd. destruct Hd as (d0 & <- & Hin).
    destruct (Hf d0) as (_ & _ & _ & _ & _ & _ & _ & [Hst|Hst]).
    + now right.
    + unfold known_status. rewrite Hst. now apply H4.
  - intros d Hd. apply in_map_iff in Hd. destruct Hd as (d0 & <- & Hin).
    destruct (Hf d0) as (_ & _ & _ & -> & -> & -> & -> & _). now apply H5.
  - intros d Hd k Hk. apply in_map_iff in Hd. destruct Hd as (d0 & <- & Hin).
    destruct (Hf d0) as (Hid & Hty & Hkey & _). rewrite Hkey in Hk.
    destruct (H6 d0 Hin k Hk) as (d0' & Hin' & Hid' & Hkey' & Hty').
    exists (f d0'). destruct (Hf d0') as (Hi & Ht & Hk' & _).
    split; [apply in_map; exact Hin'|].
    rewrite Hi, Hk', Ht, Hid, Hty. auto.
  - exact H7.
  - intros r Hr. destruct (H8 r Hr) as [(s & Hs & Hsi) (o & Ho & Hoi)].
    split; [exists (f s)|exists (f o)];
      (split; [now apply in_map|]);
      [destruct (Hf s) as (-> & _)|destruct (Hf o) as (-> & _)]; assumption.
Qed.

Lemma consistent_updateById w id now sp :
  consistent w ->
  consistent {| responses := Store.updateById id "synthesized" now
                               (responses w);
                results := results w;
                next_oid := next_oid w;
                spawned := sp |}.
Proof.
  unfold Store.updateById. apply consistent_rewritten.
  intros d. destruct (_id d =? id)%N; simpl; auto 10.
Qed.

Lemma findOne_none_key token coll :
  SynthesisResult.findOne token coll = None ->
  ~ In token (map SynthesisResult.synthesisPairId coll).
Proof.
  unfold SynthesisResult.findOne. intros H Hin.
  apply in_map_iff in Hin. destruct Hin as [d [Hk Hd]].
  pose proof (find_none _ _ H d Hd) as Hno. simpl in Hno.
  rewrite Hk, String.eqb_refl in Hno. discriminate.
Qed.

Lemma nodup_snoc (A : Type) (l : list A) x :
  NoDup l -> ~ In x l -> NoDup (l ++ [x]).
Proof.
  intros Hnd Hnin. apply NoDup_rev in Hnd.
  rewrite <- (rev_involutive (l ++ [x])). apply NoDup_rev.
  rewrite rev_app_distr. simpl. constructor; auto.
  now rewrite <- in_rev.
Qed.

Lemma consistent_add_result w d sp :
  consistent w ->
  SynthesisResult.findOne (SynthesisResult.synthesisPairId d) (results w)
  = None ->
  refers (responses w) d ->
  consistent {| responses := responses w;
                results := results w ++ [d];
                next_oid := N.succ (next_oid w);
                spawned := sp |}.
Proof.
  intros [H1 H2 H3 H4 H5 H6 H7 H8] Hnone Href.
  constructor; cbn [responses results next_oid]; auto.
  - intros x Hx. apply H2 in Hx. lia.
  - rewrite map_app. simpl. apply nodup_snoc; auto.
    now apply findOne_none_key.
  - intros r Hr. apply in_app_or in Hr.
    destruct Hr as [Hr|[<-|[]]]; auto.
Qed.

Lemma consistent_add_response w sid eid type text subj now :
  consistent w ->
  known_type (new_response (next_oid w) sid eid type text subj now) ->
  sid <> "" -> eid <> "" -> text <> "" -> subj <> "" ->
  consistent {| responses := responses w
                             ++ [new_response (next_oid w) sid eid type text
                                   subj now];
                results := results w;
                next_oid := N.succ (next_oid w);
                spawned := spawned w |}.
Proof.
  intros [H1 H2 H3 H4 H5 H6 H7 H8] Hty Hs He Ht Hsu.
  constructor; cbn [responses results next_oid]; auto.
  - rewrite map_app. simpl. apply nodup_snoc; auto.
    intros Hin. apply in_map_iff in Hin. destruct Hin as [x [Hx Hin]].
    apply H2 in Hin. lia.
  - intros d Hd. apply in_app_or in Hd. destruct Hd as [Hd|[<-|[]]].
    + apply H2 in Hd. lia.
    + simpl. lia.
  - intros d Hd. apply in_app_or in Hd. destruct Hd as [Hd|[<-|[]]]; auto.
  - intros d Hd. apply in_app_or in Hd. destruct Hd as [Hd|[<-|[]]]; auto;
      now left.
  - intros d Hd. apply in_app_or in Hd. destruct Hd as [Hd|[<-|[]]]; auto;
      simpl; auto.
  - intros d Hd k Hk. apply in_app_or in Hd. destruct Hd as [Hd|[<-|[]]].
    + destruct (H6 d Hd k Hk) as (d' & Hin' & Hrest).
      exists d'. split; auto. apply in_or_app. now left.
    + discriminate Hk.
  - intros r Hr. destruct (H8 r Hr) as [(s & Hs' & Hsi) (o & Ho & Hoi)].
    split; [exists s|exists o]; split; auto; apply in_or_app; now left.
Qed.

Lemma in_enum_agent type :
  SynthesisResult.in_enum type ResponseService.agent_enum = true ->
  type = "support" \/ type = "oppose".
Proof.
  intros H. apply in_enum_In in H. simpl in H. intuition.
Qed.

Lemma required_nonempty s : SynthesisResult.required s = true -> s <> "".
Proof.
  unfold SynthesisResult.required. intros H ->. discriminate.
Qed.

(** What [saveGeminiResponse] does. *)
Lemma saveGeminiResponse_effect sid eid type text subj now w :
  ResponseService.saveGeminiResponse sid eid type text subj now w
  = (Throw ValidationError, w)
  \/ (ResponseService.saveGeminiResponse sid eid type text subj now w
      = (Ok (new_response (next_oid w) sid eid type text subj now),
         {| responses := responses w
                         ++ [new_response (next_oid w) sid eid type text subj
                               now];
            results := results w;
            next_oid := N.succ (next_oid w);
            spawned := spawned w |})
      /\ (type = "support" \/ type = "oppose")
      /\ sid <> "" /\ eid <> "" /\ text <> "" /\ subj <> "").
Proof.
  unfold ResponseService.saveGeminiResponse.
  destruct (_ && _) eqn:Hv; [|now left].
  right. repeat (apply andb_true_iff in Hv; destruct Hv as [Hv ?]).
  split; [reflexivity|].
  split; [now apply in_enum_agent|].
  repeat split; now apply required_nonempty.
Qed.

Lemma map_unchanged (A : Type) (f : A -> A) l :
  (forall x, In x l -> f x = x) -> map f l = l.
Proof.
  induction l as [|x l IH]; simpl; intros H; auto.
  rewrite H by now left. f_equal. apply IH. intros y Hy. apply H. now right.
Qed.

Lemma save_pair_link_old d coll :
  (forall x, In x coll -> _id x <> _id d) ->
  Store.save_pair_link d coll = coll.
Proof.
  intros H. unfold Store.save_pair_link. apply map_unchanged.
  intros x Hx. destruct (_id x =? _id d)%N eqn:E; auto.
  apply N.eqb_eq in E. now apply H in Hx.
Qed.

(** What [saveBothGeminiResponses] does, in a world whose ids are older
    than the next one. *)
Lemma saveBoth_effect sid eid sr or subj n1 n2 w :
  (forall d, In d (responses w) -> (_id d < next_oid w)%N) ->
  let s0 := new_response (next_oid w) sid eid "support" sr subj n1 in
  let o0 := new_response (N.succ (next_oid w)) sid eid "oppose" or subj n2 in
  let s := Store.with_pair (N.succ (next_oid w)) s0 in
  let o := Store.with_pair (next_oid w) o0 in
  ResponseService.saveBothGeminiResponses sid eid sr or subj n1 n2 w
  = (Throw ValidationError, w)
  \/ (ResponseService.saveBothGeminiResponses sid eid sr or subj n1 n2 w
      = (Throw ValidationError,
         {| responses := responses w ++ [s0];
            results := results w;
            next_oid := N.succ (next_oid w);
            spawned := spawned w |})
      /\ sid <> "" /\ eid <> "" /\ sr <> "" /\ subj <> "")
  \/ (ResponseService.saveBothGeminiResponses sid eid sr or subj n1 n2 w
      = (Ok (s, o),
         {| responses := responses w ++ [s; o];
            results := results w;
            next_oid := N.succ (N.succ (next_oid w));
            spawned := spawned w |})
      /\ sid <> "" /\ eid <> "" /\ sr <> "" /\ or <> "" /\ subj <> "").
Proof.
  intros Hold s0 o0 s o.
  unfold ResponseService.saveBothGeminiResponses, bind.
  destruct (saveGeminiResponse_effect sid eid "support" sr subj n1 w)
    as [->|(-> & _ & Hs & He & Hsr & Hsu)]; [now left|].
  right.
  match goal with
  | |- context [ResponseService.saveGeminiResponse sid eid "oppose" or subj
                  n2 ?w1] =>
      destruct (saveGeminiResponse_effect sid eid "oppose" or subj n2 w1)
        as [->|(-> & _ & _ & _ & Hor & _)]
  end.
  - left. auto.
  - right. cbn [responses results next_oid spawned].
    unfold ResponseService.save_link, ret.
    cbn [responses results next_oid spawned].
    split; [|auto 6].
    f_equal. f_equal.
    assert (Hne : (next_oid w =? N.succ (next_oid w))%N = false)
      by (apply N.eqb_neq; lia).
    assert (Hne' : (N.succ (next_oid w) =? next_oid w)%N = false)
      by (apply N.eqb_neq; lia).
    rewrite <- app_assoc. unfold Store.save_pair_link.
    rewrite !map_app.
    rewrite (map_unchanged _ (responses w)).
    2:{ intros x Hx. cbn. apply Hold in Hx.
        destruct (_id x =? next_oid w)%N eqn:E; auto.
        apply N.eqb_eq in E. lia. }
    rewrite (map_unchanged _ (responses w)).
    2:{ intros x Hx. cbn. apply Hold in Hx.
        destruct (_id x =? N.succ (next_oid w))%N eqn:E; auto.
        apply N.eqb_eq in E. lia. }
    f_equal. cbn. rewrite !N.eqb_refl, ?Hne, ?Hne'. cbn.
    rewrite ?N.eqb_refl, ?Hne, ?Hne'. reflexivity.
Qed.

Lemma consistent_add_pair w sid eid sr or subj n1 n2 :
  consistent w ->
  sid <> "" -> eid <> "" -> sr <> "" -> or <> "" -> subj <> "" ->
  consistent
    {| responses :=
         responses w
         ++ [Store.with_pair (N.succ (next_oid w))
               (new_response (next_oid w) sid eid "support" sr subj n1);
             Store.with_pair (next_oid w)
               (new_response (N.succ (next_oid w)) sid eid "oppose" or subj
                  n2)];
       results := results w;
       next_oid := N.succ (N.succ (next_oid w));
       spawned := spawned w |}.
Proof.
  intros [H1 H2 H3 H4 H5 H6 H7 H8] Hs He Hsr Hor Hsu.
  constructor; cbn [responses results next_oid]; auto.
  - rewrite map_app. simpl.
    change [next_oid w; N.succ (next_oid w)]
      with ([next_oid w] ++ [N.succ (next_oid w)]).
    rewrite app_assoc. apply nodup_snoc; [apply nodup_snoc; auto|].
    + intros Hin. apply in_map_iff in Hin. destruct Hin as [x [Hx Hin]].
      apply H2 in Hin. lia.
    + intros Hin. apply in_app_or in Hin. destruct Hin as [Hin|[Hin|[]]].
      * apply in_map_iff in Hin. destruct Hin as [x [Hx Hin]].
        apply H2 in Hin. lia.
      * lia.
  - intros d Hd. apply in_app_or in Hd.
    destruct Hd as [Hd|[<-|[<-|[]]]]; simpl; try lia.
    apply H2 in Hd. lia.
  - intros d Hd. apply in_app_or in Hd.
    destruct Hd as [Hd|[<-|[<-|[]]]]; auto; [now left|now right].
  - intros d Hd. apply in_app_or in Hd.
    destruct Hd as [Hd|[<-|[<-|[]]]]; auto; now left.
  - intros d Hd. apply in_app_or in Hd.
    destruct Hd as [Hd|[<-|[<-|[]]]]; simpl; auto.
  - intros d Hd k Hk. apply in_app_or in Hd.
    destruct Hd as [Hd|[<-|[<-|[]]]].
    + destruct (H6 d Hd k Hk) as (d' & Hin' & Hrest).
      exists d'. split; auto. apply in_or_app. now left.
    + simpl in Hk. inversion Hk; subst k.
      eexists. split; [apply in_or_app; right; right; left; reflexivity|].
      simpl. repeat split; auto. discriminate.
    + simpl in Hk. inversion Hk; subst k.
      eexists. split; [apply in_or_app; right; left; reflexivity|].
      simpl. repeat split; auto. discriminate.
  - intros r Hr. destruct (H8 r Hr) as [(s & Hs' & Hsi) (o & Ho & Hoi)].
    split; [exists s|exists o]; split; auto; apply in_or_app; now left.
Qed.

Lemma step_consistent w w' :
  consistent w -> System.step w w' -> consistent w'.
Proof.
  intros Hc Hstep.
  destruct Hstep as [wk now pairId w
                    |sid eid supportReasoning opposeReasoning subj now1 now2 w
                    |sid eid type text subj now w
                    |responseId now w].
  - destruct (Controller.runSynthesis wk now pairId w) as [reply w'] eqn:Hr.
    simpl. apply runSynthesis_effect in Hr.
    destruct Hr as [(_ & -> & _)|[(d & _ & -> & _)|(_ & Hnone & r & Hs & _)]];
      auto.
    apply synthesizePair_effect in Hs.
    destruct Hs as [(e & n & _ & Hresp & Hres & Hoid & _)
                   |(found & d & Hfound & Hres & Hoid & _ & _ & _ & Hkey
                     & Hsup & Hopp & _ & _ & _ & Hresp)].
    + eapply consistent_ext; eauto.
    + destruct (resolved_pair_is_stored _ _ Hfound) as [Hins Hino].
      assert (Hadd : consistent {| responses := responses w;
                                   results := results w
                                              ++ [SynthesisResult.stored d];
                                   next_oid := N.succ (next_oid w);
                                   spawned := spawned w |}).
      { apply consistent_add_result; auto.
        - cbn [SynthesisResult.stored SynthesisResult.synthesisPairId].
          now rewrite Hkey.
        - split; cbn [SynthesisResult.stored
                        SynthesisResult.supportResponseId
                        SynthesisResult.opposeResponseId]; eauto. }
      destruct Hresp as [(_ & _ & Hresp)|(e & reached & _ & _ & Hresp)].
      * pose proof (consistent_updateMany
                      [_id (Resolver.support found);
                       _id (Resolver.oppose found)]
                      (spawned w') Hadd) as Hupd.
        cbn [responses results next_oid] in Hupd.
        eapply consistent_ext; eauto.
      * pose proof (consistent_updateMany
                      (filter (fun id => existsb (N.eqb id) reached)
                         [_id (Resolver.support found);
                          _id (Resolver.oppose found)])
                      (spawned w') Hadd) as Hupd.
        cbn [responses results next_oid] in Hupd.
        eapply consistent_ext; eauto.
  - pose proof (@saveBoth_effect sid eid supportReasoning opposeReasoning subj
                  now1 now2 w (ids_issued Hc)) as He.
    cbv zeta in He.
    destruct He as [->|[(-> & Hs & He & Hsr & Hsu)
                       |(-> & Hs & He & Hsr & Hor & Hsu)]]; simpl; auto.
    + apply consistent_add_response; auto. now left.
    + now apply consistent_add_pair.
  - destruct (saveGeminiResponse_effect sid eid type text subj now w)
      as [->|(-> & Hty & Hs & He & Ht & Hsu)]; simpl; auto.
    now apply consistent_add_response.
  - unfold ResponseService.markAsSynthesized.
    destruct (castObjectId responseId); simpl; auto.
    now apply consistent_updateById.
Qed.

Lemma reachable_consistent w : System.reachable w -> consistent w.
Proof.
  induction 1 as [|w w' _ IH Hstep].
  - apply consistent_empty.
  - eapply step_consistent; eauto.
Qed.

End ConsistencyFacts.

(** ** Tokens and ids *)

Section TokenFacts.

Lemma hex_char_facts d :
  (d < 16)%N ->
  Str.hex_digit (ObjectId.hex_char d) = Some d
  /\ Ascii.eqb (ObjectId.hex_char d) "_" = false
  /\ Str.startsWith "pair_" (String (ObjectId.hex_char d) "") = false
  /\ (forall rest, Str.startsWith "pair_" (String (ObjectId.hex_char d) rest)
                   = false).
Proof.
  intros Hd.
  assert (Hin : In d [0; 1; 2; 3; 4; 5; 6; 7; 8; 9; 10; 11; 12; 13; 14; 15]%N).
  { destruct d as [|p]; [now left|].
    do 4 (destruct p as [p|p|]; try (simpl; tauto)); lia. }
  simpl in Hin.
  repeat (destruct Hin as [<-|Hin]; [repeat split|]); try contradiction.
Qed.

Lemma hex_digits_length k n : String.length (ObjectId.hex_digits k n) = k.
Proof. induction k as [|k IH]; simpl; auto. Qed.

Lemma hex_digits_value k : forall n acc,
  Str.numeral 16 Str.hex_digit acc (ObjectId.hex_digits k n)
  = Some (acc * 16 ^ N.of_nat k + n mod 16 ^ N.of_nat k)%N.
Proof.
  induction k as [|k IH]; intros n acc.
  - simpl. rewrite N.mod_1_r. f_equal. lia.
  - cbn [ObjectId.hex_digits Str.numeral].
    destruct (@hex_char_facts ((n / 16 ^ N.of_nat k) mod 16)%N) as [-> _].
    { apply N.mod_lt. discriminate. }
    rewrite IH. f_equal.
    rewrite Nat2N.inj_succ, N.pow_succ_r'.
    rewrite (N.mul_comm 16 (16 ^ N.of_nat k)).
    rewrite N.Div0.mod_mul_r. lia.
Qed.

Lemma castObjectId_toString id :
  (id < ObjectId.bound)%N -> castObjectId (ObjectId.toString id) = Some id.
Proof.
  intros H. unfold castObjectId, ObjectId.toString.
  rewrite hex_digits_length. simpl Nat.eqb. cbv iota.
  rewrite hex_digits_value. f_equal.
  rewrite N.mul_0_l, N.add_0_l. apply N.mod_small. exact H.
Qed.

Lemma hex_digits_no_underscore k n :
  Str.includes "_" (ObjectId.hex_digits k n) = false.
Proof.
  induction k as [|k IH]; simpl; auto.
  destruct (@hex_char_facts ((n / 16 ^ N.of_nat k) mod 16)%N) as (_ & -> & _).
  { apply N.mod_lt. discriminate. }
  exact IH.
Qed.

Lemma toString_not_legacy id rest :
  Str.startsWith "pair_" (ObjectId.toString id ++ rest) = false.
Proof.
  unfold ObjectId.toString.
  change (ObjectId.hex_digits 24 id)
    with (String (ObjectId.hex_char ((id / 16 ^ N.of_nat 23) mod 16)%N)
            (ObjectId.hex_digits 23 id)).
  cbn [String.append].
  apply hex_char_facts. apply N.mod_lt. discriminate.
Qed.

Lemma split_plain c s : Str.includes c s = false -> Str.split c s = [s].
Proof.
  induction s as [|a s IH]; simpl; auto.
  destruct (Ascii.eqb a c); simpl; [discriminate|].
  intros H. now rewrite IH.
Qed.

Lemma split_two c a b :
  Str.includes c a = false -> Str.includes c b = false ->
  Str.split c (a ++ String c b) = [a; b].
Proof.
  intros Ha Hb. induction a as [|x a IH]; simpl.
  - rewrite Ascii.eqb_refl. now rewrite split_plain.
  - simpl in Ha. destruct (Ascii.eqb x c); [discriminate|].
    simpl in Ha. now rewrite IH.
Qed.

Lemma includes_middle c a b : Str.includes c (a ++ String c b) = true.
Proof.
  induction a as [|x a IH]; simpl.
  - now rewrite Ascii.eqb_refl.
  - rewrite IH. apply orb_true_r.
Qed.

Lemma unique_id_eq coll x y :
  NoDup (map _id coll) -> In x coll -> In y coll -> _id x = _id y -> x = y.
Proof.
  induction coll as [|h coll IH]; simpl; intros Hnd Hx Hy Heq; [contradiction|].
  inversion Hnd as [|? ? Hnin Hnd']; subst.
  destruct Hx as [<-|Hx], Hy as [<-|Hy]; auto.
  - exfalso. apply Hnin. rewrite Heq. now apply in_map.
  - exfalso. apply Hnin. rewrite <- Heq. now apply in_map.
Qed.

Lemma by_id_unique coll d :
  NoDup (map _id coll) -> In d coll -> Store.by_id (_id d) coll = Some d.
Proof.
  intros Hnd Hin. unfold Store.by_id.
  destruct (find (fun x => (_id x =? _id d)%N) coll) as [x|] eqn:E.
  - apply find_some in E. destruct E as [Hx Heq]. apply N.eqb_eq in Heq.
    f_equal. eapply unique_id_eq; eauto.
  - pose proof (find_none _ _ E d Hin) as Hno. simpl in Hno.
    rewrite N.eqb_refl in Hno. discriminate.
Qed.

Lemma filter_at_most_one (f : doc -> bool) coll :
  NoDup (map _id coll) ->
  (forall x y, In x (filter f coll) -> In y (filter f coll) -> _id x = _id y) ->
  (List.length (filter f coll) <= 1)%nat.
Proof.
  induction coll as [|h coll IH]; simpl; intros Hnd Hsame; auto.
  inversion Hnd as [|? ? Hnin Hnd']; subst.
  destruct (f h) eqn:Hf.
  - destruct (filter f coll) as [|y rest] eqn:E; simpl; auto.
    exfalso. apply Hnin.
    assert (Hy : In y (filter f coll)) by (rewrite E; now left).
    rewrite (Hsame h y) by (simpl; auto).
    apply in_map. now apply filter_In in Hy.
  - apply IH; auto.
Qed.

(** A pairing key is carried by at most one response. *)
Lemma key_carried_once w k :
  Consistency.consistent w ->
  (List.length (filter (Store.pair_key_is k) (responses w)) <= 1)%nat.
Proof.
  intros Hc. apply filter_at_most_one; [apply (Consistency.ids_unique Hc)|].
  intros x y Hx Hy. apply filter_In in Hx, Hy.
  destruct Hx as [Hx Hkx], Hy as [Hy Hky].
  unfold Store.pair_key_is in Hkx, Hky.
  destruct (synthesisPairId x) as [kx|] eqn:Ex; [|discriminate].
  destruct (synthesisPairId y) as [ky|] eqn:Ey; [|discriminate].
  apply N.eqb_eq in Hkx, Hky. subst kx ky.
  destruct (@Consistency.links_mutual w Hc x Hx k Ex) as (x' & Hx' & Hix & Hkx' & _).
  destruct (@Consistency.links_mutual w Hc y Hy k Ey) as (y' & Hy' & Hiy & Hky' & _).
  assert (x' = y')
    by (eapply unique_id_eq; eauto using Consistency.ids_unique; congruence).
  subst y'. congruence.
Qed.

End TokenFacts.

Section HistoryFacts.
Import Consistency.
Context {D : SynthesisResult.Driver}.


Lemma filter_both_shorter (A : Type) (f g : A -> bool) l :
  (List.length (filter (fun x => g x && f x) l)
   <= List.length (filter f l))%nat.
Proof.
  induction l as [|x l IH]; simpl; auto.
  destruct (g x), (f x); simpl; lia.
Qed.

Lemma cross_reference_silent w token :
  consistent w ->
  Resolver.succeeds
    (@Resolver.cross_reference_form (Store.model (responses w))) token = None.
Proof.
  intros Hc. rewrite cross_reference_block. simpl.
  destruct (castObjectId token) as [k|]; auto.
  pose proof (@key_carried_once w k Hc) as Hlen.
  destruct (List.length (filter (Store.pair_key_is k) (responses w)) =? 2)%nat
    eqn:E; auto.
  apply Nat.eqb_eq in E. lia.
Qed.

Lemma toString_plain id :
  Str.includes "_" (ObjectId.toString id) = false
  /\ Str.startsWith "pair_" (ObjectId.toString id) = false.
Proof.
  split; [apply hex_digits_no_underscore|].
  unfold ObjectId.toString.
  change (ObjectId.hex_digits 24 id)
    with (String (ObjectId.hex_char ((id / 16 ^ N.of_nat 23) mod 16)%N)
            (ObjectId.hex_digits 23 id)).
  apply hex_char_facts. apply N.mod_lt. discriminate.
Qed.

Lemma store_find_string w d :
  consistent w -> (next_oid w <= ObjectId.bound)%N -> In d (responses w) ->
  @findById (Store.model (responses w)) (IdStr (ObjectId.toString (_id d)))
  = Ok (Some d).
Proof.
  intros Hc Hb Hin. simpl.
  rewrite castObjectId_toString.
  - now rewrite (@by_id_unique (responses w) d (ids_unique Hc) Hin).
  - pose proof (@ids_issued w Hc d Hin). lia.
Qed.

Lemma store_find_id w d :
  consistent w -> In d (responses w) ->
  @findById (Store.model (responses w)) (IdObj (_id d)) = Ok (Some d).
Proof.
  intros Hc Hin. simpl.
  now rewrite (@by_id_unique (responses w) d (ids_unique Hc) Hin).
Qed.

End HistoryFacts.

(** X6: in every world the service can reach, the stored responses have
    pairwise different ids, each is a support or an oppose response whose
    synthesis status is pending or synthesized (never archived), and a
    response that carries a pairing key is pointed back at by the stored
    response of that id, which is of the other agent type. *)
Theorem reachable_responses_are_linked {D : SynthesisResult.Driver}
  (w : World) :
  System.reachable w ->
  NoDup (map _id (responses w))
  /\ forall d, In d (responses w) ->
       (agentType d = "support" \/ agentType d = "oppose")
       /\ (synthesisStatus d = "pending" \/ synthesisStatus d = "synthesized")
       /\ synthesisStatus d <> "archived"
       /\ forall k, synthesisPairId d = Some k ->
            exists d', In d' (responses w) /\ _id d' = k
                       /\ synthesisPairId d' = Some (_id d)
                       /\ agentType d' <> agentType d.
Proof.
  intros Hreach. pose proof (reachable_consistent Hreach) as Hc.
  split; [apply (Consistency.ids_unique Hc)|].
  intros d Hd.
  split; [apply (@Consistency.types_known w Hc d Hd)|].
  pose proof (@Consistency.statuses_known w Hc d Hd) as Hst.
  split; [exact Hst|].
  split; [destruct Hst as [-> | ->]; discriminate|].
  apply (@Consistency.links_mutual w Hc d Hd).
Qed.

Lemma paired_world_reachable : @System.reachable schema_driver paired_world.
Proof.
  unfold paired_world.
  eapply System.reach_step; [|apply System.step_pair].
  apply System.reach_empty.
Qed.

Lemma reachable_responses_are_linked_witness :
  exists d', In d' (responses paired_world) /\ _id d' = 1%N
             /\ synthesisPairId d' = Some (_id support_doc)
             /\ agentType d' <> agentType support_doc.
Proof.
  destruct (@reachable_responses_are_linked schema_driver paired_world
              paired_world_reachable) as [_ Hall].
  destruct (Hall support_doc) as (_ & _ & _ & Hlink).
  - vm_compute. left. reflexivity.
  - apply (Hlink 1%N). reflexivity.
Defined.



(** X8: in every world the service can reach, a pairing-key value is
    carried by at most one response; so the cross-reference form of the
    resolver never yields a pair there, and [findPairsForSynthesis] lists
    nothing. *)
Theorem pairing_keys_are_never_shared {D : SynthesisResult.Driver}
  (w : World) :
  System.reachable w ->
  (forall k,
     (List.length (filter (Store.pair_key_is k) (responses w)) <= 1)%nat)
  /\ (forall token,
        Resolver.succeeds
          (@Resolver.cross_reference_form (Store.model (responses w))) token
        = None)
  /\ (forall parsedLimit pairs,
        Controller.findPairsForSynthesis parsedLimit w = Controller.Json pairs ->
        pairs = []).
Proof.
  intros Hreach. pose proof (reachable_consistent Hreach) as Hc.
  split; [intros k; now apply key_carried_once|].
  split; [intros token; now apply cross_reference_silent|].
  intros parsedLimit pairs. unfold Controller.findPairsForSynthesis.
  destruct (Controller.limit_of parsedLimit <=? 0)%Z; [discriminate|].
  intros H. injection H as <-.
  destruct (Controller.aggregate _ (responses w)) as [|e rest] eqn:E; auto.
  exfalso.
  assert (Hin : In e (Controller.aggregate
                        (Z.to_nat (Controller.limit_of parsedLimit))
                        (responses w))) by (rewrite E; now left).
  unfold Controller.aggregate in Hin. apply firstn_in in Hin.
  apply in_unlimited in Hin. destruct Hin as (members & -> & Hlen & _).
  pose proof (@key_carried_once w (Controller.pairId e) Hc) as Hone.
  pose proof (filter_both_shorter (Store.pair_key_is (Controller.pairId e))
                Controller.awaiting (responses w)) as Hle.
  unfold Controller.pending_group in Hlen. lia.
Qed.

Lemma pairing_keys_are_never_shared_witness :
  Controller.findPairsForSynthesis (Some 10%Z) paired_world
  = Controller.Json [].
Proof.
  destruct (@pairing_keys_are_never_shared schema_driver paired_world
              paired_world_reachable) as (_ & _ & Hlist).
  destruct (Controller.findPairsForSynthesis (Some 10%Z) paired_world)
    as [pairs|msg|e] eqn:E; try (vm_compute in E; discriminate E).
  now rewrite (Hlist _ _ E).
Defined.

(** X9: in every world the service can reach (with ids within the ObjectId
    range), the three token forms that name a linked pair resolve to the same
    pair: the split token the front end builds from the two ids, the support
    response's id alone and the oppose response's id alone. *)
Theorem token_forms_resolve_alike {D : SynthesisResult.Driver} (w : World)
  (s o : doc) :
  System.reachable w ->
  (next_oid w <= ObjectId.bound)%N ->
  In s (responses w) -> In o (responses w) ->
  agentType s = "support" ->
  synthesisPairId s = Some (_id o) ->
  let pair := {| Resolver.support := s; Resolver.oppose := o |} in
  @Resolver._findPairedResponses (Store.model (responses w))
    (pairToken (_id s) (_id o)) = Ok pair
  /\ @Resolver._findPairedResponses (Store.model (responses w))
       (ObjectId.toString (_id s)) = Ok pair
  /\ @Resolver._findPairedResponses (Store.model (responses w))
       (ObjectId.toString (_id o)) = Ok pair.
Proof.
  intros Hreach Hb Hs Ho Hty Hkey pair.
  pose proof (reachable_consistent Hreach) as Hc.
  assert (Hback : synthesisPairId o = Some (_id s) /\ agentType o <> "support").
  { destruct (@Consistency.links_mutual w Hc s Hs _ Hkey)
      as (o' & Ho' & Hid & Hk & Hne).
    assert (o' = o)
      by (eapply unique_id_eq; eauto using Consistency.ids_unique).
    subst o'. split; congruence. }
  destruct Hback as [Hkey' Hty'].
  destruct (toString_plain (_id s)) as [Hus Hls].
  destruct (toString_plain (_id o)) as [Huo Hlo].
  rewrite !resolver_refines_chain. unfold Resolver.resolve, pair.
  split; [|split].
  - unfold Resolver.strategies, Resolver.first_success.
    rewrite split_block. unfold pairToken. cbn [String.append].
    rewrite includes_middle, toString_not_legacy.
    cbn [negb andb]. rewrite split_two by assumption.
    rewrite !store_find_string by assumption. reflexivity.
  - unfold Resolver.strategies, Resolver.first_success.
    rewrite split_block, legacy_block, Hus, Hls. cbn [andb].
    rewrite cross_reference_silent by assumption.
    rewrite single_id_block.
    rewrite store_find_string by assumption. rewrite Hkey.
    rewrite store_find_id by assumption. rewrite Hty. reflexivity.
  - unfold Resolver.strategies, Resolver.first_success.
    rewrite split_block, legacy_block, Huo, Hlo. cbn [andb].
    rewrite cross_reference_silent by assumption.
    rewrite single_id_block.
    rewrite store_find_string by assumption. rewrite Hkey'.
    rewrite store_find_id by assumption.
    destruct (agentType o =? "support") eqn:E; [|reflexivity].
    apply String.eqb_eq in E. contradiction.
Qed.

Lemma token_forms_resolve_alike_witness :
  @Resolver._findPairedResponses (Store.model (responses paired_world))
    (ObjectId.toString (_id oppose_doc))
  = Ok {| Resolver.support := support_doc; Resolver.oppose := oppose_doc |}.
Proof.
  refine (proj2 (proj2 (@token_forms_resolve_alike schema_driver paired_world
                          support_doc oppose_doc paired_world_reachable
                          _ _ _ eq_refl eq_refl))).
  - vm_compute. discriminate.
  - vm_compute. left. reflexivity.
  - vm_compute. right. left. reflexivity.
Defined.

(** ** Sorted answers *)

Section OrderingFacts.
Variables (A : Type) (leb : A -> A -> bool).





End OrderingFacts.

Section NewestFirst.
Variables (A : Type) (key : A -> Z).





End NewestFirst.

Section LimitFacts.
Context {C : Ordering.Cursor}.



End LimitFacts.

(** ** The pair of a session *)

Section PairOfSession.
Import Reading.








Lemma find_none_all (P : doc -> bool) l :
  Forall (fun d => P d = false) l -> find P l = None.
Proof.
  induction 1 as [|x l Hx Hl IH]; simpl; auto. now rewrite Hx.
Qed.



End PairOfSession.

Section PairAnswer.
Import Reading.




End PairAnswer.



(** ** The newest responses and results *)

Section Listings.
Context {C : Ordering.Cursor}.
Variables (A : Type) (key : A -> Z).




End Listings.

Section Populated.
Context {D : SynthesisResult.Driver}.
Import Consistency.


End Populated.





(** ** Marking a response *)

Section Marking.

Lemma updateById_ids id st now coll :
  map _id (Store.updateById id st now coll) = map _id coll.
Proof.
  unfold Store.updateById. rewrite map_map. apply map_ext.
  intros d. now destruct (_id d =? id)%N.
Qed.

Lemma updateById_other id st now coll d :
  In d coll -> _id d <> id -> In d (Store.updateById id st now coll).
Proof.
  intros Hin Hne. unfold Store.updateById. apply in_map_iff. exists d.
  split; [|exact Hin].
  destruct (_id d =? id)%N eqn:E; [|reflexivity].
  apply N.eqb_eq in E. contradiction.
Qed.

Lemma updateById_hit id st now coll d' :
  In d' (Store.updateById id st now coll) -> _id d' = id ->
  exists d, In d coll /\ _id d = id /\ d' = Store.with_update st now d.
Proof.
  unfold Store.updateById. intros Hin Hid. apply in_map_iff in Hin.
  destruct Hin as (d0 & Heq & Hd0).
  destruct (_id d0 =? id)%N eqn:E.
  - apply N.eqb_eq in E. exists d0. auto.
  - subst d'. rewrite Hid, N.eqb_refl in E. discriminate.
Qed.

Lemma by_id_none id coll :
  Store.by_id id coll = None -> forall d, In d coll -> _id d <> id.
Proof.
  unfold Store.by_id. intros H d Hd Heq.
  pose proof (find_none _ _ H d Hd) as Hno. simpl in Hno.
  rewrite Heq, N.eqb_refl in Hno. discriminate.
Qed.

End Marking.

(** X13: [markAsSynthesized] rejects an id that is not an ObjectId with the
    cast error and changes nothing; for a well-formed id it answers with the
    stored response of that id carrying the status synthesized and the time
    of the call as its time of update, or with nothing when no response has
    that id; it touches only the responses of that id, of which it changes
    the status and the time of update and nothing else, keeps the ids and
    the results as they are, and afterwards no response of that id awaits
    synthesis. *)
Theorem markAsSynthesized_touches_one_response (responseId : string)
  (now : Z) (w : World) :
  let out := ResponseService.markAsSynthesized responseId now w in
  let w' := snd out in
  results w' = results w
  /\ next_oid w' = next_oid w
  /\ spawned w' = spawned w
  /\ map _id (responses w') = map _id (responses w)
  /\ match castObjectId responseId with
     | None => fst out = Throw CastError /\ w' = w
     | Some id =>
         (forall d, In d (responses w) -> _id d <> id -> In d (responses w'))
         /\ (forall d', In d' (responses w') -> _id d' = id ->
               Controller.awaiting d' = false
               /\ synthesisStatus d' = "synthesized"
               /\ updatedAt d' = Written now
               /\ exists d, In d (responses w) /\ _id d = id
                            /\ d' = Store.with_update "synthesized" now d
                            /\ sessionId d' = sessionId d
                            /\ evidenceId d' = evidenceId d
                            /\ agentType d' = agentType d
                            /\ reasoning d' = reasoning d
                            /\ subject d' = subject d
                            /\ synthesisPairId d' = synthesisPairId d
                            /\ createdAt d' = createdAt d)
         /\ ((fst out = Ok None
              /\ responses w' = responses w
              /\ forall d, In d (responses w) -> _id d <> id)
             \/ exists d, In d (responses w) /\ _id d = id
                          /\ fst out
                             = Ok (Some (Store.with_update "synthesized" now
                                           d))
                          /\ In (Store.with_update "synthesized" now d)
                               (responses w'))
     end.
Proof.
  intros out w'. unfold w', out, ResponseService.markAsSynthesized.
  destruct (castObjectId responseId) as [id|]; cbn [fst snd];
    [|repeat split; reflexivity].
  cbn [responses results next_oid spawned].
  split; [reflexivity|]. split; [reflexivity|]. split; [reflexivity|].
  split; [apply updateById_ids|].
  split; [intros d Hd Hne; now apply updateById_other|].
  split.
  - intros d' Hd' Hid.
    destruct (updateById_hit _ _ _ _ Hd' Hid) as (d & Hd & Hdid & ->).
    split; [unfold Controller.awaiting; simpl; now destruct (synthesisPairId d)|].
    split; [reflexivity|]. split; [reflexivity|].
    exists d. repeat split; auto.
  - destruct (Store.by_id id (responses w)) as [d|] eqn:E.
    + right. exists d. apply by_id_in in E. destruct E as [Hd Hid].
      split; [exact Hd|]. split; [exact Hid|]. split; [reflexivity|].
      unfold Store.updateById. apply in_map_iff. exists d.
      split; [|exact Hd]. now rewrite Hid, N.eqb_refl.
    + left. split; [reflexivity|].
      pose proof (@by_id_none id (responses w) E) as Hno. split; [|exact Hno].
      unfold Store.updateById. rewrite <- (map_id (responses w)) at 2.
      apply map_ext_in. intros d Hd.
      destruct (_id d =? id)%N eqn:Heq; [|reflexivity].
      apply N.eqb_eq in Heq. now apply Hno in Hd.
Qed.

(** ** Reading results back *)

Section ResultListings.




End ResultListings.



(** ** Statistics *)

Section Statistics.







End Statistics.


(** ** The view of one result *)

Section Views.

Lemma length_append (a b : string) :
  String.length (a ++ b)%string = (String.length a + String.length b)%nat.
Proof. induction a as [|c a IH]; simpl; auto. Qed.

Lemma take_length n s : (String.length (Ordering.take n s) <= n)%nat.
Proof.
  revert s. induction n as [|n IH]; intros [|c s]; simpl; try lia.
  specialize (IH s). lia.
Qed.






Lemma findOne_some_key pairId coll :
  In pairId (map SynthesisResult.synthesisPairId coll) ->
  SynthesisResult.findOne pairId coll <> None.
Proof.
  intros Hin Hno. now apply findOne_none_key in Hno.
Qed.

End Views.




(** ** Saving a pair *)

Section SavingPairs.
Import Consistency.

Lemma required_filled s : s <> "" -> SynthesisResult.required s = true.
Proof.
  intros H. unfold SynthesisResult.required.
  destruct (s =? "") eqn:E; [|reflexivity].
  apply String.eqb_eq in E. contradiction.
Qed.

Lemma required_empty : SynthesisResult.required "" = false.
Proof. reflexivity. Qed.

Lemma saveGeminiResponse_valid sid eid type text subj now w :
  sid <> "" -> eid <> "" -> type = "support" \/ type = "oppose" ->
  text <> "" -> subj <> "" ->
  ResponseService.saveGeminiResponse sid eid type text subj now w
  = (Ok (new_response (next_oid w) sid eid type text subj now),
     {| responses := responses w
                     ++ [new_response (next_oid w) sid eid type text subj now];
        results := results w;
        next_oid := N.succ (next_oid w);
        spawned := spawned w |}).
Proof.
  intros Hs He Ht Hx Hj. unfold ResponseService.saveGeminiResponse.
  rewrite !required_filled by assumption.
  destruct Ht as [-> | ->]; reflexivity.
Qed.

Lemma saveGeminiResponse_invalid sid eid type text subj now w :
  sid = "" \/ eid = "" \/ text = "" \/ subj = "" ->
  ResponseService.saveGeminiResponse sid eid type text subj now w
  = (Throw ValidationError, w).
Proof.
  unfold ResponseService.saveGeminiResponse.
  intros [-> | [-> | [-> | ->]]]; rewrite required_empty;
    rewrite ?andb_false_r; reflexivity.
Qed.

End SavingPairs.

(** X18: [saveBothGeminiResponses] is not all-or-nothing.  When the session,
    the evidence id, the support reasoning or the subject is empty it throws
    the validation error and stores nothing; when these are filled and the
    oppose reasoning is empty it throws as well, but the support response it
    had already saved stays stored, pending and without a pairing key; when
    all five are filled it stores the two responses, linked to each other. *)
Theorem saveBoth_may_leave_support_alone
  (sid eid sr or subj : string) (n1 n2 : Z) (w : World) :
  (forall d, In d (responses w) -> (_id d < next_oid w)%N) ->
  let out :=
    ResponseService.saveBothGeminiResponses sid eid sr or subj n1 n2 w in
  let s0 :=
    Consistency.new_response (next_oid w) sid eid "support" sr subj n1 in
  let o0 :=
    Consistency.new_response (N.succ (next_oid w)) sid eid "oppose" or subj
      n2 in
  (sid = "" \/ eid = "" \/ sr = "" \/ subj = "" ->
   out = (Throw ValidationError, w))
  /\ (sid <> "" -> eid <> "" -> sr <> "" -> subj <> "" ->
      (or = "" ->
       fst out = Throw ValidationError
       /\ responses (snd out) = responses w ++ [s0]
       /\ results (snd out) = results w
       /\ synthesisStatus s0 = "pending" /\ synthesisPairId s0 = None)
      /\ (or <> "" ->
          fst out = Ok (Store.with_pair (_id o0) s0, Store.with_pair (_id s0) o0)
          /\ responses (snd out)
             = responses w
               ++ [Store.with_pair (_id o0) s0; Store.with_pair (_id s0) o0]
          /\ results (snd out) = results w)).
Proof.
  intros Hold out s0 o0. split.
  - intros Hbad. unfold out, ResponseService.saveBothGeminiResponses, Service.bind.
    now rewrite saveGeminiResponse_invalid.
  - intros Hs He Hr Hj. split.
    + intros ->. unfold out, ResponseService.saveBothGeminiResponses, Service.bind.
      rewrite saveGeminiResponse_valid by auto.
      rewrite saveGeminiResponse_invalid by auto.
      cbn [fst snd responses results]. auto.
    + intros Ho.
      destruct (saveBoth_effect sid eid sr or subj n1 n2 w Hold)
        as [H|[[H _]|[H _]]]; fold out in H.
      * exfalso. unfold out, ResponseService.saveBothGeminiResponses, Service.bind in H.
        rewrite saveGeminiResponse_valid in H by auto.
        rewrite saveGeminiResponse_valid in H by auto.
        discriminate H.
      * exfalso. unfold out, ResponseService.saveBothGeminiResponses, Service.bind in H.
        rewrite saveGeminiResponse_valid in H by auto.
        rewrite saveGeminiResponse_valid in H by auto.
        discriminate H.
      * rewrite H. cbn [fst snd responses results]. auto.
Qed.

Lemma saveBoth_may_leave_support_alone_witness :
  fst (ResponseService.saveBothGeminiResponses "s1" "e1" "Yes. [Chunk 1]" ""
         "Remote work" 100%Z 101%Z empty_world) = Throw ValidationError
  /\ responses
       (snd (ResponseService.saveBothGeminiResponses "s1" "e1"
               "Yes. [Chunk 1]" "" "Remote work" 100%Z 101%Z empty_world))
     = [Consistency.new_response 0%N "s1" "e1" "support" "Yes. [Chunk 1]"
          "Remote work" 100%Z].
Proof.
  destruct (@saveBoth_may_leave_support_alone "s1" "e1" "Yes. [Chunk 1]" ""
              "Remote work" 100%Z 101%Z empty_world) as [_ H].
  - intros d [].
  - destruct H as [H _]; try discriminate.
    destruct (H eq_refl) as (H1 & H2 & _). split; [exact H1|exact H2].
Defined.

(** ** Citations *)

Section CitationFacts.
Import Citations.

Lemma includes_append c a b :
  Str.includes c (a ++ b) = Str.includes c a || Str.includes c b.
Proof.
  induction a as [|x a IH]; simpl; auto. rewrite IH. apply orb_assoc.
Qed.

Lemma append_assoc (a b c : string) :
  ((a ++ b) ++ c = a ++ (b ++ c))%string.
Proof. induction a as [|x a IH]; simpl; congruence. Qed.

Lemma span_append p s : s = (fst (span p s) ++ snd (span p s))%string.
Proof.
  induction s as [|c s IH]; simpl; auto.
  destruct (p c); [|reflexivity].
  destruct (span p s) as [run after]. simpl in *. now rewrite <- IH.
Qed.

Lemma span_excludes p c s :
  p c = false -> Str.includes c (fst (span p s)) = false.
Proof.
  intros Hc. induction s as [|x s IH]; simpl; auto.
  destruct (p x) eqn:E; [|reflexivity].
  destruct (span p s) as [run after]. simpl in *. rewrite IH.
  destruct (Ascii.eqb x c) eqn:Ex; [|reflexivity].
  apply Ascii.eqb_eq in Ex. congruence.
Qed.

Lemma prefix_cons a p b s :
  String.prefix (String a p) (String b s)
  = if Ascii.eqb a b then String.prefix p s else false.
Proof.
  change (String.prefix (String a p) (String b s))
    with (match ascii_dec a b with
          | left _ => String.prefix p s
          | right _ => false
          end).
  destruct (ascii_dec a b) as [->|Hne].
  - now rewrite Ascii.eqb_refl.
  - destruct (Ascii.eqb a b) eqn:E; [|reflexivity].
    apply Ascii.eqb_eq in E. contradiction.
Qed.

Lemma prefix_split p : forall s,
  String.prefix p s = true -> s = (p ++ drop (String.length p) s)%string.
Proof.
  induction p as [|a p IH]; intros s H.
  - reflexivity.
  - destruct s as [|b s]; [discriminate|].
    rewrite prefix_cons in H.
    destruct (Ascii.eqb a b) eqn:E; [|discriminate].
    apply Ascii.eqb_eq in E. subst b. simpl. f_equal. now apply IH.
Qed.

Lemma prefix_chunk s :
  String.prefix "[Chunk" s = true -> s = ("[Chunk" ++ drop 6 s)%string.
Proof. apply (prefix_split "[Chunk"). Qed.

(** The shape of a match. *)
Lemma match_at_shape s w g :
  match_at s = Some (w, g) ->
  exists spaces rest,
    s = ("[Chunk" ++ spaces ++ g ++ "]" ++ rest)%string
    /\ w = (6 + String.length spaces + String.length g + 1)%nat
    /\ g <> ""
    /\ Str.includes "[" spaces = false
    /\ Str.includes "[" g = false.
Proof.
  unfold match_at.
  destruct (String.prefix "[Chunk" s) eqn:Hp; [|discriminate].
  apply prefix_chunk in Hp.
  set (tail := drop 6 s) in *.
  pose proof (span_append is_space tail) as H1.
  pose proof (span_excludes is_space "[" tail eq_refl) as E1.
  destruct (span is_space tail) as [spaces s1].
  cbn [fst snd] in H1, E1.
  pose proof (span_append is_digit s1) as H2.
  pose proof (span_excludes is_digit "[" s1 eq_refl) as E2.
  destruct (span is_digit s1) as [digits s2].
  cbn [fst snd] in H2, E2.
  destruct digits as [|d digits]; [discriminate|].
  destruct s2 as [|c rest]; [discriminate|].
  destruct (Ascii.eqb c "]") eqn:Hc; [|discriminate].
  apply Ascii.eqb_eq in Hc. subst c.
  intros H. injection H as <- <-.
  exists spaces, rest. split.
  - rewrite Hp, H1, H2. reflexivity.
  - repeat split; auto. discriminate.
Qed.

Lemma match_at_width s w g :
  match_at s = Some (w, g) -> (8 <= w <= String.length s)%nat.
Proof.
  intros H. apply match_at_shape in H.
  destruct H as (spaces & rest & -> & -> & Hg & _).
  rewrite !length_append. simpl.
  destruct g; [contradiction|]. simpl. lia.
Qed.

Lemma no_match_inside pre s : forall j,
  Str.includes "[" pre = false -> (j < String.length pre)%nat ->
  match_at (drop j (pre ++ s)) = None.
Proof.
  induction pre as [|c pre IH]; simpl; intros j Hpre Hj; [lia|].
  apply orb_false_iff in Hpre. destruct Hpre as [Hc Hpre].
  destruct j as [|j]; simpl.
  - unfold match_at. rewrite prefix_cons.
    destruct (Ascii.eqb "[" c) eqn:E; [|reflexivity].
    apply Ascii.eqb_eq in E. subst c. discriminate.
  - apply IH; auto. lia.
Qed.

(** Two matches do not overlap. *)
Lemma matches_apart s w g j :
  match_at s = Some (w, g) -> (0 < j < w)%nat -> match_at (drop j s) = None.
Proof.
  intros H Hj. apply match_at_shape in H.
  destruct H as (spaces & rest & -> & -> & Hg & Hs & Hd).
  destruct j as [|j]; [lia|].
  change (drop (S j) ("[Chunk" ++ spaces ++ g ++ "]" ++ rest))
    with (drop j ("Chunk" ++ spaces ++ g ++ "]" ++ rest)).
  replace ("Chunk" ++ spaces ++ g ++ "]" ++ rest)%string
    with (("Chunk" ++ spaces ++ g ++ "]") ++ rest)%string.
  2:{ simpl. do 5 f_equal. now rewrite !append_assoc. }
  apply no_match_inside.
  - rewrite !includes_append, Hs, Hd. reflexivity.
  - rewrite !length_append. simpl. lia.
Qed.

Lemma drop_nil j : drop j "" = "".
Proof. now destruct j. Qed.

Lemma exec_all_sound s : forall at_ skip m,
  In m (exec_all at_ skip s) ->
  (at_ + skip <= index m)%nat
  /\ (index m + width m <= at_ + String.length s)%nat
  /\ match_at (drop (index m - at_) s) = Some (width m, group m).
Proof.
  induction s as [|c s IH]; simpl; intros at_ skip m Hm; [contradiction|].
  destruct skip as [|k].
  - destruct (match_at (String c s)) as [[w g]|] eqn:E.
    + destruct Hm as [<-|Hm]; simpl.
      * pose proof (match_at_width _ E) as Hw. simpl in Hw.
        rewrite Nat.sub_diag. simpl. split; [lia|]. split; [lia|exact E].
      * pose proof (match_at_width _ E) as Hw.
        destruct (IH _ _ _ Hm) as (H1 & H2 & H3).
        split; [lia|]. split; [lia|].
        replace (index m - at_)%nat with (S (index m - S at_)) by lia.
        exact H3.
    + destruct (IH _ _ _ Hm) as (H1 & H2 & H3).
      split; [lia|]. split; [lia|].
      replace (index m - at_)%nat with (S (index m - S at_)) by lia.
      exact H3.
  - destruct (IH _ _ _ Hm) as (H1 & H2 & H3).
    split; [lia|]. split; [lia|].
    replace (index m - at_)%nat with (S (index m - S at_)) by lia.
    exact H3.
Qed.

Lemma exec_all_complete s : forall at_ skip j w g,
  (skip <= j)%nat ->
  match_at (drop j s) = Some (w, g) ->
  In {| index := at_ + j; group := g; width := w |} (exec_all at_ skip s).
Proof.
  induction s as [|c s IH]; intros at_ skip j w g Hj Hm.
  - rewrite drop_nil in Hm. discriminate.
  - simpl. destruct skip as [|k].
    + destruct j as [|j].
      * simpl in Hm. rewrite Hm. left. f_equal. lia.
      * destruct (match_at (String c s)) as [[w0 g0]|] eqn:E.
        -- right.
           assert (Hfar : (w0 <= S j)%nat).
           { destruct (Nat.le_gt_cases w0 (S j)) as [H|H]; auto.
             rewrite (@matches_apart _ _ _ (S j) E) in Hm by lia.
             discriminate. }
           replace (at_ + S j)%nat with (S at_ + j)%nat by lia.
           apply IH; [lia|exact Hm].
        -- replace (at_ + S j)%nat with (S at_ + j)%nat by lia.
           apply IH; [lia|exact Hm].
    + destruct j as [|j]; [lia|].
      replace (at_ + S j)%nat with (S at_ + j)%nat by lia.
      apply IH; [lia|exact Hm].
Qed.

Lemma exec_all_apart s : forall at_ skip,
  StronglySorted (fun a b => (index a + width a <= index b)%nat)
    (exec_all at_ skip s).
Proof.
  induction s as [|c s IH]; simpl; intros at_ skip; [constructor|].
  destruct skip as [|k]; [|apply IH].
  destruct (match_at (String c s)) as [[w g]|] eqn:E; [|apply IH].
  constructor; [apply IH|].
  rewrite Forall_forall. intros m Hm. simpl.
  apply exec_all_sound in Hm. pose proof (match_at_width _ E). lia.
Qed.

End CitationFacts.

Section CitationList.
Import Citations.
Context {Num : Numerals}.
Variable reasoning : string.

Lemma sorted_snoc (A : Type) (R : A -> A -> Prop) l x :
  StronglySorted R l -> (forall a, In a l -> R a x) ->
  StronglySorted R (l ++ [x]).
Proof.
  induction 1 as [|h l Hs IH Hall]; simpl; intros Hx.
  - repeat constructor.
  - constructor; [apply IH; auto|].
    apply Forall_app. split; [exact Hall|]. constructor; auto.
Qed.

Lemma add_citation_cases citations m :
  (add_citation reasoning citations m = citations
   /\ exists c, In c citations
                /\ same (chunkNumber c) (parseInt (group m)) = true)
  \/ (add_citation reasoning citations m
      = citations ++ [{| chunkNumber := parseInt (group m);
                         context := context_of reasoning m;
                         timestampInReasoning := index m |}]
      /\ forall c, In c citations ->
           same (chunkNumber c) (parseInt (group m)) = false).
Proof.
  unfold add_citation.
  destruct (existsb _ citations) eqn:E.
  - left. split; [reflexivity|]. apply existsb_exists in E. exact E.
  - right. split; [reflexivity|]. intros c Hc.
    destruct (same (chunkNumber c) (parseInt (group m))) eqn:Es; auto.
    assert (existsb (fun c => same (chunkNumber c) (parseInt (group m)))
              citations = true)
      by (apply existsb_exists; eauto).
    congruence.
Qed.

Lemma citations_kept ms : forall acc c,
  In c acc -> In c (fold_left (add_citation reasoning) ms acc).
Proof.
  induction ms as [|m ms IH]; simpl; intros acc c Hc; auto.
  apply IH.
  destruct (add_citation_cases acc m) as [[-> _]|[-> _]]; auto.
  apply in_or_app. now left.
Qed.

Lemma citations_from ms : forall acc c,
  In c (fold_left (add_citation reasoning) ms acc) ->
  In c acc
  \/ exists m, In m ms
       /\ c = {| chunkNumber := parseInt (group m);
                 context := context_of reasoning m;
                 timestampInReasoning := index m |}.
Proof.
  induction ms as [|m ms IH]; simpl; intros acc c Hc; auto.
  apply IH in Hc. destruct Hc as [Hc|(m' & Hm' & ->)]; [|eauto].
  destruct (add_citation_cases acc m) as [[Heq _]|[Heq _]];
    rewrite Heq in Hc; auto.
  apply in_app_or in Hc. destruct Hc as [Hc|[<-|[]]]; eauto.
Qed.

Lemma citations_count ms : forall acc,
  (List.length (fold_left (add_citation reasoning) ms acc)
   <= List.length acc + List.length ms)%nat.
Proof.
  induction ms as [|m ms IH]; simpl; intros acc; [lia|].
  specialize (IH (add_citation reasoning acc m)).
  destruct (add_citation_cases acc m) as [[Heq _]|[Heq _]];
    rewrite Heq in *; [lia|].
  rewrite length_app in IH. simpl in IH. lia.
Qed.

Lemma citations_ordered ms : forall acc,
  StronglySorted (fun a b => (index a < index b)%nat) ms ->
  StronglySorted
    (fun a b => (timestampInReasoning a < timestampInReasoning b)%nat) acc ->
  (forall a m, In a acc -> In m ms ->
     (timestampInReasoning a < index m)%nat) ->
  StronglySorted
    (fun a b => (timestampInReasoning a < timestampInReasoning b)%nat)
    (fold_left (add_citation reasoning) ms acc).
Proof.
  induction ms as [|m ms IH]; simpl; intros acc Hms Hacc Hlt; auto.
  apply StronglySorted_inv in Hms. destruct Hms as [Hms Hm].
  rewrite Forall_forall in Hm.
  apply IH; auto.
  - destruct (add_citation_cases acc m) as [[-> _]|[-> _]]; auto.
    apply sorted_snoc; auto. intros a Ha. simpl. auto.
  - intros a m' Ha Hm'.
    destruct (add_citation_cases acc m) as [[Heq _]|[Heq _]];
      rewrite Heq in Ha; auto.
    apply in_app_or in Ha. destruct Ha as [Ha|[<-|[]]]; simpl; auto.
Qed.

Lemma citations_distinct ms : forall acc,
  StronglySorted
    (fun a b => same (chunkNumber a) (chunkNumber b) = false) acc ->
  StronglySorted
    (fun a b => same (chunkNumber a) (chunkNumber b) = false)
    (fold_left (add_citation reasoning) ms acc).
Proof.
  induction ms as [|m ms IH]; simpl; intros acc Hacc; auto.
  apply IH.
  destruct (add_citation_cases acc m) as [[-> _]|[-> Hnew]]; auto.
  apply sorted_snoc; auto.
Qed.

Lemma citations_cover ms : forall acc m,
  StronglySorted (fun a b => (index a < index b)%nat) ms ->
  In m ms ->
  exists c, In c (fold_left (add_citation reasoning) ms acc)
    /\ ((timestampInReasoning c = index m
         /\ chunkNumber c = parseInt (group m))
        \/ ((In c acc \/ (timestampInReasoning c < index m)%nat)
            /\ same (chunkNumber c) (parseInt (group m)) = true)).
Proof.
  induction ms as [|m0 ms IH]; simpl; intros acc m Hms Hm; [contradiction|].
  apply StronglySorted_inv in Hms. destruct Hms as [Hms Hm0].
  rewrite Forall_forall in Hm0.
  destruct Hm as [<-|Hm].
  - destruct (add_citation_cases acc m0) as [[-> (c & Hc & Hs)]|[-> _]].
    + exists c. split; [now apply citations_kept|]. right. auto.
    + eexists. split; [apply citations_kept, in_or_app; right; now left|].
      left. simpl. auto.
  - destruct (IH (add_citation reasoning acc m0) m Hms Hm)
      as (c & Hc & [Hhere|[[Hin|Hlt] Hs]]).
    + exists c. auto.
    + exists c. split; [exact Hc|]. right. split; [|exact Hs].
      destruct (add_citation_cases acc m0) as [[Heq _]|[Heq _]];
        rewrite Heq in Hin; auto.
      apply in_app_or in Hin.
      destruct Hin as [Hin|[<-|[]]]; [now left|].
      right. simpl. apply Hm0. exact Hm.
    + exists c. auto.
Qed.

Lemma span_shorter p s :
  (String.length (snd (span p s)) <= String.length s)%nat.
Proof.
  induction s as [|c s IH]; simpl; auto.
  destruct (p c); [|simpl; lia].
  destruct (span p s) as [run after]. simpl in *. lia.
Qed.

Lemma trim_end_shorter s :
  (String.length (trim_end s) <= String.length s)%nat.
Proof.
  induction s as [|c s IH]; simpl; auto.
  destruct (is_space c && (trim_end s =? "")); simpl; lia.
Qed.

Lemma collapse_shorter s : forall b,
  (String.length (collapse b s) <= String.length s)%nat.
Proof.
  induction s as [|c s IH]; simpl; intros b; auto.
  pose proof (IH true) as H1. pose proof (IH false) as H2.
  destruct (is_space c); [destruct b|]; simpl; lia.
Qed.

Lemma replace_newlines_length s :
  String.length (replace_newlines s) = String.length s.
Proof. induction s as [|c s IH]; simpl; auto. Qed.

Lemma context_length m :
  (String.length (context_of reasoning m) <= width m + 200)%nat.
Proof.
  unfold context_of, trim, substring.
  eapply Nat.le_trans; [apply trim_end_shorter|].
  eapply Nat.le_trans; [apply span_shorter|].
  eapply Nat.le_trans; [apply collapse_shorter|].
  rewrite replace_newlines_length.
  eapply Nat.le_trans; [apply take_length|]. lia.
Qed.

End CitationList.

(** X19: [extractCitations] lists the first mention of each cited chunk.
    Its citations are at strictly increasing positions and of pairwise
    different chunk numbers; each stands at a position where the text reads
    "[Chunk", white space or none, a numeral and "]", carries the number of
    that numeral and a context of at most 200 characters more than the
    mention; and wherever the text has such a mention, a citation of the
    same number stands there or earlier.  So there is no citation exactly
    when the text has no mention. *)
Theorem extractCitations_first_mentions {Num : Citations.Numerals}
  (reasoning : string) :
  let citations := Citations.extractCitations reasoning in
  StronglySorted
    (fun a b => (Citations.timestampInReasoning a
                 < Citations.timestampInReasoning b)%nat) citations
  /\ StronglySorted
       (fun a b => Citations.same (Citations.chunkNumber a)
                     (Citations.chunkNumber b) = false) citations
  /\ (forall c, In c citations ->
        exists w g,
          Citations.match_at
            (Citations.drop (Citations.timestampInReasoning c) reasoning)
          = Some (w, g)
          /\ Citations.chunkNumber c = Citations.parseInt g
          /\ (Citations.timestampInReasoning c + w
              <= String.length reasoning)%nat
          /\ (String.length (Citations.context c) <= w + 200)%nat)
  /\ (forall i w g,
        Citations.match_at (Citations.drop i reasoning) = Some (w, g) ->
        exists c, In c citations
          /\ ((Citations.timestampInReasoning c = i
               /\ Citations.chunkNumber c = Citations.parseInt g)
              \/ ((Citations.timestampInReasoning c < i)%nat
                  /\ Citations.same (Citations.chunkNumber c)
                       (Citations.parseInt g) = true)))
  /\ (citations = [] <->
      forall i, Citations.match_at (Citations.drop i reasoning) = None).
Proof.
  intros citations.
  set (ms := Citations.exec_all 0 0 reasoning).
  assert (Hapart : StronglySorted
            (fun a b => (Citations.index a < Citations.index b)%nat) ms).
  { pose proof (exec_all_apart reasoning 0 0) as H. fold ms in H.
    assert (Hw : forall m, In m ms -> (8 <= Citations.width m)%nat).
    { intros m Hm. apply exec_all_sound in Hm.
      destruct Hm as (_ & _ & Hm). apply match_at_width in Hm. lia. }
    clearbody ms. induction H as [|m l Hs IH Hall]; constructor.
    - apply IH. intros x Hx. apply Hw. now right.
    - rewrite Forall_forall in *. intros x Hx.
      specialize (Hall x Hx). specialize (Hw m (or_introl eq_refl)). lia. }
  assert (Hcover : forall i w g,
            Citations.match_at (Citations.drop i reasoning) = Some (w, g) ->
            exists c, In c citations
              /\ ((Citations.timestampInReasoning c = i
                   /\ Citations.chunkNumber c = Citations.parseInt g)
                  \/ ((Citations.timestampInReasoning c < i)%nat
                      /\ Citations.same (Citations.chunkNumber c)
                           (Citations.parseInt g) = true))).
  { intros i w g Hm.
    pose proof (@exec_all_complete reasoning 0 0 i w g (Nat.le_0_l i) Hm)
      as Hin.
    fold ms in Hin.
    destruct (@citations_cover Num reasoning ms [] _ Hapart Hin)
      as (c & Hc & [Hhere|[[[]|Hlt] Hs]]); exists c; auto. }
  split.
  { apply citations_ordered; auto; [constructor|intros a m []]. }
  split.
  { apply citations_distinct. constructor. }
  split.
  { intros c Hc. apply citations_from in Hc.
    destruct Hc as [[]|(m & Hm & ->)]. simpl.
    pose proof (@exec_all_sound reasoning 0 0 m Hm) as (_ & Hend & Hat).
    rewrite Nat.sub_0_r in Hat.
    exists (Citations.width m), (Citations.group m).
    split; [exact Hat|]. split; [reflexivity|].
    split; [simpl in Hend; lia|apply context_length]. }
  split; [exact Hcover|].
  split.
  - intros Hnil i.
    destruct (Citations.match_at (Citations.drop i reasoning))
      as [[w g]|] eqn:E; [|reflexivity].
    destruct (Hcover i w g E) as (c & Hc & _).
    rewrite Hnil in Hc. contradiction.
  - intros Hnone.
    destruct citations as [|c rest] eqn:E; [reflexivity|].
    assert (Hc : In c (Citations.extractCitations reasoning))
      by (fold citations; rewrite E; now left).
    apply citations_from in Hc. destruct Hc as [[]|(m & Hm & _)].
    apply exec_all_sound in Hm. destruct Hm as (_ & _ & Hat).
    rewrite Hnone in Hat. discriminate.
Qed.

(** ** Chunks *)

Section Chunking.
Import Documents.

Lemma rounds_spec (n step k : nat) :
  (0 < step)%nat -> (k < rounds n step)%nat <-> (k * step < n)%nat.
Proof.
  intros Hs. unfold rounds. destruct n as [|w]; [lia|].
  split; intros H.
  - assert (k <= w / step)%nat by lia.
    pose proof (Nat.Div0.mul_div_le w step).
    assert (k * step <= step * (w / step))%nat by nia. lia.
  - assert (k <= w / step)%nat; [|lia].
    apply Nat.div_le_lower_bound; lia.
Qed.

Lemma slice_length (chunkSize : nat) (words : list string) a :
  List.length (slice a (a + chunkSize) words)
  = Nat.min chunkSize (List.length words - a).
Proof.
  unfold slice. rewrite length_firstn, length_skipn.
  replace (a + chunkSize - a)%nat with chunkSize by lia. reflexivity.
Qed.

Variables (chunkSize overlap : nat) (words : list string).
Hypothesis step_positive : (overlap < chunkSize)%nat.

Lemma chunk_loop_rounds fuel : forall k chunks,
  (List.length words <= k * (chunkSize - overlap) + fuel)%nat ->
  List.length chunks = k ->
  chunk_loop fuel chunkSize overlap words (k * (chunkSize - overlap)) chunks
  = Some (chunks
          ++ map (chunk_at chunkSize (chunkSize - overlap) words)
               (seq k (rounds (List.length words) (chunkSize - overlap)
                       - k))).
Proof.
  set (step := (chunkSize - overlap)%nat).
  set (n := List.length words).
  assert (Hs : (0 < step)%nat) by (unfold step; lia).
  induction fuel as [|fuel IH]; intros k chunks Hfuel Hlen.
  - assert (Hdone : (n <= k * step)%nat) by lia.
    assert (Hk : ~ (k < rounds n step)%nat)
      by (rewrite rounds_spec by exact Hs; lia).
    simpl. fold n. replace (n <=? k * step)%nat with true
      by (symmetry; now apply Nat.leb_le).
    replace (rounds n step - k)%nat with 0%nat by lia.
    simpl. now rewrite app_nil_r.
  - cbn [chunk_loop]. fold n.
    destruct (n <=? k * step)%nat eqn:E.
    + apply Nat.leb_le in E.
      assert (Hk : ~ (k < rounds n step)%nat)
        by (rewrite rounds_spec by exact Hs; lia).
      replace (rounds n step - k)%nat with 0%nat by lia.
      simpl. now rewrite app_nil_r.
    + apply Nat.leb_gt in E.
      assert (Hk : (k < rounds n step)%nat)
        by (rewrite rounds_spec by exact Hs; lia).
      rewrite slice_length. fold n.
      replace (Nat.min chunkSize (n - k * step) =? 0)%nat with false
        by (symmetry; apply Nat.eqb_neq; lia).
      fold step. replace (k * step + step)%nat with (S k * step)%nat by lia.
      rewrite IH.
      * replace (rounds n step - k)%nat with (S (rounds n step - S k))
          by lia.
        cbn [seq map]. rewrite <- app_assoc. cbn [app].
        do 3 f_equal. unfold chunk_at. rewrite Hlen, slice_length.
        reflexivity.
      * lia.
      * rewrite length_app. simpl. lia.
Qed.

Lemma chunk_loop_total :
  chunk_loop (List.length words) chunkSize overlap words 0 []
  = Some (map (chunk_at chunkSize (chunkSize - overlap) words)
            (seq 0 (rounds (List.length words) (chunkSize - overlap)))).
Proof.
  pose proof (@chunk_loop_rounds (List.length words) 0 [] ltac:(lia) eq_refl)
    as H.
  rewrite Nat.sub_0_r in H. exact H.
Qed.

Lemma chunk_loop_chunks chunks :
  chunk_loop (List.length words) chunkSize overlap words 0 [] = Some chunks ->
  List.length chunks = rounds (List.length words) (chunkSize - overlap)
  /\ (forall k c, nth_error chunks k = Some c ->
        id c = k
        /\ startWord c = (k * (chunkSize - overlap))%nat
        /\ endWord c
           = Nat.min (List.length words)
               (k * (chunkSize - overlap) + chunkSize)
        /\ length c = (endWord c - startWord c)%nat
        /\ (1 <= length c <= chunkSize)%nat
        /\ text c
           = String.concat " "
               (firstn chunkSize
                  (skipn (k * (chunkSize - overlap)) words)))
  /\ (forall j, (j < List.length words)%nat ->
        exists c, In c chunks /\ (startWord c <= j < endWord c)%nat).
Proof.
  rewrite chunk_loop_total. intros H. injection H as <-.
  set (step := (chunkSize - overlap)%nat).
  set (n := List.length words).
  assert (Hs : (0 < step <= chunkSize)%nat) by (unfold step; lia).
  clearbody step.
  split; [now rewrite length_map, length_seq|].
  split.
  - intros k c Hc.
    assert (Hk : (k < rounds n step)%nat).
    { assert (Hsome : nth_error
                        (map (chunk_at chunkSize step words)
                           (seq 0 (rounds n step))) k
                      <> None) by congruence.
      apply nth_error_Some in Hsome.
      now rewrite length_map, length_seq in Hsome. }
    rewrite nth_error_map, nth_error_seq in Hc.
    replace (k <? rounds n step)%nat with true in Hc
      by (symmetry; now apply Nat.ltb_lt).
    simpl in Hc. injection Hc as <-.
    apply rounds_spec in Hk; [|lia].
    unfold chunk_at. cbn [id startWord endWord length text].
    rewrite slice_length. fold n.
    split; [reflexivity|]. split; [reflexivity|].
    split; [lia|]. split; [lia|]. split; [lia|].
    unfold slice.
    now replace (k * step + chunkSize - k * step)%nat with chunkSize by lia.
  - intros j Hj. exists (chunk_at chunkSize step words (j / step)).
    pose proof (Nat.Div0.mul_div_le j step) as Hlow.
    pose proof (Nat.mul_succ_div_gt j step ltac:(lia)) as Hhigh.
    split.
    + apply in_map, in_seq. split; [lia|]. simpl.
      apply rounds_spec; [lia|]. nia.
    + unfold chunk_at. cbn [startWord endWord]. rewrite slice_length.
      fold n. nia.
Qed.

End Chunking.

Lemma chunk_parameters_step (docType : string) (n : nat) :
  (1 <= n)%nat ->
  let p := Documents.chunk_parameters docType n in
  (snd p < snd (fst p) <= 800)%nat.
Proof.
  intros Hn. unfold Documents.chunk_parameters.
  destruct (docType =? "resume/cv"); [simpl; lia|].
  destruct (_ || _); [simpl; lia|].
  destruct (docType =? "short document").
  - cbn [fst snd].
    assert (1 <= Nat.min 800 n)%nat by lia.
    pose proof (Nat.div_lt (Nat.min 800 n) 4). lia.
  - destruct (_ || _); simpl; lia.
Qed.

(** X20: the loop of [processText] that cuts the words of a document into
    chunks ends for every document type, after one round per [chunkSize -
    overlap] words; the chunk of round [k] has the id [k], starts at the
    word [k * (chunkSize - overlap)], holds the next [chunkSize] words or
    what is left of them (at least one), and its text joins exactly these
    words; every word of the document lies in some chunk. *)
Theorem chunks_cover_every_word (docType : string) (words : list string) :
  let p := Documents.chunk_parameters docType (List.length words) in
  let chunkSize := snd (fst p) in
  let step := (chunkSize - snd p)%nat in
  exists chunks,
    Documents.chunks_of docType words = Some chunks
    /\ List.length chunks = Documents.rounds (List.length words) step
    /\ (forall k c, nth_error chunks k = Some c ->
          Documents.id c = k
          /\ Documents.startWord c = (k * step)%nat
          /\ Documents.endWord c
             = Nat.min (List.length words) (k * step + chunkSize)
          /\ Documents.length c
             = (Documents.endWord c - Documents.startWord c)%nat
          /\ (1 <= Documents.length c <= chunkSize)%nat
          /\ Documents.text c
             = String.concat " "
                 (firstn chunkSize (skipn (k * step) words)))
    /\ (forall j, (j < List.length words)%nat ->
          exists c, In c chunks
            /\ (Documents.startWord c <= j < Documents.endWord c)%nat).
Proof.
  intros p chunkSize step.
  assert (Hof : Documents.chunks_of docType words
                = Documents.chunk_loop (List.length words) chunkSize (snd p)
                    words 0 []).
  { unfold Documents.chunks_of, chunkSize. fold p.
    now destruct p as [[strategy size] overlap]. }
  rewrite Hof.
  destruct (Nat.eq_dec (List.length words) 0) as [Hz|Hnz].
  - exists []. rewrite Hz.
    apply length_zero_iff_nil in Hz. rewrite Hz.
    split; [reflexivity|]. split; [reflexivity|].
    split; [intros [|k] c H; discriminate|intros j Hj; simpl in Hj; lia].
  - assert (Hn : (1 <= List.length words)%nat) by lia.
    assert (Hstep : (snd p < chunkSize)%nat)
      by apply (chunk_parameters_step docType Hn).
    destruct (@chunk_loop_chunks chunkSize (snd p) words Hstep _
                (chunk_loop_total words Hstep))
      as (Hlen & Hchunk & Hcover).
    eexists. split; [apply chunk_loop_total; exact Hstep|].
    split; [exact Hlen|]. split; [exact Hchunk|exact Hcover].
Qed.

(** ** Summaries *)

Section SummaryFacts.
Import Summaries.

Lemma ends_sentence_other x c :
  ends_sentence x = false -> ends_sentence c = true -> Ascii.eqb x c = false.
Proof.
  intros Hx Hc. destruct (Ascii.eqb x c) eqn:E; [|reflexivity].
  apply Ascii.eqb_eq in E. congruence.
Qed.

Lemma split_no_mark c s : forall b p,
  ends_sentence c = true -> In p (split_sentences b s) ->
  Str.includes c p = false.
Proof.
  induction s as [|x s IH]; simpl; intros b p Hc Hp.
  - destruct Hp as [<-|[]]. reflexivity.
  - destruct (ends_sentence x) eqn:Ex.
    + destruct b; [eauto|].
      destruct Hp as [<-|Hp]; [reflexivity|eauto].
    + destruct (split_sentences false s) as [|piece pieces] eqn:E.
      * destruct Hp as [<-|[]]. simpl.
        now rewrite (ends_sentence_other _ _ Ex Hc).
      * destruct Hp as [<-|Hp].
        -- simpl. rewrite (ends_sentence_other _ _ Ex Hc). simpl.
           apply (IH false); [exact Hc|]. rewrite E. now left.
        -- apply (IH false); [exact Hc|]. rewrite E. now right.
Qed.

Lemma includes_concat c sep l :
  Str.includes c sep = false ->
  (forall p, In p l -> Str.includes c p = false) ->
  Str.includes c (String.concat sep l) = false.
Proof.
  intros Hsep. induction l as [|x l IH]; intros Hl; [reflexivity|].
  simpl. destruct l as [|y l].
  - apply Hl. now left.
  - rewrite !includes_append, Hsep, (Hl x (or_introl eq_refl)). simpl.
    apply IH. intros p Hp. apply Hl. now right.
Qed.

Lemma includes_take c n : forall s,
  Str.includes c s = false -> Str.includes c (Ordering.take n s) = false.
Proof.
  induction n as [|n IH]; intros [|x s]; simpl; auto.
  intros H. apply orb_false_iff in H. destruct H as [-> H]. simpl. auto.
Qed.

End SummaryFacts.

(** X21: the summary [generateDocumentSummary] writes is never longer than
    300 characters and contains neither an exclamation mark nor a question
    mark; it is the notice that no summary is available exactly when the
    text has no sentence with a visible character, and ends with a full
    stop otherwise. *)
Theorem generateDocumentSummary_is_bounded (text docType : string) :
  let summary := Summaries.generateDocumentSummary text docType in
  (String.length summary <= 300)%nat
  /\ Str.includes "!" summary = false
  /\ Str.includes "?" summary = false
  /\ (summary = "No summary available" <->
      filter Summaries.not_blank (Summaries.split_sentences false text) = [])
  /\ (summary <> "No summary available" ->
      exists body : string, summary = (body ++ ".")%string).
Proof.
  intros summary. unfold summary, Summaries.generateDocumentSummary.
  set (sentences := filter Summaries.not_blank
                      (Summaries.split_sentences false text)).
  destruct sentences as [|s0 rest] eqn:E.
  - simpl. repeat split; auto; try lia. intros H. now contradiction H.
  - rewrite <- E. replace (List.length sentences =? 0)%nat with false
      by (rewrite E; reflexivity).
    set (joined := (String.concat ". "
                      (firstn (Nat.min 3 (List.length sentences)) sentences)
                    ++ ".")%string).
    assert (Hmark : forall c, Summaries.ends_sentence c = true ->
              Ascii.eqb "." c = false ->
              Str.includes c joined = false).
    { intros c Hc Hdot.
      assert (Hone : Str.includes c "." = false).
      { change (Str.includes c ".") with (Ascii.eqb "." c || false).
        now rewrite Hdot. }
      assert (Hsep : Str.includes c ". " = false).
      { change (Str.includes c ". ")
          with (Ascii.eqb "." c || (Ascii.eqb " " c || false)).
        rewrite Hdot.
        destruct (Ascii.eqb " " c) eqn:Esp; [|reflexivity].
        apply Ascii.eqb_eq in Esp. subst c. discriminate. }
      unfold joined. rewrite includes_append, Hone, orb_false_r.
      apply includes_concat; [exact Hsep|].
      intros p0 Hp. apply firstn_in in Hp. unfold sentences in Hp.
      apply filter_In in Hp. destruct Hp as [Hp _].
      now apply (split_no_mark _ _ _ _ Hc Hp). }
    assert (Hdot : exists body : string, joined = (body ++ ".")%string)
      by (unfold joined; eauto).
    destruct (300 <? String.length joined)%nat eqn:Hlong.
    + split.
      { rewrite length_append. pose proof (take_length 297 joined).
        change (String.length "...") with 3%nat. lia. }
      split.
      { rewrite includes_append, includes_take; [reflexivity|].
        now apply Hmark. }
      split.
      { rewrite includes_append, includes_take; [reflexivity|].
        now apply Hmark. }
      assert (Hend : (Ordering.take 297 joined ++ "...")%string
                     = ((Ordering.take 297 joined ++ "..") ++ ".")%string)
        by now rewrite append_assoc.
      split.
      * split; [|rewrite E; discriminate].
        intros H. exfalso.
        assert (Hin : Str.includes "."
                        (Ordering.take 297 joined ++ "...") = true)
          by (rewrite includes_append; simpl; apply orb_true_r).
        rewrite H in Hin. discriminate.
      * intros _. eexists. exact Hend.
    + apply Nat.ltb_ge in Hlong.
      split; [exact Hlong|].
      split; [now apply Hmark|]. split; [now apply Hmark|].
      split.
      * split; [|rewrite E; discriminate].
        intros H. exfalso. destruct Hdot as [body Hbody].
        assert (Hin : Str.includes "." joined = true)
          by (rewrite Hbody, includes_append; simpl; apply orb_true_r).
        rewrite H in Hin. discriminate.
      * intros _. exact Hdot.
Qed.

(** ** The payload *)

Section PayloadFacts.
Import Payload.

Lemma items_nth chunks : forall index k chunk,
  nth_error chunks k = Some chunk ->
  nth_error (items index chunks) k
  = Some {| id := if Qeq_bool (chunkId chunk) 0
                  then inject_Z (Z.of_nat (index + k)) else chunkId chunk;
            i_text := text chunk;
            relevance := if Qeq_bool (relevanceScore chunk) 0
                         then (1 # 2)%Q else relevanceScore chunk |}.
Proof.
  induction chunks as [|c chunks IH]; intros index [|k] chunk H;
    try discriminate.
  - injection H as ->. simpl. now rewrite Nat.add_0_r.
  - simpl. rewrite (IH (S index) k chunk H).
    now replace (S index + k)%nat with (index + S k)%nat by lia.
Qed.

Lemma id_default (c : Q) (k : nat) :
  (~ (c == 0)%Q ->
   (if Qeq_bool c 0 then inject_Z (Z.of_nat k) else c) = c)
  /\ ((c == 0)%Q ->
      (if Qeq_bool c 0 then inject_Z (Z.of_nat k) else c)
      = inject_Z (Z.of_nat k)).
Proof.
  destruct (Qeq_bool c 0) eqn:E.
  - apply Qeq_bool_iff in E. split; [intros H; now contradiction H|auto].
  - split; [reflexivity|]. intros H. apply Qeq_bool_iff in H. congruence.
Qed.

Lemma items_length chunks : forall index,
  List.length (items index chunks) = List.length chunks.
Proof. induction chunks as [|c chunks IH]; simpl; auto. Qed.

End PayloadFacts.

(** X22: [_prepareMLPipelineData] hands the synthesizer as many evidence
    items as there are chunks, in their order and with their texts; an
    item's relevance is the chunk's relevance, except that a relevance of
    zero is replaced by one half, so no item has relevance zero and a
    relevance between 0 and 1 stays there; an item's id is the chunk's id,
    except that an id of zero is replaced by the item's position.  What the
    payload calls the pair id is not the token of the run but the string of
    the support response's pairing key, or [unknown] exactly when it has
    none; for a linked pair it is the id of the oppose response. *)
Theorem prepared_payload_defaults (supportResponse opposeResponse : doc)
  (chunks : list Payload.EvidenceChunk) :
  let data :=
    Payload._prepareMLPipelineData supportResponse opposeResponse chunks in
  List.length (Payload.evidence data) = List.length chunks
  /\ (forall k chunk, nth_error chunks k = Some chunk ->
        exists item,
          nth_error (Payload.evidence data) k = Some item
          /\ Payload.i_text item = Payload.text chunk
          /\ ~ (Payload.relevance item == 0)%Q
          /\ (~ (Payload.relevanceScore chunk == 0)%Q ->
              Payload.relevance item = Payload.relevanceScore chunk)
          /\ ((Payload.relevanceScore chunk == 0)%Q ->
              Payload.relevance item = (1 # 2)%Q)
          /\ ((0 <= Payload.relevanceScore chunk)%Q ->
              (Payload.relevanceScore chunk <= 1)%Q ->
              (0 < Payload.relevance item)%Q
              /\ (Payload.relevance item <= 1)%Q)
          /\ (~ (Payload.chunkId chunk == 0)%Q ->
              Payload.id item = Payload.chunkId chunk)
          /\ ((Payload.chunkId chunk == 0)%Q ->
              Payload.id item = inject_Z (Z.of_nat k)))
  /\ (Payload.synthesisPairId data = "unknown" <->
      AgentResponse.synthesisPairId supportResponse = None)
  /\ (AgentResponse.synthesisPairId supportResponse
      = Some (_id opposeResponse) ->
      Payload.synthesisPairId data
      = Payload.responseId (Payload.oppose data))
  /\ Str.includes "_" (Payload.synthesisPairId data) = false.
Proof.
  intros data. split; [apply items_length|]. split.
  - intros k chunk Hk. eexists. split; [apply items_nth; exact Hk|].
    cbn [Payload.i_text Payload.relevance Payload.id Nat.add].
    split; [reflexivity|].
    destruct (Qeq_bool (Payload.relevanceScore chunk) 0) eqn:Er.
    + apply Qeq_bool_iff in Er.
      split; [intros H; discriminate H|].
      split; [intros H; now contradiction H|].
      split; [reflexivity|].
      split; [intros _ _; split; [reflexivity|intros H; discriminate H]|].
      apply id_default.
    + assert (Hr : ~ (Payload.relevanceScore chunk == 0)%Q)
        by (intros H; apply Qeq_bool_iff in H; congruence).
      split; [exact Hr|].
      split; [reflexivity|].
      split; [intros H; now contradiction H|].
      split; [|apply id_default].
      intros H0 H1. split; [|exact H1].
      apply Qle_lteq in H0. destruct H0 as [Hlt|Heq]; [exact Hlt|].
      exfalso. apply Hr. symmetry. exact Heq.
  - split.
    + unfold data, Payload._prepareMLPipelineData. simpl.
      destruct (AgentResponse.synthesisPairId supportResponse) as [k|].
      * split; [|discriminate]. intros H. exfalso.
        pose proof (hex_digits_length 24 k) as Hlen.
        unfold ObjectId.toString in H. rewrite H in Hlen. discriminate.
      * split; reflexivity.
    + split.
      * intros Hk. unfold data, Payload._prepareMLPipelineData. simpl.
        now rewrite Hk.
      * unfold data, Payload._prepareMLPipelineData. simpl.
        destruct (AgentResponse.synthesisPairId supportResponse);
          [apply hex_digits_no_underscore|reflexivity].
Qed.


(** X24: a short document is not cut into one chunk.  With the parameters
    of the short-document strategy (the chunk as long as the document, a
    quarter of it as overlap) the loop of [processText] makes of a document
    of 4 to 800 words exactly two chunks: the whole document, and its last
    quarter (rounded down) once more. *)
Theorem short_document_gets_two_chunks (words : list string) :
  (4 <= List.length words <= 800)%nat ->
  let n := List.length words in
  let start := (n - n / 4)%nat in
  exists whole tail,
    Documents.chunks_of "short document" words = Some [whole; tail]
    /\ Documents.startWord whole = 0%nat
    /\ Documents.endWord whole = n
    /\ Documents.text whole = String.concat " " words
    /\ Documents.startWord tail = start
    /\ Documents.endWord tail = n
    /\ Documents.text tail = String.concat " " (skipn start words)
    /\ (1 <= Documents.length tail)%nat
    /\ (Documents.length whole + Documents.length tail = n + (n - start))%nat.
Proof.
  intros Hn n start.
  assert (Hp : Documents.chunk_parameters "short document" n
               = ("whole_document", n, n / 4)%nat).
  { change (Documents.chunk_parameters "short document" n)
      with ("whole_document", Nat.min 800 n, Nat.min 800 n / 4)%nat.
    now replace (Nat.min 800 n) with n by (unfold n; lia). }
  assert (Hq : (1 <= n / 4)%nat)
    by (apply Nat.div_le_lower_bound; unfold n; lia).
  assert (Hq' : (n / 4 <= n / 1)%nat)
    by (apply Nat.div_le_compat_l; lia).
  rewrite Nat.div_1_r in Hq'.
  assert (Hstep : (n / 4 < n)%nat).
  { apply Nat.div_lt; unfold n; lia. }
  assert (Hof : Documents.chunks_of "short document" words
                = Documents.chunk_loop n n (n / 4) words 0 []).
  { unfold Documents.chunks_of. fold n. now rewrite Hp. }
  assert (Hrounds : Documents.rounds n (n - n / 4) = 2%nat).
  { unfold Documents.rounds. destruct n as [|m] eqn:En; [lia|].
    f_equal.
    assert (Hlow : (1 <= m / (S m - S m / 4))%nat)
      by (apply Nat.div_le_lower_bound; lia).
    assert (Hhigh : (m / (S m - S m / 4) < 2)%nat).
    { apply Nat.Div0.div_lt_upper_bound.
      pose proof (Nat.Div0.mul_div_le (S m) 4). lia. }
    lia. }
  pose proof (chunk_loop_total words Hstep) as Htot.
  fold n in Htot. rewrite Hrounds in Htot. cbn [seq map] in Htot.
  rewrite Hof, Htot. eexists. eexists. split; [reflexivity|].
  cbn [Documents.startWord Documents.endWord Documents.text
       Documents.length].
  unfold Documents.chunk_at.
  cbn [Documents.startWord Documents.endWord Documents.text
       Documents.length].
  rewrite !slice_length. fold n.
  rewrite Nat.mul_0_l, Nat.mul_1_l, Nat.add_0_l, Nat.sub_0_r.
  replace (Nat.min n n) with n by lia.
  replace (Nat.min n (n - (n - n / 4))) with (n - start)%nat
    by (unfold start; lia).
  split; [reflexivity|]. split; [reflexivity|].
  split.
  { unfold Documents.slice. rewrite ?Nat.sub_0_r. simpl skipn.
    rewrite ?Nat.add_0_l. unfold n. now rewrite firstn_all. }
  split; [reflexivity|]. split; [unfold start; lia|].
  split.
  { unfold Documents.slice. fold start.
    rewrite firstn_all2; [reflexivity|].
    rewrite length_skipn. fold n. unfold start. lia. }
  split; [unfold start; lia|reflexivity].
Qed.

Lemma short_document_gets_two_chunks_witness :
  exists whole tail,
    Documents.chunks_of "short document" ["a"; "b"; "c"; "d"; "e"]
    = Some [whole; tail]
    /\ Documents.text whole = "a b c d e"
    /\ Documents.text tail = "e".
Proof.
  destruct (@short_document_gets_two_chunks ["a"; "b"; "c"; "d"; "e"])
    as (whole & tail & Hof & _ & _ & Hw & _ & _ & Ht & _).
  - simpl. lia.
  - exists whole, tail. split; [exact Hof|]. split; [exact Hw|exact Ht].
Defined.
